(** * evals-pwa: the run orchestrator, the consistency row assertion and the
      openai-responses provider

    A shallow embedding of
    - [runTests], [deepEquals], [chooseFolder] and [loadStateFromStorage]
      (state actions),
    - [createConsistencyAssertion] and [extractOutputAsString]
      (src/lib/assertions/consistency.ts),
    - [OpenAiResponses.run], [mergeMessages], [conversationToResponses],
      [extractOutput], [extractTokenUsage] and the request callback of
      [runModel] (src/lib/providers/openai-responses.ts),
    - the cell of the results table and [saveEnv] of the settings dialog
      (Svelte components),
    followed by the properties of the specification that concern them and
    by further properties of the code.

    Conventions.  A JavaScript exception is the [Throw] outcome of [Result].
    Calls to collaborators whose code lives elsewhere (storage, provider
    manager, environments, assertion instances, the rubric model, zod schemas
    of $lib/types) are fields of a [World] record or section variables; every
    such call that matters to a property is recorded as an event of a trace.
    A JavaScript number is [NaN] or a number that is equal to itself, taken
    to be an integer ([Z]). *)

From Stdlib Require Import ZArith Lia.
From stdpp Require Import base option list strings gmap pretty sorting.

Set Default Proof Using "Type".
Set Warnings "-register-all".
Open Scope string_scope.
Open Scope list_scope.
Open Scope nat_scope.

(** ** Outcomes and the trace monad *)

Inductive Result (A : Type) : Type :=
| Ok (a : A)
| Throw (error : string).
Arguments Ok {A} a.
Arguments Throw {A} error.

Definition is_ok {A} (r : Result A) : bool :=
  match r with Ok _ => true | Throw _ => false end.

(** [Eff E A]: the events a computation emitted, in order, and its outcome.
    After a [Throw] nothing more is emitted. *)
Definition Eff (E A : Type) : Type := (list E * Result A)%type.

Definition ret {E A} (a : A) : Eff E A := ([], Ok a).
Definition throw {E A} (msg : string) : Eff E A := ([], Throw msg).
Definition emit {E} (e : E) : Eff E unit := ([e], Ok tt).
Definition lift {E A} (r : Result A) : Eff E A := ([], r).
Definition bind {E A B} (m : Eff E A) (f : A → Eff E B) : Eff E B :=
  match m with
  | (tr, Ok a) => let '(tr', r) := f a in (tr ++ tr', r)
  | (tr, Throw e) => (tr, Throw e)
  end.

Declare Scope eff_scope.
Delimit Scope eff_scope with eff.
Notation "'let!' x ':=' m 'in' k" := (bind m (λ x, k))
  (at level 10, x name, m at level 100, k at level 200) : eff_scope.
Notation "'let!' ' p ':=' m 'in' k" := (bind m (λ x, match x with p => k end))
  (at level 10, p pattern, m at level 100, k at level 200) : eff_scope.
Notation "'do!' m 'in' k" := (bind m (λ _, k))
  (at level 10, m at level 100, k at level 200) : eff_scope.

(** [for (const x of xs) { body }] with an accumulator. *)
Fixpoint forEach {E A S} (body : S → A → Eff E S) (xs : list A) (s : S) : Eff E S :=
  match xs with
  | [] => ret s
  | x :: xs' => bind (body s x) (forEach body xs')
  end.

(** ** JavaScript values *)

Module Js.

(** A number: [NaN], which a YAML loader produces for [.nan] and which is
    the one value that is not [===] to itself, or any other number.  The
    other numbers are compared as numbers, whatever they are; they are
    integers here. *)
Inductive Number : Type :=
| Finite (z : Z)
| NaN.

Bind Scope Z_scope with Number.
Coercion Finite : Z >-> Number.

(** [x === y] on numbers *)
Definition numberEquals (x y : Number) : bool :=
  match x, y with
  | Finite a, Finite b => bool_decide (a = b)
  | _, _ => false
  end.

(** Plain data as [JSON.parse] or a YAML loader produce it, plus [undefined].
    [VObj] lists the own enumerable properties in [Object.keys] order; the
    keys of an object are pairwise distinct. *)
Inductive Value : Type :=
| VUndefined
| VNull
| VBool (b : bool)
| VNum (n : Number)
| VStr (s : string)
| VArr (items : list Value)
| VObj (props : list (string * Value)).

Inductive JsType : Type := TUndefined | TObject | TBoolean | TNumber | TString.

#[global] Instance JsType_eq_dec : EqDecision JsType.
Proof. solve_decision. Defined.

(** [typeof v] *)
Definition typeof (v : Value) : JsType :=
  match v with
  | VUndefined => TUndefined
  | VNull | VArr _ | VObj _ => TObject
  | VBool _ => TBoolean
  | VNum _ => TNumber
  | VStr _ => TString
  end.

(** [a === b].  Primitives compare by value.  Objects and arrays compare by
    reference: the two trees compared below come from two separate loads of
    the configuration, so no object of one is an object of the other. *)
Definition strictEquals (a b : Value) : bool :=
  match a, b with
  | VUndefined, VUndefined => true
  | VNull, VNull => true
  | VBool x, VBool y => bool_decide (x = y)
  | VNum x, VNum y => numberEquals x y
  | VStr x, VStr y => bool_decide (x = y)
  | _, _ => false
  end.

(** Truthiness of a string-or-absent field: [undefined] and [''] are falsy. *)
Definition truthy (s : option string) : bool :=
  match s with
  | None => false
  | Some s => negb (bool_decide (s = ""))
  end.

(** The own enumerable properties: array indices are the keys "0", "1", ... *)
Definition indexed (items : list Value) : list (string * Value) :=
  imap (λ i x, (pretty i, x)) items.

(** [Object.keys(v)]: a [TypeError] on [null] and [undefined]. *)
Definition Object_keys (v : Value) : Result (list string) :=
  match v with
  | VUndefined | VNull => Throw "TypeError: Cannot convert undefined or null to object"
  | VArr items => Ok (fst <$> indexed items)
  | VObj props => Ok (fst <$> props)
  | VStr s => Ok (pretty <$> seq 0 (String.length s))
  | VBool _ | VNum _ => Ok []
  end.

Fixpoint assoc (key : string) (props : list (string * Value)) : option Value :=
  match props with
  | [] => None
  | (k, v) :: rest => if bool_decide (k = key) then Some v else assoc key rest
  end.

(** [v[key]] for a string key: [undefined] when there is no such property. *)
Definition get (v : Value) (key : string) : Value :=
  match v with
  | VArr items => default VUndefined (assoc key (indexed items))
  | VObj props => default VUndefined (assoc key props)
  | _ => VUndefined
  end.

(** [keys.includes(key)] *)
Definition includes (keys : list string) (key : string) : bool :=
  bool_decide (key ∈ keys).

(** One turn of [for (const key of keysA)]: the key must be a key of [b]
    and the values stored with it must be deeply equal; [next] is the rest of
    the loop. *)
Definition compareKey (deepEquals : Value → Value → Result bool)
    (keysB : list string) (b : Value) (key : string) (x : Value)
    (next : Result bool) : Result bool :=
  if negb (includes keysB key) then Ok false
  else match deepEquals x (get b key) with
       | Throw e => Throw e
       | Ok false => Ok false
       | Ok true => next
       end.

(** The loop over the keys of an array, from index [i] on. *)
Fixpoint everyIndex (deepEquals : Value → Value → Result bool)
    (keysB : list string) (b : Value) (i : nat) (rest : list Value) : Result bool :=
  match rest with
  | [] => Ok true
  | x :: rest' =>
      compareKey deepEquals keysB b (pretty i) x
        (everyIndex deepEquals keysB b (S i) rest')
  end.

(** The loop over the keys of an object. *)
Fixpoint everyProp (deepEquals : Value → Value → Result bool)
    (keysB : list string) (b : Value) (rest : list (string * Value)) : Result bool :=
  match rest with
  | [] => Ok true
  | (key, x) :: rest' =>
      compareKey deepEquals keysB b key x (everyProp deepEquals keysB b rest')
  end.

(** [deepEquals(a, b)].  The loop runs over [Object.keys(a)]; [a[key]] is the
    value stored with [key], which is the loop's own element because keys
    are distinct. *)
Fixpoint deepEquals (a b : Value) {struct a} : Result bool :=
  if strictEquals a b then Ok true
  else if negb (bool_decide (typeof a = typeof b)) then Ok false
  else
    match a with
    | VArr items =>
        match Object_keys b with
        | Throw e => Throw e
        | Ok keysB =>
            if negb (bool_decide (length items = length keysB)) then Ok false
            else everyIndex deepEquals keysB b 0 items
        end
    | VObj props =>
        match Object_keys b with
        | Throw e => Throw e
        | Ok keysB =>
            if negb (bool_decide (length props = length keysB)) then Ok false
            else everyProp deepEquals keysB b props
        end
    | _ => Ok false
    end.

End Js.

(** ** The openai-responses provider *)

Module OpenAiResponses.

Inductive Role : Type := user | assistant | system | developer.

#[global] Instance Role_eq_dec : EqDecision Role.
Proof. solve_decision. Defined.

Inductive Detail : Type := detail_auto | detail_low | detail_high.

Inductive ResponseInputContent : Type :=
| input_text (text : string)
| input_image (image_url : option string) (detail : Detail).

(** [content: string | ResponseInputContent[]] *)
Inductive MessageContent : Type :=
| text_content (text : string)
| parts_content (parts : list ResponseInputContent).

Inductive MessageTag : Type := message.

Record ResponseMessage : Type := {
  role : Role;
  content : MessageContent;
  type : option MessageTag;
}.

(** The parsed [response] of a [response.completed] event
    ([responseSchema]); fields the schema passes through untouched are
    [extra]. *)
Record Usage : Type := {
  input_tokens : option Z;
  output_tokens : option Z;
  total_tokens : option Z;
}.

Record OutputContent : Type := {
  content_type : string;
  content_text : option string;
}.

Record OutputItem : Type := {
  item_type : string;
  item_role : option string;
  item_content : option (list OutputContent);
}.

Record Response : Type := {
  id : string;
  output_text : option string;
  usage : option Usage;
  output : option (list OutputItem);
  extra : list (string * Js.Value);
}.

Inductive EventKind : Type :=
| kind_output_text_delta | kind_refusal_delta | kind_completed
| kind_error | kind_failed.

(** One [data:] payload of the event stream, as [JSON.parse] and the zod
    schema of its [type] see it. *)
Inductive SsePayload : Type :=
| Unparseable                              (* JSON.parse throws *)
| OutputTextDelta (delta : option string)  (* delta is nullish or a string *)
| RefusalDelta (delta : option string)
| Completed (response : Response)
| ResponseError (error_message : string)
| ResponseFailed (error_message : option string) (reason : option string)
| Invalid (kind : EventKind)               (* known type, schema violated *)
| Unrecognized.                            (* any other type, or none *)

(** What [exponentialBackoff(fetch ...)] and [resp.body] leave the
    generator with. *)
Inductive Http : Type :=
| FetchError (error : string)
| NoBody
| Body (events : list SsePayload).

Record RunResult : Type := {
  response : Response;
  session : list ResponseMessage;
}.

Record Request : Type := {
  model : string;
  options : list (string * Js.Value);
  stream : bool;
  store : bool;
  input : list ResponseMessage;
}.

Record TokenUsage (Cost : Type) : Type := {
  inputTokens : Z;
  outputTokens : Z;
  totalTokens : Z;
  costDollars : Cost;
}.
Arguments inputTokens {Cost} _.
Arguments outputTokens {Cost} _.
Arguments totalTokens {Cost} _.
Arguments costDollars {Cost} _.

Section Conversation.
Context {File : Type}.
Variable fileToBase64 : File → Result string.

(** [PromptPart] of $lib/types: text, a file, or something else. *)
Inductive PromptPart : Type :=
| text_part (text : string)
| file_part (file : File)
| other_part.

Record Turn : Type := {
  turn_role : Role;
  turn_content : list PromptPart;
}.

Definition multiPartPromptToResponse (part : PromptPart) : Result ResponseInputContent :=
  match part with
  | text_part text => Ok (input_text text)
  | file_part file =>
      match fileToBase64 file with
      | Ok b64 => Ok (input_image (Some b64) detail_auto)
      | Throw e => Throw e
      end
  | other_part => Throw "Unsupported part type"
  end.

(** [Promise.all(xs.map(f))] *)
Fixpoint promiseAll {A B} (f : A → Result B) (xs : list A) : Result (list B) :=
  match xs with
  | [] => Ok []
  | x :: xs' =>
      match f x, promiseAll f xs' with
      | Ok y, Ok ys => Ok (y :: ys)
      | Throw e, _ => Throw e
      | _, Throw e => Throw e
      end
  end.

Definition turnToResponse (part : Turn) : Result ResponseMessage :=
  match promiseAll multiPartPromptToResponse (turn_content part) with
  | Throw e => Throw e
  | Ok [input_text text] =>
      Ok {| role := turn_role part; content := text_content text; type := Some message |}
  | Ok content =>
      Ok {| role := turn_role part; content := parts_content content; type := Some message |}
  end.

Definition conversationToResponses (conversation : list Turn) : Result (list ResponseMessage) :=
  promiseAll turnToResponse conversation.
End Conversation.

Definition mergeMessages (a b : list ResponseMessage) : list ResponseMessage :=
  a ++ filter (λ m, role m ≠ system) b.

Record StreamState : Type := {
  fullText : string;
  finalResponseJson : option Response;
}.

(** The body of [for await (const value of sse(resp))]; the events of the
    trace are the yielded text fragments. *)
Definition onEvent (st : StreamState) (value : SsePayload) : Eff string StreamState :=
  match value with
  | Unparseable => throw "SyntaxError: Unexpected token in JSON"
  | Invalid _ => throw "ZodError"
  | OutputTextDelta delta | RefusalDelta delta =>
      let text := default "" delta in
      (do! emit text in
       ret {| fullText := fullText st +:+ text;
              finalResponseJson := finalResponseJson st |})%eff
  | Completed completed =>
      ret {| fullText := fullText st; finalResponseJson := Some completed |}
  | ResponseError msg => throw ("Failed to run model: " +:+ msg)
  | ResponseFailed error_message reason =>
      let msg := default (default "Unknown error" reason) error_message in
      throw ("Failed to run model: " +:+ msg)
  | Unrecognized => ret st
  end.

(** [runModel]: the generator returned by [run], driven to its end. *)
Definition runModel (messages : list ResponseMessage) (http : Http) : Eff string RunResult :=
  (do! emit "" in
   let! events := lift match http with
                       | FetchError e => Throw e
                       | NoBody => Throw "Failed to run model: no response"
                       | Body events => Ok events
                       end in
   let! st := forEach onEvent events {| fullText := ""; finalResponseJson := None |} in
   match finalResponseJson st with
   | None => throw "Failed to run model: missing completion"
   | Some parsed =>
       let messageContent := default (fullText st) (output_text parsed) in
       ret {| response := parsed;
              session := messages ++ [ {| role := assistant;
                                          content := text_content messageContent;
                                          type := Some message |} ] |}
   end)%eff.

(** [run(conversation, context)]: the request and the messages the
    generator closes over.  [sessionState] is [context.session?.state]. *)
Definition run {File} (fileToBase64 : File → Result string)
    (model : string) (options : list (string * Js.Value))
    (sessionState : option (list ResponseMessage))
    (conversation : list (Turn (File:=File)))
    : Result (Request * (Http → Eff string RunResult)) :=
  let sessionMessages := default [] sessionState in
  match conversationToResponses fileToBase64 conversation with
  | Throw e => Throw e
  | Ok newMessages =>
      let messages := mergeMessages sessionMessages newMessages in
      let request :=
        {| model := model; options := options; stream := true; store := false;
           input := (λ m, {| role := role m; content := content m;
                             type := Some message |}) <$> messages |} in
      Ok (request, runModel messages)
  end.

(** [extractOutput(response)] on a response that satisfies the schema. *)
Definition firstOutputText (item : OutputItem) : option string :=
  if bool_decide (item_type item = "message") then
    match item_content item with
    | Some contents =>
        list_find (λ c, content_type c = "output_text" ∧ is_Some (content_text c)) contents
          ≫= λ '(_, c), content_text c
    | None => None
    end
  else None.

Fixpoint findOutputText (items : list OutputItem) : option string :=
  match items with
  | [] => None
  | item :: rest =>
      match firstOutputText item with
      | Some text => Some text
      | None => findOutputText rest
      end
  end.

Definition extractOutput (json : Response) : list string :=
  let directText := default "" (output_text json) in
  if bool_decide (0 < String.length directText)%nat then [directText]
  else match output json ≫= findOutputText with
       | Some text => [text]
       | None => [""]
       end.

Definition extractTokenUsage {Cost} (costFunction : string → Z → Z → Cost)
    (model : string) (json : Response) : TokenUsage Cost :=
  let usage := default {| input_tokens := None; output_tokens := None;
                          total_tokens := None |} (usage json) in
  let inputTokens := default 0%Z (input_tokens usage) in
  let outputTokens := default 0%Z (output_tokens usage) in
  let totalTokens := default (inputTokens + outputTokens)%Z (total_tokens usage) in
  {| inputTokens := inputTokens; outputTokens := outputTokens;
     totalTokens := totalTokens;
     costDollars := costFunction model inputTokens outputTokens |}.

End OpenAiResponses.

(** ** Shared data ($lib/types) *)

Module Types.

Definition Blob : Type := list Byte.byte.

Inductive OutputPart : Type :=
| part_string (s : string)
| part_blob (b : Blob).

(** Modelled from the spec: the output of a cell, declared in $lib/types,
    which is not among the files at hand: a string or an ordered list of
    string and binary parts ([output?: string | (string | Blob)[]]). *)
Inductive Output : Type :=
| output_string (s : string)
| output_parts (parts : list OutputPart).

(** Modelled from the spec: the Assertion Result of $lib/types, a boolean
    [pass] and an optional human-readable message. *)
Record AssertionResult : Type := {
  pass : bool;
  message : option string;
}.

(** Token counts; the derived cost, a floating-point number, is left out. *)
Record TokenUsage : Type := {
  inputTokens : option Z;
  outputTokens : option Z;
  totalTokens : option Z;
}.

(** Modelled from the spec: the Test Output of $lib/types, what an
    environment run resolves to: optional output, optional error, optional
    latency and optional token usage. *)
Record TestOutput : Type := {
  output : option Output;
  error : option string;
  latencyMillis : option Z;
  tokenUsage : option TokenUsage;
}.

(** An async generator that was driven to its end: the values it yielded
    and how it finished. *)
Inductive Generator (Y R : Type) : Type :=
| gen_yield (y : Y) (rest : Generator Y R)
| gen_return (r : R)
| gen_throw (e : string).
Arguments gen_yield {Y R} y rest.
Arguments gen_return {Y R} r.
Arguments gen_throw {Y R} e.

(** [Array(n).fill(x)] *)
Definition fill {A} (n : nat) (x : A) : list A := replicate n x.

End Types.

(** ** The consistency row assertion *)

Module Consistency.
Import Js Types.

(** A value of the variables handed to the rubric prompt: plain data of the
    test case, or the vector of outputs built by [run]. *)
Inductive VarValue : Type :=
| var_value (v : Value)
| var_outputs (o : list (list OutputPart)).

(** Modelled from the spec: a provider as [providerSchema] of $lib/types
    accepts it, an identifier string or a record with an id and
    provider-specific options. *)
Inductive ProviderOptions : Type :=
| provider_id (id : string)
| provider_record (id : string) (config : Value).

Record Args : Type := {
  criteria : string;
  prompt : option string;
  provider : option ProviderOptions;
}.

Inductive Event (Model : Type) : Type :=
| GetProvider (id : string) (config : Value)
| NewEnvironment (model : Model) (template : string)
| RubricRun (model : Model) (template : string) (vars : gmap string VarValue).
Arguments GetProvider {Model} id config.
Arguments NewEnvironment {Model} model template.
Arguments RubricRun {Model} model template vars.

(** The collaborators: zod schemas and constants of other modules, the
    provider manager, the environment built on the rubric model, and the
    JSON extractor. *)
Record World : Type := {
  Model : Type;
  providerSchema : Value → option ProviderOptions;
  assertionResultSchema : Value → option AssertionResult;
  DEFAULT_LLM_ASSERTION_PROVIDER : string;
  CONSISTENCY_PROMPT : string;
  getProvider : string → Value → Result Model;
  environment_run : Model → string → gmap string VarValue → Generator string TestOutput;
  extractAllJsonObjects : string → list Value;
}.

(** A field of a [z.object]: [undefined] when the key is absent. *)
Definition field (props : list (string * Value)) (key : string) : Value :=
  default VUndefined (assoc key props).

(** [argsSchema.safeParse(args)]: [None] when [success] is false. *)
Definition argsSchema_safeParse (w : World) (args : Value) : option Args :=
  match args with
  | VObj props =>
      match field props "criteria" with
      | VStr criteria =>
          match
            match field props "prompt" with
            | VUndefined => Some None
            | VStr p => Some (Some p)
            | _ => None
            end,
            match field props "provider" with
            | VUndefined => Some None
            | v => Some <$> providerSchema w v
            end
          with
          | Some prompt, Some provider =>
              Some {| criteria := criteria; prompt := prompt; provider := provider |}
          | _, _ => None
          end
      | _ => None
      end
  | _ => None
  end.

Record RowAssertionProvider (w : World) : Type := {
  run : list TestOutput → Eff (Event (Model w)) (list AssertionResult);
}.
Arguments run {w} _ _.

(** [results.map((r) => ...)] of [run]: what each entry contributes. *)
Definition contribution (r : TestOutput) : list OutputPart :=
  match output r with
  | None => []
  | Some (output_string s) => if bool_decide (s = "") then [] else [part_string s]
  | Some (output_parts parts) => parts
  end.

Definition strings (parts : list OutputPart) : list string :=
  omap (λ val, match val with part_string s => Some s | part_blob _ => None end) parts.

(** [strings.join(' ')] *)
Fixpoint join (sep : string) (ss : list string) : string :=
  match ss with
  | [] => ""
  | [s] => s
  | s :: rest => s +:+ sep +:+ join sep rest
  end.

Definition extractOutputAsString (output : option Output) : option string :=
  match output with
  | None => None
  | Some (output_string s) => if bool_decide (s = "") then None else Some s
  | Some (output_parts parts) =>
      match strings parts with
      | [] => None
      | ss => Some (join " " ss)
      end
  end.

(** The character that delimits the quoted rubric output in a message. *)
Definition dquote : string := String (Ascii.ascii_of_nat 34) EmptyString.

(** [while (!next?.done) next = await generator.next()] and [next.value] *)
Fixpoint drain {Y R} (g : Generator Y R) : Result R :=
  match g with
  | gen_yield _ rest => drain rest
  | gen_return r => Ok r
  | gen_throw e => Throw e
  end.

Section Closure.
Variable w : World.
Variables (criteria : string) (testVars : gmap string Value).
Variables (model : Model w) (template : string).

(** [{ output, criteria, ...testVars }] *)
Definition rubricVars (output : list (list OutputPart)) : gmap string VarValue :=
  (var_value <$> testVars)
    ∪ {[ "output" := var_outputs output; "criteria" := var_value (VStr criteria) ]}.

Definition rubricCall (results : list TestOutput) : Generator string TestOutput :=
  environment_run w model template (rubricVars (contribution <$> results)).

(** The [run] method of the returned assertion. *)
Definition run_results (results : list TestOutput)
    : Eff (Event (Model w)) (list AssertionResult) :=
  let output := contribution <$> results in
  (do! emit (RubricRun model template (rubricVars output)) in
   let! result := lift (drain (environment_run w model template (rubricVars output))) in
   let rubricOutput := extractOutputAsString (Types.output result) in
   if negb (truthy rubricOutput) then
     let res := {| pass := false;
                   message := Some ("Rubric did not succeed: "
                                    +:+ default "No error message" (error result)) |} in
     ret (fill (length results) res)
   else
     let rubricOutput := default "" rubricOutput in
     let objs := extractAllJsonObjects w rubricOutput in
     match assertionResultSchema w (default VUndefined (objs !! 0%nat)) with
     | Some validated => ret (fill (length results) validated)
     | None =>
         ret (fill (length results)
                {| pass := false;
                   message := Some ("Invalid rubric output: " +:+ dquote
                                    +:+ rubricOutput +:+ dquote) |})
     end)%eff.
End Closure.

Definition createConsistencyAssertion (w : World) (args : Value)
    (testVars : gmap string Value) : Eff (Event (Model w)) (RowAssertionProvider w) :=
  match argsSchema_safeParse w args with
  | None => throw "Invalid LLM Rubric arguments"
  | Some parsedArgs =>
      let '(id, config) :=
        match provider parsedArgs with
        | Some (provider_id id) => (id, VObj [])
        | Some (provider_record id config) => (id, config)
        | None => (DEFAULT_LLM_ASSERTION_PROVIDER w, VObj [])
        end in
      (do! emit (GetProvider id config) in
       let! model := lift (getProvider w id config) in
       let template := default (CONSISTENCY_PROMPT w) (prompt parsedArgs) in
       do! emit (NewEnvironment model template) in
       ret {| run := run_results w (criteria parsedArgs) testVars model template |})%eff
  end.

End Consistency.

(** ** The run orchestrator *)

Module Actions.
Import Js Types.

Definition Prompt : Type := string.

(** [{ type, vars }] *)
Record AssertionSpec : Type := {
  type : string;
  spec_vars : Value;
}.

Record TestCase : Type := {
  description : option string;
  vars : option (gmap string Value);
  assert : option (list AssertionSpec);
}.

(** [string | { id, prompts? }] *)
Inductive Provider : Type :=
| provider_string (id : string)
| provider_object (id : string) (prompts : option (list Prompt)).

(** The configuration object.  [configValue] is the object itself, as the
    storage loaded it: every property in its place, those that [runTests]
    does not read (the options of a provider, say) as well; [deepEquals]
    walks it.  The other fields are the properties that [runTests] reads of
    it. *)
Record Config : Type := {
  configValue : Value;
  config_description : option string;
  providers : option (list Provider);
  prompts : option (list Prompt);
  tests : option (list TestCase);
  defaultTest : option TestCase;
}.

(** One cell of the matrix: [pass], [assertionResults], and the fields
    copied from the environment's output ([out]; all absent at first). *)
Record TestResult : Type := {
  pass : bool;
  assertionResults : list AssertionResult;
  out : TestOutput;
}.

Record Run : Type := {
  version : Z;
  id : string;
  timestamp : Z;
  run_description : option string;
  envs : list (Provider * Prompt);
  run_tests : list TestCase;
  results : list (list TestResult);
}.

(** Modelled from the spec: a cell assertion as the assertion manager
    (AssertionManager, not among the files at hand) hands it out.  Its [run]
    returns an Assertion Result: evaluation errors are turned into failing
    results inside the assertion. *)
Record Assertion : Type := {
  run : option Output → AssertionResult;
}.

(** How [await env.run(vars)] ends. *)
Inductive Settled : Type :=
| resolved (output : TestOutput)
| rejected (reason : string).

Record Storage : Type := {
  getConfig : Result Config;
}.

(** The collaborators of one call of [runTests].  The calls made for the
    cell of test [t] and environment [e] are told apart by [t] and [e]:
    two runs of one environment need not give the same output.

    The browser: [grantedAtStart] and [grantedAtEnd] are
    [Notification.permission === 'granted'] when the run starts and when it
    ends (the user may answer the request in between; reading the
    permission throws where the page has no [Notification]);
    [requestPermission] is how the call [Notification.requestPermission()]
    returns, whose promise is not awaited; [visibleAtEnd] is
    [document.visibilityState === 'visible'] when the run ends, and
    [newNotification] is how [new Notification(...)] returns.  These leave
    no event in the trace: they can only stop the run. *)
Record World : Type := {
  ModelProvider : Type;
  showPrompt : bool;
  getProvider : string → Result ModelProvider;
  environment_run : nat → nat → ModelProvider → Prompt → gmap string Value → Settled;
  getAssertion : nat → nat → AssertionSpec → gmap string Value → Result Assertion;
  randomUUID : string;
  now : Z;
  grantedAtStart : Result bool;
  requestPermission : Result Datatypes.unit;
  visibleAtEnd : bool;
  grantedAtEnd : Result bool;
  newNotification : Result Datatypes.unit;
}.

Record Environment (w : World) : Type := {
  env_model : ModelProvider w;
  env_prompt : Prompt;
}.
Arguments env_model {w} _.
Arguments env_prompt {w} _.

(** *** Defaults *)

(** [{ ...defaultTest, ...test, vars: {...}, assert: [...] }] *)
Definition mergeTest (defaultTest test : TestCase) : TestCase :=
  {| description := match description test with
                    | Some d => Some d
                    | None => description defaultTest
                    end;
     vars := Some (default ∅ (vars test) ∪ default ∅ (vars defaultTest));
     assert := Some (default [] (assert defaultTest) ++ default [] (assert test)) |}.

Definition globalTests (config : Config) : list TestCase :=
  let globalTests := default [] (tests config) in
  match defaultTest config with
  | Some d => mergeTest d <$> globalTests
  | None => globalTests
  end.

(** *** Events *)

Inductive Event : Type :=
| StorageGetConfig
| ShowPrompt
| ConfigStoreSet
| NewProviderManager
| NewParallelTaskQueue (concurrency : nat)
| GetProvider (id : string)
| NewAssertionManager
| GetAssertion (t e k : nat)
| Enqueue (t e : nat)
| EnvRunSettled (t e : nat)
| AssertionRun (t e k : nat) (input : option Output)
| Completed
| Destroy
| RunStoreUpdate
| SelectedRunIdSet
| AddRun (run : Run).

(** *** The unit of work of one cell *)

(** Where the async function given to [enqueue] stands: before
    [env.run] settled, suspended at [await assertion.run(...)] of the
    assertion numbered [k], or finished. *)
Inductive Unit (w : World) : Type :=
| unit_start (env : Environment w) (vars : gmap string Value) (assertions : list Assertion)
| unit_asserting (output : TestOutput) (k : nat) (assertion : Assertion)
    (rest : list Assertion) (assertionResults : list AssertionResult)
| unit_settled.
Arguments unit_start {w} env vars assertions.
Arguments unit_asserting {w} output k assertion rest assertionResults.
Arguments unit_settled {w}.

(** The [result] object shared by the matrix and the closure, with the
    closure's state. *)
Record Cell (w : World) : Type := {
  result : TestResult;
  unit : Unit w;
}.
Arguments result {w} _.
Arguments unit {w} _.

Definition emptyOutput : TestOutput :=
  {| output := None; error := None; latencyMillis := None; tokenUsage := None |}.

(** [assertionResults.every((r) => r.pass)] *)
Definition every_pass (rs : list AssertionResult) : bool := forallb Types.pass rs.

(** Enter, or go on with, [for (const assertion of assertions)] from the
    assertion numbered [k], with [assertionResults] collected so far. *)
Definition continue {w} (t e : nat) (r : TestResult) (output : TestOutput) (k : nat)
    (todo : list Assertion) (assertionResults : list AssertionResult)
    : Cell w * list Event :=
  match todo with
  | assertion :: rest =>
      ({| result := r;
          unit := unit_asserting output k assertion rest assertionResults |},
       [AssertionRun t e k (Types.output output)])
  | [] =>
      ({| result := {| pass := every_pass assertionResults;
                       assertionResults := assertionResults;
                       out := out r |};
          unit := unit_settled |}, [])
  end.

(** One resumption of the unit of cell [(t, e)]: the code between two
    [await]s. *)
Definition stepCell (w : World) (t e : nat) (c : Cell w) : Cell w * list Event :=
  match unit c with
  | unit_start env vars assertions =>
      match environment_run w t e (env_model env) (env_prompt env) vars with
      | rejected _ =>
          ({| result := result c; unit := unit_settled |}, [EnvRunSettled t e])
      | resolved output =>
          let r := {| pass := pass (result c);
                      assertionResults := assertionResults (result c);
                      out := output |} in
          if truthy (error output) then
            ({| result := {| pass := false;
                             assertionResults := assertionResults r;
                             out := out r |};
                unit := unit_settled |}, [EnvRunSettled t e])
          else
            let '(c', evs) := continue t e r output 0 assertions [] in
            (c', EnvRunSettled t e :: evs)
      end
  | unit_asserting output k assertion rest assertionResults =>
      let r := run assertion (Types.output output) in
      continue t e (result c) output (S k) rest (assertionResults ++ [r])
  | unit_settled => (c, [])
  end.

(** *** The queue

    Modelled from the spec: the Parallel Task Queue (ParallelTaskQueue is not
    among the files at hand).  [enqueue] schedules a unit and returns at
    once; [completed()] resolves only after every enqueued unit has settled;
    a unit that fails cancels nothing; the order in which units complete is
    not constrained.  The loops of [runTests] that enqueue have no [await],
    so no unit is resumed before [completed()] is awaited.  Every
    interleaving of the units' resumptions is allowed here, which covers the
    interleavings a cap on the running units leaves. *)

Abbreviation Matrix w := (list (list (Cell w))).

Definition cellAt {w} (cells : Matrix w) (t e : nat) : option (Cell w) :=
  cells !! t ≫= λ row, row !! e.

(** Modelled from the spec: the unit of cell [(t, e)] is resumed once. *)
Definition resume (w : World) (st : Matrix w * list Event) (te : nat * nat)
    : Matrix w * list Event :=
  let '(cells, trace) := st in
  let '(t, e) := te in
  match cellAt cells t e with
  | Some c =>
      let '(c', evs) := stepCell w t e c in
      (alter (alter (λ _, c') e) t cells, trace ++ evs)
  | None => st
  end.

(** An upper bound on the resumptions a unit still needs. *)
Definition pending {w} (c : Cell w) : nat :=
  match unit c with
  | unit_start _ _ assertions => S (length assertions)
  | unit_asserting _ _ _ rest _ => S (length rest)
  | unit_settled => 0
  end.

(** Modelled from the spec: every unit that has not settled is resumed
    until it has, in enqueue order. *)
Definition rowBacklog {w} (t : nat) (row : list (Cell w)) : list (nat * nat) :=
  mjoin (imap (λ e c, replicate (pending c) (t, e)) row).

Definition backlog {w} (cells : Matrix w) : list (nat * nat) :=
  mjoin (imap rowBacklog cells).

(** Modelled from the spec: [await runner.completed()].  The units are
    resumed in the order [schedule] gives (a pair that names no cell, or a
    settled one, resumes nothing), and whatever is still pending after it
    runs to its end. *)
Definition completed (w : World) (schedule : list (nat * nat)) (cells : Matrix w)
    : Matrix w * list Event :=
  let st := foldl (resume w) (cells, []) schedule in
  foldl (resume w) st (backlog (fst st)).

(** *** [runTests] *)

Definition providerId (provider : Provider) : string :=
  match provider with
  | provider_string id | provider_object id _ => id
  end.

Definition addProvider (w : World) (globalPrompts : list Prompt)
    (acc : list (Environment w) * list (Provider * Prompt)) (provider : Provider)
    : Eff Event (list (Environment w) * list (Provider * Prompt)) :=
  (do! emit (GetProvider (providerId provider)) in
   let! model := lift (getProvider w (providerId provider)) in
   let prompts := match provider with
                  | provider_object _ (Some prompts) => prompts
                  | _ => globalPrompts
                  end in
   forEach (λ '(envs, runEnvs) prompt,
              ret (envs ++ [ {| env_model := model; env_prompt := prompt |} ],
                   runEnvs ++ [ (provider, prompt) ]))
           prompts acc)%eff.

Definition enqueueCell (w : World) (t : nat) (test : TestCase)
    (testResults : list (Cell w)) (env : Environment w) : Eff Event (list (Cell w)) :=
  let e := length testResults in
  let vars := default ∅ (vars test) in
  (let! assertions :=
     forEach (λ acc a,
                do! emit (GetAssertion t e (length acc)) in
                let! assertion := lift (getAssertion w t e a vars) in
                ret (acc ++ [assertion]))
             (default [] (assert test)) [] in
   do! emit (Enqueue t e) in
   ret (testResults ++
          [ {| result := {| pass := false; assertionResults := []; out := emptyOutput |};
               unit := unit_start env vars assertions |} ]))%eff.

Definition enqueueTest (w : World) (envs : list (Environment w))
    (cells : Matrix w) (test : TestCase) : Eff Event (Matrix w) :=
  (let! testResults := forEach (enqueueCell w (length cells) test) envs [] in
   ret (cells ++ [testResults]))%eff.

(** [if (Notification.permission !== 'granted') Notification.requestPermission()] *)
Definition askPermission (w : World) : Eff Event Datatypes.unit :=
  (let! granted := lift (grantedAtStart w) in
   if negb granted then lift (requestPermission w) else ret tt)%eff.

(** [if (document.visibilityState !== 'visible' && Notification.permission === 'granted')
      new Notification(...)] *)
Definition notifyCompletion (w : World) : Eff Event Datatypes.unit :=
  if negb (visibleAtEnd w) then
    (let! granted := lift (grantedAtEnd w) in
     if granted then lift (newNotification w) else ret tt)%eff
  else ret tt.

Definition runTests (w : World) (configStore : option Config)
    (storageStore : option Storage) (schedule : list (nat * nat)) : Eff Event Run :=
  match configStore with
  | None => throw "Cannot call runTests without a config"
  | Some config =>
  match storageStore with
  | None => throw "Cannot call runTests without a storage"
  | Some storage =>
    (do! emit StorageGetConfig in
     let! latestConfig := lift (getConfig storage) in
     let! same := lift (deepEquals (configValue config) (configValue latestConfig)) in
     let! config :=
       (if same then ret config
        else do! emit ShowPrompt in
             if showPrompt w then do! emit ConfigStoreSet in ret latestConfig
             else ret config) in
     do! emit NewProviderManager in
     do! emit (NewParallelTaskQueue 5) in
     let globalPrompts := default [] (prompts config) in
     let globalProviders := default [] (providers config) in
     let globalTests := globalTests config in
     let! '(envs, runEnvs) := forEach (addProvider w globalPrompts) globalProviders ([], []) in
     do! askPermission w in
     do! emit NewAssertionManager in
     let! cells := forEach (enqueueTest w envs) globalTests [] in
     let '(cells, unitEvents) := completed w schedule cells in
     let results : list (list TestResult) := (λ row : list (Cell w), result <$> row) <$> cells in
     do! (unitEvents, Ok tt) in
     do! emit Completed in
     do! emit Destroy in
     let run := {| version := 1; id := randomUUID w; timestamp := now w;
                   run_description := config_description config;
                   envs := runEnvs; run_tests := globalTests;
                   results := results |} in
     do! emit RunStoreUpdate in
     do! emit SelectedRunIdSet in
     do! emit (AddRun run) in
     do! notifyCompletion w in
     ret run)%eff
  end
  end.

End Actions.


(** ** A row assertion in the unit of work of a cell *)

Module RowCall.
Import Js Types Consistency.

(** What [results.map] makes of an element that is no Test Output but a
    part of an output: a string and a blob have no [output], so the part
    counts as a result without output. *)
Definition partAsResult (part : OutputPart) : TestOutput :=
  {| output := None; error := None; latencyMillis := None; tokenUsage := None |}.

(** [await assertion.run(output.output!)] of the unit of work, when
    [assertion] is the row assertion that [createConsistencyAssertion]
    returns.  Its parameter [results] is then the output of one cell:
    [undefined] and a string have no method [map], and a list of parts is
    mapped part by part. *)
Definition runOnOutput {w : World} (assertion : RowAssertionProvider w)
    (argument : option Output) : Eff (Event (Model w)) (list AssertionResult) :=
  match argument with
  | None => throw "TypeError: Cannot read properties of undefined (reading 'map')"
  | Some (output_string _) => throw "TypeError: results.map is not a function"
  | Some (output_parts parts) => run assertion (partAsResult <$> parts)
  end.

End RowCall.
(** ** The state actions: choosing a folder and loading its state *)

Module Loading.
Import Actions.

(** A [FileSystemStorage] object.  The code tells storages apart with [!==];
    [ref] is the identity of the object.  [reads] is how
    [Promise.all([storage.getConfig(), storage.getAllRuns()])] settles in the
    call at hand. *)
Record FileSystemStorage : Type := {
  ref : nat;
  reads : Result (Config * list Run);
}.

(** The four stores the actions read and write. *)
Record Stores : Type := {
  storageStore : option FileSystemStorage;
  configStore : option Config;
  runStore : gmap string Run;
  selectedRunIdStore : option string;
}.

(** [a !== b] on what [get(storageStore)] returns. *)
Definition sameStorage (a b : option FileSystemStorage) : bool :=
  bool_decide (ref <$> a = ref <$> b).

(** [Object.fromEntries(entries)]: an entry replaces an earlier one with the
    same key. *)
Definition fromEntries {A} (entries : list (string * A)) : gmap string A :=
  foldl (λ obj entry, <[entry.1 := entry.2]> obj) ∅ entries.

(** [loadStateFromStorage()].  [during] is what other code did to the stores
    while the two reads were pending; the pair returned is the stores after
    the call and how the call ended. *)
Definition loadStateFromStorage (during : Stores → Stores) (stores : Stores)
    : Stores * Result Datatypes.unit :=
  match storageStore stores with
  | None => (stores, Ok tt)
  | Some storage =>
      let stores := during stores in
      match reads storage with
      | Throw e => (stores, Throw e)
      | Ok (config, runs) =>
          if negb (sameStorage (storageStore stores) (Some storage)) then (stores, Ok tt)
          else
            ({| storageStore := storageStore stores;
                configStore := Some config;
                runStore := fromEntries ((λ run, (id run, run)) <$> runs);
                selectedRunIdStore := id <$> last runs |}, Ok tt)
      end
  end.

(** [chooseFolder()].  [picked] is how [window.showDirectoryPicker(...)]
    settles, with the storage built on the directory; [picking] is what
    other code did to the stores while the picker was open. *)
Definition chooseFolder (picked : Result FileSystemStorage)
    (picking during : Stores → Stores) (stores : Stores) : Stores * Result Datatypes.unit :=
  let stores := picking stores in
  match picked with
  | Throw err => (stores, Ok tt)
  | Ok storage =>
      loadStateFromStorage during
        {| storageStore := Some storage;
           configStore := configStore stores;
           runStore := runStore stores;
           selectedRunIdStore := selectedRunIdStore stores |}
  end.

End Loading.

(** ** The openai-responses provider: the request given to the retry loop *)

Module OpenAiFetch.
Import Js.

(** What the callback rejects with: an [HttpError], which carries the status
    of the response, or any other error. *)
Inductive Failure : Type :=
| HttpError (message : string) (status : Z)
| OtherError (message : string).

(** The response of [fetch] as far as the callback reads it; [json] is how
    [resp.json()] settles. *)
Record FetchResponse : Type := {
  ok : bool;
  status : Z;
  statusText : string;
  json : Result Value;
}.

(** [requestErrorSchema.parse(json)]: the message and the optional type of
    the error, [None] when the schema throws. *)
Definition requestErrorSchema_parse (json : Value) : option (string * option string) :=
  match json with
  | VObj _ =>
      match get json "error" with
      | VObj _ as error =>
          match get error "message", get error "type" with
          | VStr message, VUndefined => Some (message, None)
          | VStr message, VStr type => Some (message, Some type)
          | _, _ => None
          end
      | _ => None
      end
  | _ => None
  end.

(** The async function given to [exponentialBackoff]: one [fetch], and the
    [try]/[catch] that turns a response that is not [ok] into an
    [HttpError]. *)
Definition attempt (fetched : Result FetchResponse) : Failure + FetchResponse :=
  match fetched with
  | Throw e => inl (OtherError e)
  | Ok resp =>
      if negb (ok resp) then
        match json resp with
        | Throw _ => inl (HttpError ("Failed to run model: " +:+ statusText resp) (status resp))
        | Ok json =>
            match requestErrorSchema_parse json with
            | None =>
                inl (HttpError ("Failed to run model: " +:+ statusText resp) (status resp))
            | Some (message, type) =>
                inl (HttpError ("Failed to run model: " +:+ default "OpenAI error" type
                                +:+ ": " +:+ message) (status resp))
            end
        end
      else inr resp
  end.

End OpenAiFetch.

(** ** The cell of the results table *)

Module TestResultView.
Import Js Types Actions.

(** [testResult.assertionResults.filter((assertion) => !assertion.pass &&
    assertion.message)[0]?.message ?? null] *)
Definition firstFailedAssertionMessage (testResult : TestResult) : option string :=
  head (filter (λ assertion, Types.pass assertion = false
                             ∧ truthy (message assertion) = true)
               (assertionResults testResult))
    ≫= message.

(** The badge of the cell: PASS, or FAIL followed by the value of
    [firstFailedAssertionMessage ? ' - ' + firstFailedAssertionMessage : '']. *)
Inductive Badge : Type :=
| PASS
| FAIL (detail : string).

Definition badge (testResult : TestResult) : Badge :=
  if pass testResult then PASS
  else FAIL (if truthy (firstFailedAssertionMessage testResult)
             then " - " +:+ default "" (firstFailedAssertionMessage testResult)
             else "").

(** [testResult.error ?? testResult.output ?? '--no output--'] *)
Inductive Shown : Type :=
| shown_error (error : string)
| shown_output (output : Output)
| shown_placeholder.

Definition shown (testResult : TestResult) : Shown :=
  match error (out testResult) with
  | Some e => shown_error e
  | None =>
      match output (out testResult) with
      | Some o => shown_output o
      | None => shown_placeholder
      end
  end.

End TestResultView.

(** ** The settings dialog *)

Module Settings.

(** A JavaScript object whose keys are names of environment variables, as
    its properties in the order in which they were created. *)
Abbreviation Object A := (list (string * A)).

(** The digit that a character is. *)
Definition digit (c : Ascii.ascii) : option N :=
  let n := Ascii.N_of_ascii c in
  if ((48 <=? n) && (n <=? 57))%N then Some (n - 48)%N else None.

Fixpoint digits (acc : N) (s : string) : option N :=
  match s with
  | EmptyString => Some acc
  | String c rest =>
      match digit c with
      | Some d => digits (acc * 10 + d)%N rest
      | None => None
      end
  end.

(** The array index that a key is, if it is one: the key is the decimal
    numeral, without a leading zero, of a number below 2^32 - 1. *)
Definition arrayIndex (key : string) : option N :=
  match key with
  | EmptyString => None
  | String c rest =>
      if bool_decide (c = Ascii.ascii_of_nat 48) && negb (bool_decide (rest = "")) then None
      else match digits 0 key with
           | Some n => if (n <? 4294967295)%N then Some n else None
           | None => None
           end
  end.


(** The order of two properties whose keys are array indices. *)
Definition indexLe {A} (p q : string * A) : Prop :=
  (default 0 (arrayIndex p.1) ≤ default 0 (arrayIndex q.1))%N.

#[global] Instance indexLe_dec {A} (p q : string * A) : Decision (indexLe p q).
Proof. unfold indexLe. apply _. Defined.









End Settings.


(** * Properties *)

(** ** Vocabulary of the statements and sample inputs *)

Module ProviderSpec.
Import OpenAiResponses.

(** The payload of the last [response.completed] event of a stream. *)
Definition completedPayload (value : SsePayload) : option Response :=
  match value with Completed r => Some r | _ => None end.

Definition lastCompleted (events : list SsePayload) : option Response :=
  last (omap completedPayload events).

(** The events on which the loop throws. *)
Definition faulty (value : SsePayload) : bool :=
  match value with
  | Unparseable | Invalid _ | ResponseError _ | ResponseFailed _ _ => true
  | _ => false
  end.

Definition sampleResponse : Response :=
  {| id := "resp_1"; output_text := Some "final text";
     usage := Some {| input_tokens := Some 2%Z; output_tokens := Some 3%Z;
                      total_tokens := Some 5%Z |};
     output := Some []; extra := [] |}.

(** Deltas that spell something else than the completed payload says. *)
Definition sampleStream : list SsePayload :=
  [OutputTextDelta (Some "par"); Unrecognized; OutputTextDelta None;
   RefusalDelta (Some "tial"); Completed sampleResponse].

Definition truncatedStream : list SsePayload :=
  [OutputTextDelta (Some "par"); OutputTextDelta (Some "tial")].

Definition msg (r : Role) (text : string) : ResponseMessage :=
  {| role := r; content := text_content text; type := Some message |}.

Definition sampleSession : list ResponseMessage :=
  [msg system "be brief"; msg user "hello"; msg assistant "hi"].

Definition noFiles (file : Empty_set) : Result string :=
  match file with end.

Definition sampleConversation : list (Turn (File:=Empty_set)) :=
  [ {| turn_role := system; turn_content := [text_part "be verbose"] |};
    {| turn_role := user; turn_content := [text_part "and now?"] |} ].

(** The responses of the provider's unit tests. *)
Definition withOutputText : Response :=
  {| id := "1"; output_text := Some "hello";
     usage := Some {| input_tokens := None; output_tokens := None; total_tokens := None |};
     output := Some []; extra := [] |}.

Definition withContentArray : Response :=
  {| id := "2"; output_text := None; usage := None;
     output := Some [ {| item_type := "message"; item_role := None;
                         item_content := Some [ {| content_type := "output_text";
                                                   content_text := Some "from content" |} ] |} ];
     extra := [] |}.

Definition withUsage : Response :=
  {| id := "3"; output_text := Some "";
     usage := Some {| input_tokens := Some 2%Z; output_tokens := Some 3%Z;
                      total_tokens := Some 5%Z |};
     output := None; extra := [] |}.

Definition withoutUsage : Response :=
  {| id := "4"; output_text := Some ""; usage := None; output := None; extra := [] |}.

End ProviderSpec.

Module JsSpec.
Import Js.

(** Structural equality of plain data: equal scalars, sequences of equal
    length with equal elements in order, maps with the same keys and equal
    values. *)
Inductive structurallyEqual : Value → Value → Prop :=
| equal_undefined : structurallyEqual VUndefined VUndefined
| equal_null : structurallyEqual VNull VNull
| equal_bool b : structurallyEqual (VBool b) (VBool b)
| equal_num n : structurallyEqual (VNum n) (VNum n)
| equal_str s : structurallyEqual (VStr s) (VStr s)
| equal_arr xs ys :
    Forall2 structurallyEqual xs ys →
    structurallyEqual (VArr xs) (VArr ys)
| equal_obj ps qs :
    (∀ key, key ∈ ps.*1 ↔ key ∈ qs.*1) →
    (∀ key x, assoc key ps = Some x → ∃ y, assoc key qs = Some y ∧ structurallyEqual x y) →
    structurallyEqual (VObj ps) (VObj qs).

(** Plain configuration data: no [undefined], no [NaN], maps with distinct
    keys. *)
Inductive plain : Value → Prop :=
| plain_null : plain VNull
| plain_bool b : plain (VBool b)
| plain_num (z : Z) : plain (VNum z)
| plain_str s : plain (VStr s)
| plain_arr xs : Forall plain xs → plain (VArr xs)
| plain_obj ps : NoDup ps.*1 → Forall (λ p, plain p.2) ps → plain (VObj ps).

(** What the specification states about [deepEquals], at [a] and [b]. *)
Definition deepEquals_decides_equality (a b : Value) : Prop :=
  (deepEquals a b = Ok true ↔ structurallyEqual a b)
  ∧ (deepEquals a b = Ok false ↔ ¬ structurallyEqual a b).

End JsSpec.

Module ConsistencySpec.
Import Js Types Consistency.

(** Modelled from the spec: the schema of an Assertion Result, which is
    declared in $lib/types, outside the files at hand.  The specification
    gives an Assertion Result a boolean [pass] and an optional
    human-readable [message]. *)
Definition specAssertionResultSchema (v : Value) : option AssertionResult :=
  match v with
  | VObj props =>
      match field props "pass", field props "message" with
      | VBool b, VUndefined => Some {| pass := b; message := None |}
      | VBool b, VStr m => Some {| pass := b; message := Some m |}
      | _, _ => None
      end
  | _ => None
  end.

(** Modelled from the spec: the provider schema of $lib/types, an
    identifier string or a record with an [id] and provider options. *)
Definition specProviderSchema (v : Value) : option ProviderOptions :=
  match v with
  | VStr id => Some (provider_id id)
  | VObj props =>
      match field props "id" with
      | VStr id => Some (provider_record id (field props "config"))
      | _ => None
      end
  | _ => None
  end.

(** A world whose rubric model answers every call with [rubric], and whose
    JSON extractor finds one object, not an Assertion Result, in the text
    "verdict" and none anywhere else. *)
Definition rubricWorld (rubric : Generator string TestOutput) : World :=
  {| Model := string;
     providerSchema := specProviderSchema;
     assertionResultSchema := specAssertionResultSchema;
     DEFAULT_LLM_ASSERTION_PROVIDER := "default-provider";
     CONSISTENCY_PROMPT := "Are these outputs consistent?";
     getProvider := λ id _, Ok id;
     environment_run := λ _ _ _, rubric;
     extractAllJsonObjects := λ text,
       if bool_decide (text = "verdict") then [VObj [("pass", VStr "yes")]] else [] |}.

Definition textOutput (s : string) : TestOutput :=
  {| output := Some (output_string s); error := None;
     latencyMillis := None; tokenUsage := None |}.

Definition partsOutput (parts : list OutputPart) : TestOutput :=
  {| output := Some (output_parts parts); error := None;
     latencyMillis := None; tokenUsage := None |}.

Definition failedOutput (e : string) : TestOutput :=
  {| output := None; error := Some e; latencyMillis := None; tokenUsage := None |}.

Definition noOutput : TestOutput :=
  {| output := None; error := None; latencyMillis := None; tokenUsage := None |}.

(** A rubric run that streams two fragments and ends without output. *)
Definition silentRubric : Generator string TestOutput :=
  gen_yield "thin" (gen_yield "king" (gen_return (failedOutput "HTTP 500"))).

(** A rubric run whose text holds no Assertion Result. *)
Definition ramblingRubric : Generator string TestOutput :=
  gen_yield "ver" (gen_return (textOutput "verdict")).

Definition sampleResults : list TestOutput :=
  [textOutput "same"; noOutput; partsOutput [part_string "sa"; part_string "me"]].

(** What the specification states about plain-string outputs, at one
    entry: it is wrapped into a one-element list. *)
Definition wraps_plain_string (r : TestOutput) : Prop :=
  ∀ s, output r = Some (output_string s) → contribution r = [part_string s].

(** The rubric output is of no use: no text can be extracted from it, or
    the first JSON object found in the text (if any) is no Assertion
    Result. *)
Definition unusable (w : World) (result : TestOutput) : Prop :=
  truthy (extractOutputAsString (output result)) = false
  ∨ ∃ text, extractOutputAsString (output result) = Some text
            ∧ assertionResultSchema w
                (default VUndefined (extractAllJsonObjects w text !! 0)) = None.

Definition sampleArgs : Value :=
  VObj [("criteria", VStr "identical wording")].

(** An entry is failed with a diagnostic. *)
Definition failed_with_diagnostic (r : AssertionResult) : Prop :=
  pass r = false ∧ ∃ m, message r = Some m ∧ m ≠ "".

End ConsistencySpec.

Module ActionsSpec.
Import Js Types Actions.

(** *** Vocabulary *)

(** The cell an event of a unit of work belongs to. *)
Definition unitOf (ev : Event) : option (nat * nat) :=
  match ev with
  | EnvRunSettled t e | AssertionRun t e _ _ => Some (t, e)
  | _ => None
  end.

(** The events of the unit of cell [(t, e)] in a trace, in order. *)
Definition unitTrace (t e : nat) (trace : list Event) : list Event :=
  filter (λ ev, unitOf ev = Some (t, e)) trace.



(** [n] resumptions of one unit. *)
Fixpoint steps (w : World) (t e : nat) (n : nat) (c : Cell w) : Cell w * list Event :=
  match n with
  | 0 => (c, [])
  | S n' =>
      let '(c1, evs1) := stepCell w t e c in
      let '(c2, evs2) := steps w t e n' c1 in
      (c2, evs1 ++ evs2)
  end.

(** How often a schedule names a cell. *)
Definition times (te : nat * nat) (schedule : list (nat * nat)) : nat :=
  length (filter (λ x, x = te) schedule).

Definition initialResult : TestResult :=
  {| pass := false; assertionResults := []; out := emptyOutput |}.

(** The result and the events of a unit that ran from its start to its
    end. *)
Definition settledUnit (w : World) (t e : nat) (env : Environment w)
    (vars : gmap string Value) (assertions : list Assertion) : TestResult * list Event :=
  match environment_run w t e (env_model env) (env_prompt env) vars with
  | rejected _ => (initialResult, [EnvRunSettled t e])
  | resolved o =>
      if truthy (error o) then
        ({| pass := false; assertionResults := []; out := o |}, [EnvRunSettled t e])
      else
        let rs := (λ a, run a (output o)) <$> assertions in
        ({| pass := every_pass rs; assertionResults := rs; out := o |},
         EnvRunSettled t e :: imap (λ k _, AssertionRun t e k (output o)) assertions)
  end.

(** The events with which a run that went through ends. *)
Definition epilogue (run : Run) : list Event :=
  [Completed; Destroy; RunStoreUpdate; SelectedRunIdSet; AddRun run].

(** Assertion [k] of test [t] is invoked by the event. *)
Definition invokes (t k : nat) (ev : Event) : Prop :=
  match ev with
  | AssertionRun t' _ k' _ => t' = t ∧ k' = k
  | _ => False
  end.

#[global] Instance invokes_dec t k ev : Decision (invokes t k ev).
Proof. destruct ev; simpl; apply _. Defined.

(** The assertion type that [createConsistencyAssertion] serves: a row
    assertion. *)
Definition rowAssertion (spec : AssertionSpec) : Prop := type spec = "consistency".

(** What the specification states about row assertions, on the trace of a
    run: every row assertion of every test is invoked exactly once, and that
    after [completed()] resolved.  (That the argument is the vector of the
    row's cells is left out: the statement here is weaker than the
    specification's.) *)
Definition invoked_once_after_completed (run : Run) (trace : list Event) : Prop :=
  ∀ t test k spec,
    run_tests run !! t = Some test →
    default [] (assert test) !! k = Some spec →
    rowAssertion spec →
    ∃ before after,
      trace = before ++ Completed :: after
      ∧ filter (invokes t k) before = []
      ∧ length (filter (invokes t k) after) = 1.

(** *** Sample run: two providers, one prompt, one test with one
    assertion *)

Definition sampleOutput (s : string) : TestOutput :=
  {| output := Some (output_string s); error := None;
     latencyMillis := Some 12%Z; tokenUsage := None |}.

Definition sampleFailure (e : string) : TestOutput :=
  {| output := None; error := Some e; latencyMillis := None; tokenUsage := None |}.

(** A cell assertion that passes exactly the outputs that read "same". *)
Definition sampleAssertion : Assertion :=
  {| run := λ o, match o with
                 | Some (output_string "same") => {| Types.pass := true; message := None |}
                 | _ => {| Types.pass := false; message := Some "differs" |}
                 end |}.

(** Provider "broken" fails with an error; the others answer "same".  The
    page is visible and may show notifications. *)
Definition sampleWorld : World :=
  {| ModelProvider := string;
     showPrompt := true;
     getProvider := λ id, Ok id;
     environment_run := λ t e model prompt vars,
       if bool_decide (model = "broken") then resolved (sampleFailure "HTTP 401")
       else resolved (sampleOutput "same");
     getAssertion := λ t e spec vars, Ok sampleAssertion;
     randomUUID := "2f1c";
     now := 1700000000000%Z;
     grantedAtStart := Ok true;
     requestPermission := Ok tt;
     visibleAtEnd := true;
     grantedAtEnd := Ok true;
     newNotification := Ok tt |}.

Definition equalsAssertion : AssertionSpec :=
  {| type := "equals"; spec_vars := VObj [("value", VStr "same")] |}.

Definition sampleTest : TestCase :=
  {| description := None;
     vars := Some {[ "topic" := VStr "San Francisco" ]};
     assert := Some [equalsAssertion] |}.

Definition sampleDefault : TestCase :=
  {| description := Some "defaults";
     vars := Some {[ "topic" := VStr "anywhere"; "tone" := VStr "dry" ]};
     assert := Some [ {| type := "contains"; spec_vars := VObj [("needle", VStr "fog")] |} ] |}.

(** *** Configurations written out

    The object of a configuration file that holds the properties given and
    no others, in the order description, providers, prompts, tests,
    defaultTest, with the variables of a test in the order in which the map
    lists them. *)

Definition optional {A} (key : string) (f : A → Value) (x : option A)
    : list (string * Value) :=
  match x with Some a => [(key, f a)] | None => [] end.

Definition specValue (a : AssertionSpec) : Value :=
  VObj [("type", VStr (type a)); ("vars", spec_vars a)].

Definition testValue (t : TestCase) : Value :=
  VObj (optional "description" VStr (description t)
        ++ optional "vars" (λ m : gmap string Value, VObj (map_to_list m)) (vars t)
        ++ optional "assert" (λ l, VArr (specValue <$> l)) (assert t)).

Definition promptsValue (ps : list Prompt) : Value := VArr (VStr <$> ps).

Definition providerValue (p : Provider) : Value :=
  match p with
  | provider_string id => VStr id
  | provider_object id ps => VObj (("id", VStr id) :: optional "prompts" promptsValue ps)
  end.

(** The configuration that such a file loads to. *)
Definition written (d : option string) (ps : option (list Provider))
    (gs : option (list Prompt)) (ts : option (list TestCase)) (dt : option TestCase)
    : Config :=
  {| configValue :=
       VObj (optional "description" VStr d
             ++ optional "providers" (λ l, VArr (providerValue <$> l)) ps
             ++ optional "prompts" promptsValue gs
             ++ optional "tests" (λ l, VArr (testValue <$> l)) ts
             ++ optional "defaultTest" testValue dt);
     config_description := d;
     providers := ps;
     prompts := gs;
     tests := ts;
     defaultTest := dt |}.

Definition sampleConfig : Config :=
  written (Some "cell assertions")
    (Some [provider_string "gemini"; provider_object "openai" None])
    (Some ["Write a haiku about {{topic}}."])
    (Some [sampleTest]) None.

Definition brokenConfig : Config :=
  written None
    (Some [provider_string "gemini"; provider_string "broken"])
    (Some ["Write a haiku about {{topic}}."])
    (Some [sampleTest]) (Some sampleDefault).

(** *** A test with a row assertion, run where no environment gives an
    output *)

Definition consistencyAssertion : AssertionSpec :=
  {| type := "consistency";
     spec_vars := VObj [("criteria", VStr "all haikus have the same exact wording")] |}.

Definition rowTest : TestCase :=
  {| description := None;
     vars := Some {[ "topic" := VStr "San Francisco" ]};
     assert := Some [consistencyAssertion] |}.

Definition rowConfig : Config :=
  written (Some "row assertions")
    (Some [provider_string "gemini"; provider_string "openai"])
    (Some ["Write a haiku about {{topic}}."])
    (Some [rowTest]) None.

(** What the assertion manager hands out in [offlineWorld]; no unit of
    work comes to run it there. *)
Definition unused : Assertion :=
  {| run := λ _, {| Types.pass := false; message := None |} |}.

(** Every environment run ends with an error, so no assertion is run. *)
Definition offlineWorld : World :=
  {| ModelProvider := string;
     showPrompt := true;
     getProvider := λ id, Ok id;
     environment_run := λ t e model prompt vars, resolved (sampleFailure "Failed to fetch");
     getAssertion := λ t e spec vars, Ok unused;
     randomUUID := "91c4";
     now := 1700000000002%Z;
     grantedAtStart := Ok true;
     requestPermission := Ok tt;
     visibleAtEnd := true;
     grantedAtEnd := Ok true;
     newNotification := Ok tt |}.

Definition storageOf (c : Config) : Storage := {| getConfig := Ok c |}.

End ActionsSpec.

Module RunInvariants.
Import Js Types Actions ActionsSpec.

(** The events that precede the units of work. *)
Definition preludeEvent (ev : Event) : Prop :=
  match ev with
  | StorageGetConfig | ShowPrompt | ConfigStoreSet
  | NewProviderManager | NewParallelTaskQueue _ | NewAssertionManager
  | GetProvider _ | GetAssertion _ _ _ | Enqueue _ _ => True
  | _ => False
  end.

(** [envs] and [runEnvs] go together: the environment at an index was
    built from the prompt recorded at that index and from the model the
    provider manager returned for the provider recorded there. *)
Definition paired (w : World) (envs : list (Environment w))
    (runEnvs : list (Provider * Prompt)) : Prop :=
  Forall2 (λ env pr, env_prompt env = pr.2
                     ∧ getProvider w (providerId pr.1) = Ok (env_model env))
          envs runEnvs.

(** A row of the matrix as the loop over the environments leaves it. *)
Definition rowEnqueued (w : World) (test : TestCase) (envs : list (Environment w))
    (row : list (Cell w)) : Prop :=
  length row = length envs
  ∧ ∀ e c, row !! e = Some c →
      ∃ env assertions,
        envs !! e = Some env
        ∧ c = {| result := initialResult;
                 unit := unit_start env (default ∅ (vars test)) assertions |}
        ∧ length assertions = length (default [] (assert test)).

Definition matrixEnqueued (w : World) (tests : list TestCase)
    (envs : list (Environment w)) (cells : Matrix w) : Prop :=
  length cells = length tests
  ∧ ∀ t row, cells !! t = Some row →
      ∃ test, tests !! t = Some test ∧ rowEnqueued w test envs row.

End RunInvariants.

Module SampleRuns.
Import Js Types Actions ActionsSpec.

(** The sample run, with the units resumed in enqueue order. *)
Definition sampleRun : Eff Event Run :=
  runTests sampleWorld (Some sampleConfig) (Some (storageOf sampleConfig)) [].

(** A run over a provider that fails, with defaults merged into the test
    and the units resumed in another order. *)
Definition brokenRun : Eff Event Run :=
  runTests sampleWorld (Some brokenConfig) (Some (storageOf brokenConfig))
    [(0, 1); (0, 0); (0, 1); (0, 0)].

(** Two configurations that differ in one variable of their test: an empty
    sequence in the one in the store, an empty map in the one on disk. *)
Definition itemsTest (items : Value) : TestCase :=
  {| description := None; vars := Some {[ "items" := items ]}; assert := None |}.

Definition itemsConfig (items : Value) : Config :=
  written None (Some [provider_string "gemini"]) (Some ["List {{items}}."])
    (Some [itemsTest items]) None.

Definition staleRun : Eff Event Run :=
  runTests sampleWorld (Some (itemsConfig (VArr []))) (Some (storageOf (itemsConfig (VObj [])))) [].

Definition isShowPrompt (ev : Event) : bool :=
  match ev with ShowPrompt => true | _ => false end.

Definition noRun : Run :=
  {| version := 0; id := ""; timestamp := 0; run_description := None;
     envs := []; run_tests := []; results := [] |}.

Definition returned (r : Result Run) : Run :=
  match r with Ok run => run | Throw _ => noRun end.

(** Their traces and the runs they return, evaluated. *)
Definition sampleTrace : list Event := Eval vm_compute in sampleRun.1.
Definition sampleReturned : Run := Eval vm_compute in returned sampleRun.2.
Definition brokenTrace : list Event := Eval vm_compute in brokenRun.1.
Definition brokenReturned : Run := Eval vm_compute in returned brokenRun.2.

(** The run of the test with a row assertion. *)
Definition rowRun : Eff Event Run :=
  runTests offlineWorld (Some rowConfig) (Some (storageOf rowConfig)) [(0, 1)].

Definition rowTrace : list Event := Eval vm_compute in rowRun.1.
Definition rowReturned : Run := Eval vm_compute in returned rowRun.2.


End SampleRuns.

(** ** Vocabulary and sample inputs of the further properties *)

Module JsShape.
Import Js.

(** The own enumerable properties of a sequence or a map, which is all that
    [Object.keys] and indexing see of it: a sequence has its indices as
    keys. *)
Definition entries (v : Value) : option (list (string * Value)) :=
  match v with
  | VArr items => Some (indexed items)
  | VObj props => Some props
  | _ => None
  end.

(** Two values are alike when they are the same scalar, or when both have
    properties, with the same keys and alike values under every key.  A
    sequence and the map of its indices are alike. *)
Inductive alike : Value → Value → Prop :=
| alike_scalar a : entries a = None → alike a a
| alike_entries a b ps qs :
    entries a = Some ps →
    entries b = Some qs →
    (∀ key, key ∈ ps.*1 ↔ key ∈ qs.*1) →
    (∀ key x, assoc key ps = Some x → ∃ y, assoc key qs = Some y ∧ alike x y) →
    alike a b.

(** No [null] stands anywhere in the value. *)
Fixpoint nullFree (v : Value) : bool :=
  match v with
  | VNull => false
  | VArr items => forallb nullFree items
  | VObj props => forallb (λ p, nullFree p.2) props
  | _ => true
  end.

Definition typeError : string := "TypeError: Cannot convert undefined or null to object".

End JsShape.

Module StreamSpec.
Import OpenAiResponses ProviderSpec.

(** The text fragment that an event of the stream makes the generator
    yield: the delta of a text or refusal delta, [''] when it is nullish. *)
Definition deltaOf (value : SsePayload) : option string :=
  match value with
  | OutputTextDelta delta | RefusalDelta delta => Some (default "" delta)
  | _ => None
  end.

(** The events before the first one on which the loop throws. *)
Fixpoint untilFault (events : list SsePayload) : list SsePayload :=
  match events with
  | [] => []
  | value :: rest => if faulty value then [] else value :: untilFault rest
  end.

(** The fragments put together, in order. *)
Definition concat (fragments : list string) : string :=
  foldr String.append "" fragments.

Definition systemFree (messages : list ResponseMessage) : Prop :=
  Forall (λ m, role m ≠ system) messages.

(** The assistant message that a run appends to the session. *)
Definition reply (text : string) : ResponseMessage :=
  {| role := assistant; content := text_content text; type := Some message |}.

(** A part of an output item that [extractOutput] can return: an
    [output_text] part whose [text] is a string. *)
Definition hasText (c : OutputContent) : Prop :=
  content_type c = "output_text" ∧ is_Some (content_text c).

(** An output item in which [extractOutput] finds a text. *)
Definition carriesText (item : OutputItem) : Prop :=
  item_type item = "message"
  ∧ ∃ contents, item_content item = Some contents ∧ Exists hasText contents.

#[global] Instance carriesText_dec item : Decision (carriesText item).
Proof.
  unfold carriesText. destruct (item_content item) as [contents|].
  - destruct (decide (item_type item = "message" ∧ Exists hasText contents)) as [[]|Hno].
    + left. eauto.
    + right. intros (? & ? & [= <-] & ?). by apply Hno.
  - right. by intros (? & ? & ? & ?).
Defined.

(** A response whose text stands in the second part of its second output
    item. *)
Definition reasoningItem : OutputItem :=
  {| item_type := "reasoning"; item_role := None; item_content := None |}.

Definition refusalPart : OutputContent :=
  {| content_type := "refusal"; content_text := None |}.

Definition textPart : OutputContent :=
  {| content_type := "output_text"; content_text := Some "from content" |}.

Definition answerItem : OutputItem :=
  {| item_type := "message"; item_role := Some "assistant";
     item_content := Some [refusalPart; textPart] |}.

Definition withReasoning : Response :=
  {| id := "5"; output_text := Some ""; usage := None;
     output := Some [reasoningItem; answerItem]; extra := [] |}.

End StreamSpec.

Module FetchSpec.
Import Js OpenAiFetch.

(** A response that the API refuses with an error body. *)
Definition rateLimited : FetchResponse :=
  {| ok := false; status := 429; statusText := "Too Many Requests";
     json := Ok (VObj [("error", VObj [("message", VStr "Rate limit reached");
                                      ("type", VStr "rate_limit_error");
                                      ("code", VNull)])]) |}.

(** A response of a gateway, whose body is no JSON. *)
Definition badGateway : FetchResponse :=
  {| ok := false; status := 502; statusText := "Bad Gateway";
     json := Throw "SyntaxError: Unexpected token < in JSON at position 0" |}.

End FetchSpec.

Module RubricSpec.
Import Js Types Consistency ConsistencySpec.

(** A world whose rubric model answers with [rubric] and whose JSON
    extractor finds two objects in every text: a passing Assertion Result
    and, after it, a failing one. *)
Definition agreeingWorld (rubric : Generator string TestOutput) : World :=
  {| Model := string;
     providerSchema := specProviderSchema;
     assertionResultSchema := specAssertionResultSchema;
     DEFAULT_LLM_ASSERTION_PROVIDER := "default-provider";
     CONSISTENCY_PROMPT := "Are these outputs consistent?";
     getProvider := λ id _, if bool_decide (id = "unknown") then Throw "Unknown provider" else Ok id;
     environment_run := λ _ _ _, rubric;
     extractAllJsonObjects := λ _,
       [VObj [("pass", VBool true); ("message", VStr "consistent")];
        VObj [("pass", VBool false)]] |}.

Definition agreeingRubric : Generator string TestOutput :=
  gen_yield "{" (gen_return (textOutput "{...} and {...}")).

Definition consistent : AssertionResult :=
  {| pass := true; message := Some "consistent" |}.

(** Arguments that name a provider and a prompt. *)
Definition fullArgs : Value :=
  VObj [("criteria", VStr "identical wording");
        ("provider", VObj [("id", VStr "gemini:pro"); ("config", VObj [("temperature", VNum 0)])]);
        ("prompt", VStr "Compare {{output}}")].

End RubricSpec.

Module OrchestratorSpec.
Import Js Types Actions ActionsSpec.

(** The prompts a provider is run with: its own, when it is an object that
    carries prompts, and the global ones otherwise. *)
Definition promptsOf (globalPrompts : list Prompt) (provider : Provider) : list Prompt :=
  match provider with
  | provider_object _ (Some prompts) => prompts
  | _ => globalPrompts
  end.

(** The environment pairs of a configuration: every provider, in order, with
    each of its prompts, in order. *)
Definition environmentsOf (config : Config) : list (Provider * Prompt) :=
  default [] (providers config)
    ≫= λ provider, (λ prompt, (provider, prompt))
                     <$> promptsOf (default [] (prompts config)) provider.

(** The configuration a run goes on with: the one in the store, unless the
    comparison found a change and the user chose to update. *)
Definition chosen (w : World) (config latest : Config) (same : bool) : Config :=
  if same then config else if showPrompt w then latest else config.

(** What the comparison of the two configurations makes happen. *)
Definition asked (w : World) (same : bool) : list Event :=
  if same then [] else ShowPrompt :: (if showPrompt w then [ConfigStoreSet] else []).

(** The provider that an event asks the provider manager for. *)
Definition lookedUp (ev : Event) : option string :=
  match ev with GetProvider id => Some id | _ => None end.

(** The events of the loops over the tests and the environments. *)
Definition testEvent (ev : Event) : Prop :=
  match ev with GetAssertion _ _ _ | Enqueue _ _ => True | _ => False end.

(** The events that only a run that went through comes to: the queue has
    completed, the assertion manager is destroyed, the run is stored. *)
Definition closingEvent (ev : Event) : Prop :=
  match ev with
  | Completed | Destroy | RunStoreUpdate | SelectedRunIdSet | AddRun _ => True
  | _ => False
  end.

(** The events that precede the loops over the tests. *)
Definition openingEvent (ev : Event) : Prop :=
  match ev with
  | StorageGetConfig | ShowPrompt | ConfigStoreSet
  | NewProviderManager | NewParallelTaskQueue _ | GetProvider _ => True
  | _ => False
  end.

(** A cell as it is enqueued: nothing recorded yet, and one assertion per
    entry of the test's assert list, each made by the assertion manager from
    that entry and the variables of the test. *)
Definition assertionsOf (w : World) (t e : nat) (test : TestCase)
    (assertions : list Assertion) : Prop :=
  Forall2 (λ spec a, getAssertion w t e spec (default ∅ (vars test)) = Ok a)
          (default [] (assert test)) assertions.

Definition madeFor (w : World) (tests : list TestCase) (cells : Matrix w) : Prop :=
  ∀ t e row c env vars assertions,
    cells !! t = Some row → row !! e = Some c →
    unit c = unit_start env vars assertions →
    ∃ test, tests !! t = Some test ∧ assertionsOf w t e test assertions.

(** The events of the loops over the tests and the environments, as a
    test on events. *)
Definition isTestEvent (ev : Event) : bool :=
  match ev with GetAssertion _ _ _ | Enqueue _ _ => true | _ => false end.

(** What is done for the cell of test [t] and environment [e] before the
    queue is awaited: an assertion is made for each of the [n] entries of the
    assert list, in order, and the unit of work is enqueued. *)
Definition cellEvents (t e n : nat) : list Event :=
  (GetAssertion t e <$> seq 0 n) ++ [Enqueue t e].

(** The same for the cells of a test, environment by environment, and for
    all the tests, test by test. *)
Definition rowEvents (nenvs : nat) (t : nat) (test : TestCase) : list Event :=
  seq 0 nenvs ≫= λ e, cellEvents t e (length (default [] (assert test))).

Definition matrixEvents (nenvs : nat) (tests : list TestCase) : list Event :=
  mjoin (imap (rowEvents nenvs) tests).

(** A world with one provider that is not known. *)
Definition strictWorld : World :=
  {| ModelProvider := string;
     showPrompt := false;
     getProvider := λ id, if bool_decide (id = "unknown") then Throw "Unknown provider: unknown"
                          else Ok id;
     environment_run := λ t e model prompt vars, resolved (sampleOutput "same");
     getAssertion := λ t e spec vars, Ok sampleAssertion;
     randomUUID := "7b2e";
     now := 1700000000001%Z;
     grantedAtStart := Ok true;
     requestPermission := Ok tt;
     visibleAtEnd := true;
     grantedAtEnd := Ok true;
     newNotification := Ok tt |}.

Definition mixedConfig : Config :=
  written (Some "mixed")
    (Some [provider_string "gemini";
           provider_object "openai" (Some ["Sing about {{topic}}."; "Hum."]);
           provider_object "silent" (Some [])])
    (Some ["Write a haiku about {{topic}}."])
    (Some [sampleTest]) None.

(** The events of the dialog about a changed configuration. *)
Definition asking (ev : Event) : bool :=
  match ev with ShowPrompt | ConfigStoreSet => true | _ => false end.

Definition unknownConfig : Config :=
  written None
    (Some [provider_string "gemini"; provider_string "unknown"; provider_string "openai"])
    (Some ["Write a haiku about {{topic}}."])
    (Some [sampleTest]) None.

(** A run over providers with prompts of their own, a run that stops at a
    provider that is not known, and a run on a configuration that has
    changed on disk, which the user of [strictWorld] chooses to ignore. *)
Definition mixedRun : Eff Event Run :=
  runTests strictWorld (Some mixedConfig) (Some (storageOf mixedConfig)) [].

Definition unknownRun : Eff Event Run :=
  runTests strictWorld (Some unknownConfig) (Some (storageOf unknownConfig)) [].

Definition changedRun : Eff Event Run :=
  runTests strictWorld (Some mixedConfig) (Some (storageOf sampleConfig)) [].

(** Two configurations that differ in the options of their provider only,
    which [runTests] does not read. *)
Definition tunedConfig (temperature : Z) : Config :=
  {| configValue :=
       VObj [("providers",
              VArr [VObj [("id", VStr "openai");
                          ("config", VObj [("temperature", VNum temperature)])]]);
             ("prompts", VArr [VStr "Hum."]);
             ("tests", VArr [VObj [("vars", VObj [("topic", VStr "fog")])]])];
     config_description := None;
     providers := Some [provider_object "openai" None];
     prompts := Some ["Hum."];
     tests := Some [ {| description := None; vars := Some {[ "topic" := VStr "fog" ]};
                        assert := None |} ];
     defaultTest := None |}.

Definition tunedRun : Eff Event Run :=
  runTests strictWorld (Some (tunedConfig 0)) (Some (storageOf (tunedConfig 1))) [].

(** A page that is hidden when the run ends, on a platform where
    notifications cannot be constructed. *)
Definition hiddenWorld : World :=
  {| ModelProvider := string;
     showPrompt := false;
     getProvider := λ id, Ok id;
     environment_run := λ t e model prompt vars, resolved (sampleOutput "same");
     getAssertion := λ t e spec vars, Ok sampleAssertion;
     randomUUID := "c03a";
     now := 1700000000003%Z;
     grantedAtStart := Ok true;
     requestPermission := Ok tt;
     visibleAtEnd := false;
     grantedAtEnd := Ok true;
     newNotification := Throw "TypeError: Illegal constructor" |}.

Definition hiddenRun : Eff Event Run :=
  runTests hiddenWorld (Some sampleConfig) (Some (storageOf sampleConfig)) [].

Definition mixedTrace : list Event := Eval vm_compute in mixedRun.1.
Definition mixedReturned : Run := Eval vm_compute in SampleRuns.returned mixedRun.2.
Definition unknownTrace : list Event := Eval vm_compute in unknownRun.1.
Definition changedTrace : list Event := Eval vm_compute in changedRun.1.
Definition changedReturned : Run := Eval vm_compute in SampleRuns.returned changedRun.2.
Definition tunedTrace : list Event := Eval vm_compute in tunedRun.1.
Definition tunedReturned : Run := Eval vm_compute in SampleRuns.returned tunedRun.2.
Definition hiddenTrace : list Event := Eval vm_compute in hiddenRun.1.

End OrchestratorSpec.

Module LoadingSpec.
Import Actions Loading.

(** The run that a list of runs holds for an id: the last one with that
    id. *)
Definition lastWithId (runs : list Run) (key : string) : option Run :=
  last (filter (λ run, id run = key) runs).

(** A folder with three runs, of which the first and the last have the same
    id, and the stores before any folder was chosen. *)
Definition sampleFolder : FileSystemStorage :=
  {| ref := 1;
     reads := Ok (ActionsSpec.sampleConfig,
                  [SampleRuns.sampleReturned; OrchestratorSpec.mixedReturned;
                   SampleRuns.brokenReturned]) |}.

Definition unreadableFolder : FileSystemStorage :=
  {| ref := 2; reads := Throw "NotFoundError: config.yaml" |}.

Definition emptyStores : Stores :=
  {| storageStore := None; configStore := None; runStore := ∅;
     selectedRunIdStore := None |}.

Definition undisturbed (stores : Stores) : Stores := stores.

(** The stores once [storageStore.set(storage)] has run. *)
Definition withStorage (stores : Stores) (storage : FileSystemStorage) : Stores :=
  {| storageStore := Some storage; configStore := configStore stores;
     runStore := runStore stores; selectedRunIdStore := selectedRunIdStore stores |}.

(** Another folder is chosen while the reads are pending. *)
Definition switching (stores : Stores) : Stores :=
  {| storageStore := Some unreadableFolder; configStore := configStore stores;
     runStore := runStore stores; selectedRunIdStore := selectedRunIdStore stores |}.

End LoadingSpec.

Module SettingsSpec.
Import Settings.







End SettingsSpec.


(** ** Facts on the trace monad *)

Section EffFacts.
Context {E : Type}.

Lemma bind_outcome_ok {A B} (m : Eff E A) (f : A → Eff E B) (b : B) :
  snd (bind m f) = Ok b ↔ ∃ a, snd m = Ok a ∧ snd (f a) = Ok b.
Proof.
  destruct m as [tr [a|e]]; simpl.
  - destruct (f a) as [tr' r] eqn:Hf; simpl. split.
    + intros ->. exists a. by rewrite Hf.
    + intros (a' & [= <-] & H). by rewrite Hf in H.
  - split; [done | intros (a & H & _); done].
Qed.

Lemma bind_ok_inv {A B} (m : Eff E A) (f : A → Eff E B) tr (b : B) :
  bind m f = (tr, Ok b) →
  ∃ tr1 tr2 a, m = (tr1, Ok a) ∧ f a = (tr2, Ok b) ∧ tr = tr1 ++ tr2.
Proof.
  destruct m as [tr1 [a|e]]; simpl; [|done].
  destruct (f a) as [tr2 r] eqn:Hf. intros [= <- ->]. by exists tr1, tr2, a.
Qed.

Lemma bind_outcome {A B} (m : Eff E A) (f : A → Eff E B) :
  snd (bind m f) = match snd m with
                   | Ok a => snd (f a)
                   | Throw e => Throw e
                   end.
Proof. destruct m as [tr [a|e]]; simpl; [|done]. by destruct (f a). Qed.

Lemma bind_outcome_ext {A B} (m : Eff E A) (f g : A → Eff E B) :
  (∀ a, snd m = Ok a → snd (f a) = snd (g a)) → snd (bind m f) = snd (bind m g).
Proof. intros H. rewrite !bind_outcome. destruct (snd m); [by apply H|done]. Qed.

Lemma forEach_app {A S} (body : S → A → Eff E S) (xs ys : list A) (s : S) :
  forEach body (xs ++ ys) s = bind (forEach body xs s) (forEach body ys).
Proof.
  revert s. induction xs as [|x xs IH]; intros s; simpl.
  - unfold ret. simpl. by destruct (forEach body ys s).
  - destruct (body s x) as [tr [s'|e]]; simpl; [|done].
    rewrite IH. destruct (forEach body xs s') as [tr1 [s1|e1]]; simpl; [|done].
    destruct (forEach body ys s1) as [tr2 r2]. by rewrite (assoc_L (++)).
Qed.

(** A loop invariant for [forEach]: what holds of the accumulator before
    the loop and is kept by every iteration that does not throw holds
    after it. *)
Lemma forEach_invariant {A S} (body : S → A → Eff E S) (I : list A → S → Prop)
    (xs : list A) (s0 : S) :
  I [] s0 →
  (∀ done x s s', I done s → snd (body s x) = Ok s' → I (done ++ [x]) s') →
  ∀ s', snd (forEach body xs s0) = Ok s' → I xs s'.
Proof.
  intros H0 Hstep. induction xs as [|x xs IH] using rev_ind; intros s'.
  - simpl. by intros [= <-].
  - rewrite forEach_app, bind_outcome_ok. intros (s1 & H1 & H2).
    simpl in H2. apply bind_outcome_ok in H2 as (s2 & H2 & [= <-]).
    eauto.
Qed.
End EffFacts.

(** ** [deepEquals] *)

Module JsFacts.
Import Js JsSpec.

Example deepEquals_same_maps_other_order :
  deepEquals (VObj [("a", VNum 1); ("b", VArr [VNum 2; VNull])])
             (VObj [("b", VArr [VNum 2; VNull]); ("a", VNum 1)]) = Ok true.
Proof. vm_compute. reflexivity. Qed.

Example deepEquals_other_value :
  deepEquals (VObj [("a", VNum 1)]) (VObj [("a", VNum 2)]) = Ok false.
Proof. vm_compute. reflexivity. Qed.

(** Induction on values, with the hypothesis for every element of a sequence
    and every value of a map. *)
Lemma Value_nested_ind (P : Value → Prop) :
  P VUndefined → P VNull → (∀ b, P (VBool b)) → (∀ n, P (VNum n)) → (∀ s, P (VStr s)) →
  (∀ items, Forall P items → P (VArr items)) →
  (∀ props, Forall (λ p, P p.2) props → P (VObj props)) →
  ∀ v, P v.
Proof.
  intros Hundefined Hnull Hbool Hnum Hstr Harr Hobj.
  fix IH 1.
  intros [| |b|n|s|items|props];
    [exact Hundefined|exact Hnull|apply Hbool|apply Hnum|apply Hstr| |].
  - apply Harr. induction items as [|x items IHitems]; constructor; [apply IH|exact IHitems].
  - apply Hobj. induction props as [|[key x] props IHprops]; constructor;
      [apply IH|exact IHprops].
Qed.

Lemma assoc_Some_elem key x props : assoc key props = Some x → (key, x) ∈ props.
Proof.
  induction props as [|[k v] props IH]; simpl; [done|].
  case_bool_decide as Hk.
  - intros [= ->]. subst. by left.
  - intros H. right. by apply IH.
Qed.

Lemma assoc_NoDup key x props : NoDup props.*1 → (key, x) ∈ props → assoc key props = Some x.
Proof.
  induction props as [|[k v] props IH]; [by intros _ ?%elem_of_nil|].
  rewrite fmap_cons. intros [Hk Hnodup]%NoDup_cons [[= -> ->]|Hin]%elem_of_cons; simpl.
  - by rewrite bool_decide_eq_true_2.
  - rewrite bool_decide_eq_false_2; [by apply IH|].
    intros ->. apply Hk. apply list_elem_of_fmap. by exists (key, x).
Qed.

(** The property with key [pretty n] of an array is its element [n]. *)
Lemma assoc_indexed (items : list Value) (n : nat) :
  assoc (pretty n) (indexed items) = items !! n.
Proof.
  unfold indexed.
  assert (∀ k, assoc (pretty (k + n)) (imap (λ i x, (pretty (k + i), x)) items) = items !! n)
    as H; [|apply (H 0)].
  revert n. induction items as [|x items IH]; intros n k; [done|].
  rewrite imap_cons. simpl. destruct n as [|n].
  - by rewrite bool_decide_eq_true_2.
  - rewrite bool_decide_eq_false_2 by (intros Heq%(inj pretty); lia).
    change ((x :: items) !! S n) with (items !! n).
    rewrite <- (IH n (S k)). replace (k + S n) with (S k + n) by lia.
    f_equal. apply imap_ext. intros i y _. simpl. do 2 f_equal. lia.
Qed.

Lemma keys_indexed (items : list Value) (n : nat) :
  n < length items → pretty n ∈ (indexed items).*1.
Proof.
  intros [x Hx]%lookup_lt_is_Some_2. apply list_elem_of_fmap. exists (pretty n, x).
  split; [done|]. apply assoc_Some_elem. by rewrite assoc_indexed.
Qed.

Lemma length_indexed (items : list Value) : length (indexed items) = length items.
Proof. apply length_imap. Qed.

Section Loops.
Context (rec : Value → Value → Result bool) (keysB : list string) (b : Value).

Lemma everyIndex_true rest : ∀ i,
  (∀ j x, rest !! j = Some x →
     pretty (i + j) ∈ keysB ∧ rec x (get b (pretty (i + j))) = Ok true) →
  everyIndex rec keysB b i rest = Ok true.
Proof.
  induction rest as [|x rest IH]; intros i Hrest; simpl; [done|].
  destruct (Hrest 0 x eq_refl) as [Hkey Hx]. rewrite Nat.add_0_r in Hkey, Hx.
  unfold compareKey, includes. rewrite bool_decide_eq_true_2 by done. simpl. rewrite Hx.
  apply IH. intros j y Hy. replace (S i + j) with (i + S j) by lia. by apply Hrest.
Qed.

Lemma everyProp_true rest :
  (∀ key x, (key, x) ∈ rest → key ∈ keysB ∧ rec x (get b key) = Ok true) →
  everyProp rec keysB b rest = Ok true.
Proof.
  induction rest as [|[key x] rest IH]; intros Hrest; simpl; [done|].
  destruct (Hrest key x) as [Hkey Hx]; [by left|].
  unfold compareKey, includes. rewrite bool_decide_eq_true_2 by done. simpl. rewrite Hx.
  apply IH. intros key' y Hy. apply Hrest. by right.
Qed.
End Loops.

(** What [deepEquals] gets right: on plain data, values that are
    structurally equal are found equal, without an exception. *)
Lemma deepEquals_complete a :
  plain a → ∀ b, plain b → structurallyEqual a b → deepEquals a b = Ok true.
Proof.
  induction a as [| |x|n|s|items IH|props IH] using Value_nested_ind;
    intros Ha b Hb Heq; inversion Heq; subst; simpl;
    rewrite ?bool_decide_eq_true_2 by done; try done.
  - (* numbers *)
    inversion Ha; subst. simpl. by rewrite bool_decide_eq_true_2.
  - (* sequences *)
    match goal with H : Forall2 _ _ _ |- _ => rename H into Hitems end.
    inversion Ha as [| | | |? Hplain|]; subst. inversion Hb as [| | | |? Hplain'|]; subst.
    rewrite length_fmap, length_indexed, (Forall2_length _ _ _ Hitems).
    rewrite bool_decide_eq_true_2 by done. simpl.
    apply everyIndex_true. intros j x Hx. simpl.
    destruct (Forall2_lookup_l _ _ _ _ _ Hitems Hx) as (y & Hy & Hxy).
    split; [apply keys_indexed; by eapply lookup_lt_Some|].
    rewrite assoc_indexed, Hy. simpl.
    apply (proj1 (Forall_lookup _ _) IH j x Hx).
    + by apply (proj1 (Forall_lookup _ _) Hplain j x).
    + by apply (proj1 (Forall_lookup _ _) Hplain' j y).
    + done.
  - (* maps *)
    match goal with
    | Hk : ∀ key, _ ↔ _, Hv : ∀ key x, _ → ∃ _, _ |- _ => rename Hk into Hkeys; rename Hv into Hvalues
    end.
    inversion Ha as [| | | | |? Hnodup Hplain]; subst.
    inversion Hb as [| | | | |? Hnodup' Hplain']; subst.
    assert (length props = length qs.*1) as ->.
    { rewrite <- (length_fmap fst props). apply Permutation_length.
      by apply NoDup_Permutation. }
    rewrite bool_decide_eq_true_2 by done. simpl.
    apply everyProp_true. intros key x Hin.
    split; [apply Hkeys, list_elem_of_fmap; by exists (key, x)|].
    destruct (Hvalues key x (assoc_NoDup _ _ _ Hnodup Hin)) as (y & Hy & Hxy).
    simpl. rewrite Hy. simpl.
    apply (proj1 (Forall_forall _ _) IH (key, x) Hin).
    + by apply (proj1 (Forall_forall _ _) Hplain (key, x)).
    + by apply (proj1 (Forall_forall _ _) Hplain' (key, y)), assoc_Some_elem.
    + done.
Qed.

Lemma structurallyEqual_refl a : plain a → structurallyEqual a a.
Proof.
  induction a as [| |x|n|s|items IH|props IH] using Value_nested_ind;
    intros Ha; inversion Ha; subst; constructor.
  - apply Forall2_same_length_lookup. split; [done|].
    intros i x y Hx Hy. assert (x = y) as <- by congruence.
    apply (proj1 (Forall_lookup _ _) IH i x Hx).
    match goal with H : Forall plain items |- _ =>
      by apply (proj1 (Forall_lookup _ _) H i x) end.
  - done.
  - intros key x Hx. exists x. split; [done|].
    apply assoc_Some_elem in Hx.
    apply (proj1 (Forall_forall _ _) IH (key, x) Hx).
    match goal with H : Forall (λ p, plain p.2) props |- _ =>
      by apply (proj1 (Forall_forall _ _) H (key, x)) end.
Qed.

(** A configuration compared with an identical copy of itself is found
    unchanged. *)
Lemma deepEquals_refl a : plain a → deepEquals a a = Ok true.
Proof. intros Ha. by apply deepEquals_complete, structurallyEqual_refl. Qed.

Lemma sequence_is_no_map xs ps : ¬ structurallyEqual (VArr xs) (VObj ps).
Proof. intros H. inversion H. Qed.

End JsFacts.

(** ** The openai-responses provider *)

Module ProviderFacts.
Import OpenAiResponses ProviderSpec.

(** The provider's own unit tests. *)
Example extractOutput_output_text : extractOutput withOutputText = ["hello"].
Proof. reflexivity. Qed.

Example extractOutput_content_array : extractOutput withContentArray = ["from content"].
Proof. reflexivity. Qed.

Example extractTokenUsage_given :
  extractTokenUsage (λ _ _ _, @None Z) "gpt-test" withUsage
  = {| inputTokens := 2; outputTokens := 3; totalTokens := 5; costDollars := None |}.
Proof. reflexivity. Qed.

Example extractTokenUsage_defaults :
  extractTokenUsage (λ _ _ _, @None Z) "gpt-test" withoutUsage
  = {| inputTokens := 0; outputTokens := 0; totalTokens := 0; costDollars := None |}.
Proof. reflexivity. Qed.

Lemma lastCompleted_cons value events :
  lastCompleted (value :: events)
  = match lastCompleted events with
    | Some r => Some r
    | None => completedPayload value
    end.
Proof.
  unfold lastCompleted. simpl. destruct (completedPayload value) as [r|]; simpl.
  - by rewrite last_cons.
  - by destruct (last _).
Qed.

Lemma lastCompleted_None events :
  lastCompleted events = None ↔ ∀ r, Completed r ∉ events.
Proof.
  induction events as [|value events IH].
  - split; [intros _ r Hr; by apply elem_of_nil in Hr | done].
  - rewrite lastCompleted_cons. split.
    + destruct (lastCompleted events); [done|]. intros Hv r [Heq|Hr]%elem_of_cons.
      * by subst value.
      * by apply (proj1 IH eq_refl r).
    + intros Hno. rewrite (proj2 IH).
      * destruct value; try done. exfalso. apply (Hno response0). by left.
      * intros r Hr. apply (Hno r). by right.
Qed.

(** The loop keeps in [finalResponseJson] the payload of the last
    [response.completed] event it went through. *)
Lemma loop_finalResponseJson events st st' :
  snd (forEach onEvent events st) = Ok st' →
  finalResponseJson st'
  = match lastCompleted events with
    | Some r => Some r
    | None => finalResponseJson st
    end.
Proof.
  revert st. induction events as [|value events IH]; intros st; simpl.
  - by intros [= <-].
  - rewrite bind_outcome_ok. intros (st1 & H1 & H2).
    rewrite lastCompleted_cons, (IH _ H2).
    destruct (lastCompleted events); [done|].
    destruct value; simpl in H1; try done; by injection H1 as <-.
Qed.

Lemma loop_without_fault events st :
  existsb faulty events = false → is_ok (snd (forEach onEvent events st)) = true.
Proof.
  revert st. induction events as [|value events IH]; intros st; simpl; [done|].
  intros [Hv Hrest]%orb_false_elim.
  destruct value; simpl in Hv |- *; try done;
    match goal with
    | |- context [forEach onEvent events ?s] =>
        specialize (IH s Hrest); by destruct (forEach onEvent events s) as [? []]
    end.
Qed.

Lemma runModel_outcome messages events :
  snd (runModel messages (Body events))
  = match snd (forEach onEvent events {| fullText := ""; finalResponseJson := None |}) with
    | Throw e => Throw e
    | Ok st =>
        match finalResponseJson st with
        | None => Throw "Failed to run model: missing completion"
        | Some parsed =>
            Ok {| response := parsed;
                  session := messages ++
                    [ {| role := assistant;
                         content := text_content (default (fullText st) (output_text parsed));
                         type := Some message |} ] |}
        end
    end.
Proof.
  unfold runModel. simpl.
  destruct (forEach onEvent events _) as [tr [st|e]]; simpl; [|done].
  by destruct (finalResponseJson st).
Qed.

(** C8.  A stream that ends without a [response.completed] event makes the
    run fail, with the missing-completion error when no event made the loop
    throw before; a run that returns does so with the payload of the
    (last) [response.completed] event as its response, whatever the deltas
    were; and a stream with such an event and no faulty event returns. *)
Theorem completed_payload_is_authoritative
    (messages : list ResponseMessage) (events : list SsePayload) :
  (lastCompleted events = None →
     ∃ e, snd (runModel messages (Body events)) = Throw e
          ∧ (existsb faulty events = false →
             e = "Failed to run model: missing completion"))
  ∧ (∀ res, snd (runModel messages (Body events)) = Ok res →
       lastCompleted events = Some (response res))
  ∧ (∀ payload, existsb faulty events = false → lastCompleted events = Some payload →
       ∃ res, snd (runModel messages (Body events)) = Ok res ∧ response res = payload).
Proof.
  rewrite runModel_outcome.
  pose proof (loop_finalResponseJson events {| fullText := ""; finalResponseJson := None |}) as Hfin.
  pose proof (loop_without_fault events {| fullText := ""; finalResponseJson := None |}) as Hok.
  destruct (snd (forEach onEvent events _)) as [st|e]; simpl in *.
  - specialize (Hfin st eq_refl). repeat split.
    + intros Hnone. rewrite Hnone in Hfin. rewrite Hfin. eauto.
    + intros res. destruct (lastCompleted events) as [r|]; rewrite Hfin; [|done].
      by intros [= <-].
    + intros payload _ Hlast. rewrite Hlast in Hfin. rewrite Hfin. eauto.
  - repeat split.
    + intros _. exists e. split; [done|]. intros Hf. by specialize (Hok Hf).
    + done.
    + intros payload Hf. by specialize (Hok Hf).
Qed.

Lemma completed_payload_is_authoritative_witness :
  snd (runModel sampleSession (Body truncatedStream))
    = Throw "Failed to run model: missing completion"
  ∧ (∃ res, snd (runModel sampleSession (Body sampleStream)) = Ok res
            ∧ response res = sampleResponse).
Proof.
  split.
  - destruct (completed_payload_is_authoritative sampleSession truncatedStream)
      as [Hmissing _].
    destruct (Hmissing eq_refl) as (e & He & Hmsg).
    rewrite He. f_equal. apply Hmsg. reflexivity.
  - destruct (completed_payload_is_authoritative sampleSession sampleStream)
      as (_ & _ & Hpresent).
    apply Hpresent; reflexivity.
Defined.

Lemma promiseAll_fmap {A B C} (f : A → Result B) (g : A → C) (h : B → C) xs ys :
  (∀ x y, f x = Ok y → h y = g x) →
  promiseAll f xs = Ok ys → h <$> ys = g <$> xs.
Proof.
  intros Hfg. revert ys. induction xs as [|x xs IH]; intros ys; simpl.
  - by intros [= <-].
  - destruct (f x) as [y|] eqn:Hx, (promiseAll f xs) as [ys'|]; try done.
    intros [= <-]. rewrite !fmap_cons. by rewrite (Hfg _ _ Hx), (IH _ eq_refl).
Qed.

Lemma turnToResponse_role {File} (fileToBase64 : File → Result string) part m :
  turnToResponse fileToBase64 part = Ok m → role m = turn_role part.
Proof.
  unfold turnToResponse.
  destruct (promiseAll _ _) as [[|[text|? ?] [|? ?]]|]; try done; by intros [= <-].
Qed.

Lemma filter_role_fmap (ms : list ResponseMessage) :
  role <$> filter (λ m, role m ≠ system) ms = filter (λ r, r ≠ system) (role <$> ms).
Proof.
  induction ms as [|m ms IH]; [done|].
  rewrite fmap_cons, !filter_cons.
  destruct (decide (role m ≠ system)); rewrite ?fmap_cons; by rewrite IH.
Qed.

(** C10.  [mergeMessages a b] is [a], unchanged, followed by the messages of
    [b] whose role is not [system], in their order; hence in the request of
    a run that continues a session, what follows the session's messages
    holds no system turn: its roles are the non-system roles of the new
    conversation, in order. *)
Theorem continued_request_drops_system_turns :
  (∀ a b : list ResponseMessage,
     take (length a) (mergeMessages a b) = a
     ∧ drop (length a) (mergeMessages a b) = filter (λ m, role m ≠ system) b
     ∧ Forall (λ m, role m ≠ system) (drop (length a) (mergeMessages a b)))
  ∧ (∀ File (fileToBase64 : File → Result string) model options
       (sessionState : list ResponseMessage) (conversation : list (Turn (File:=File)))
       request generator,
       run fileToBase64 model options (Some sessionState) conversation
         = Ok (request, generator) →
       role <$> take (length sessionState) (input request) = role <$> sessionState
       ∧ content <$> take (length sessionState) (input request) = content <$> sessionState
       ∧ role <$> drop (length sessionState) (input request)
         = filter (λ r, r ≠ system) (turn_role <$> conversation)
       ∧ Forall (λ m, role m ≠ system) (drop (length sessionState) (input request))).
Proof.
  assert (Hmerge : ∀ a b : list ResponseMessage,
     take (length a) (mergeMessages a b) = a
     ∧ drop (length a) (mergeMessages a b) = filter (λ m, role m ≠ system) b
     ∧ Forall (λ m, role m ≠ system) (drop (length a) (mergeMessages a b))).
  { intros a b. unfold mergeMessages.
    rewrite take_app_length, drop_app_length. repeat split.
    apply Forall_forall. by intros m [H _]%list_elem_of_filter. }
  split; [exact Hmerge|].
  intros File fileToBase64 model0 options0 sessionState conversation request generator.
  unfold run. simpl.
  destruct (conversationToResponses fileToBase64 conversation) as [newMessages|] eqn:Hconv;
    [|done].
  intros [= <- _]. simpl.
  destruct (Hmerge sessionState newMessages) as (Htake & Hdrop & Hall).
  set (retag := λ m : ResponseMessage, {| role := role m; content := content m;
                                          type := Some message |}).
  assert (Hrole : ∀ l : list ResponseMessage, role <$> (retag <$> l) = role <$> l).
  { intros l. rewrite <- list_fmap_compose. done. }
  assert (Hcontent : ∀ l : list ResponseMessage, content <$> (retag <$> l) = content <$> l).
  { intros l. rewrite <- list_fmap_compose. done. }
  rewrite <- !fmap_take, <- !fmap_drop, Htake, Hdrop, !Hrole, Hcontent.
  repeat split.
  - rewrite filter_role_fmap. f_equal.
    eapply promiseAll_fmap; [|exact Hconv].
    intros x y. apply turnToResponse_role.
  - apply Forall_fmap, Forall_forall. by intros m [H _]%list_elem_of_filter.
Qed.

Lemma continued_request_drops_system_turns_witness :
  ∃ request generator,
    run noFiles "gpt-test" [] (Some sampleSession) sampleConversation
      = Ok (request, generator)
    ∧ role <$> input request = [system; user; assistant; user].
Proof.
  destruct (run noFiles "gpt-test" [] (Some sampleSession) sampleConversation)
    as [[request generator]|] eqn:Hrun; [|discriminate Hrun].
  exists request, generator. split; [reflexivity|].
  destruct continued_request_drops_system_turns as [_ Hrequest].
  destruct (Hrequest _ _ _ _ _ _ _ _ Hrun) as (Hsession & _ & Hnew & _).
  rewrite <- (take_drop (length sampleSession) (input request)), fmap_app, Hsession, Hnew.
  reflexivity.
Defined.

End ProviderFacts.

(** ** The consistency row assertion *)

Module ConsistencyFacts.
Import Js Types Consistency ConsistencySpec.

Lemma createConsistencyAssertion_run w args testVars tr a :
  createConsistencyAssertion w args testVars = (tr, Ok a) →
  ∃ parsedArgs model template,
    argsSchema_safeParse w args = Some parsedArgs
    ∧ run a = run_results w (criteria parsedArgs) testVars model template.
Proof.
  unfold createConsistencyAssertion.
  destruct (argsSchema_safeParse w args) as [parsedArgs|]; [|done].
  destruct (match provider parsedArgs with
            | Some (provider_id id) => _ | Some (provider_record id config) => _
            | None => _ end) as [id config].
  simpl. destruct (getProvider w id config) as [model|]; simpl; [|done].
  intros [= _ <-]. by exists parsedArgs, model, (default (CONSISTENCY_PROMPT w) (prompt parsedArgs)).
Qed.

Lemma length_fill {A} n (x : A) : length (fill n x) = n.
Proof. apply length_replicate. Qed.

Lemma Forall_fill {A} (P : A → Prop) n x : P x → Forall P (fill n x).
Proof. intros Hx. apply Forall_replicate. done. Qed.

Lemma run_results_outcome w criteria testVars model template results :
  snd (run_results w criteria testVars model template results)
  = match drain (rubricCall w criteria testVars model template results) with
    | Throw e => Throw e
    | Ok result =>
        let rubricOutput := extractOutputAsString (output result) in
        if negb (truthy rubricOutput) then
          Ok (fill (length results)
                {| pass := false;
                   message := Some ("Rubric did not succeed: "
                                    +:+ default "No error message" (error result)) |})
        else
          match assertionResultSchema w
                  (default VUndefined
                     (extractAllJsonObjects w (default "" rubricOutput) !! 0%nat)) with
          | Some validated => Ok (fill (length results) validated)
          | None =>
              Ok (fill (length results)
                    {| pass := false;
                       message := Some ("Invalid rubric output: " +:+ dquote
                                        +:+ default "" rubricOutput +:+ dquote) |})
          end
    end.
Proof.
  unfold run_results, rubricCall. simpl.
  destruct (drain _) as [result|e]; simpl; [|done].
  destruct (negb (truthy _)); simpl; [done|].
  by destruct (assertionResultSchema w _).
Qed.

Lemma run_results_trace w criteria testVars model template results :
  fst (run_results w criteria testVars model template results)
  = [RubricRun model template (rubricVars criteria testVars (contribution <$> results))].
Proof.
  unfold run_results. simpl. destruct (drain _) as [result|e]; simpl; [|done].
  destruct (negb (truthy _)); simpl; [done|].
  by destruct (assertionResultSchema w _).
Qed.

(** The rubric output is of no use: no text can be extracted from it, or
    the first JSON object found in the text, if any, is no Assertion
    Result. *)
Lemma run_results_unusable w criteria testVars model template results result :
  drain (rubricCall w criteria testVars model template results) = Ok result →
  unusable w result →
  ∃ rs, snd (run_results w criteria testVars model template results) = Ok rs
        ∧ length rs = length results
        ∧ Forall failed_with_diagnostic rs.
Proof.
  intros Hdrain Hbad. unfold unusable in Hbad.
  rewrite run_results_outcome, Hdrain. simpl.
  destruct (truthy (extractOutputAsString (output result))) eqn:Htext; simpl.
  - destruct Hbad as [|(text & Htxt & Hinvalid)]; [done|].
    rewrite Htxt. simpl. rewrite Hinvalid.
    eexists. split; [done|]. split; [apply length_fill|].
    apply Forall_fill. split; [done|]. eexists. split; [done|]. done.
  - eexists. split; [done|]. split; [apply length_fill|].
    apply Forall_fill. split; [done|]. eexists. split; [done|]. done.
Qed.

(** C4.  Let [createConsistencyAssertion] return an assertion, and let the
    rubric run that its [run] starts on a vector of results end with a
    result that has no extractable text, or with a text in which the first
    JSON object found (if any) is no Assertion Result.  Then [run] returns:
    one entry per input position, each with [pass] false and a message that
    is not empty. *)
Theorem unusable_rubric_output_fails_every_position
    (w : World) (args : Value) (testVars : gmap string Value)
    (trace : list (Event (Model w))) (assertion : RowAssertionProvider w)
    (results : list TestOutput)
    (model : Model w) (template : string) (vars : gmap string VarValue)
    (result : TestOutput) :
  createConsistencyAssertion w args testVars = (trace, Ok assertion) →
  fst (run assertion results) = [RubricRun model template vars] →
  drain (environment_run w model template vars) = Ok result →
  unusable w result →
  ∃ rs, snd (run assertion results) = Ok rs
        ∧ length rs = length results
        ∧ Forall failed_with_diagnostic rs.
Proof.
  intros Hcreate Hcall Hdrain Hbad.
  destruct (createConsistencyAssertion_run _ _ _ _ _ Hcreate)
    as (parsedArgs & model' & template' & _ & Hrun).
  rewrite Hrun in Hcall |- *. rewrite run_results_trace in Hcall.
  injection Hcall as -> -> <-.
  by eapply run_results_unusable.
Qed.

Lemma unusable_rubric_output_fails_every_position_witness :
  (∃ assertion rs,
     snd (createConsistencyAssertion (rubricWorld silentRubric) sampleArgs ∅) = Ok assertion
     ∧ snd (run assertion sampleResults) = Ok rs
     ∧ length rs = 3 ∧ Forall failed_with_diagnostic rs)
  ∧ (∃ assertion rs,
       snd (createConsistencyAssertion (rubricWorld ramblingRubric) sampleArgs ∅) = Ok assertion
       ∧ snd (run assertion sampleResults) = Ok rs
       ∧ length rs = 3 ∧ Forall failed_with_diagnostic rs).
Proof.
  split.
  - destruct (createConsistencyAssertion (rubricWorld silentRubric) sampleArgs ∅)
      as [trace [assertion|]] eqn:Hcreate; [|discriminate Hcreate].
    destruct (unusable_rubric_output_fails_every_position
                (rubricWorld silentRubric) sampleArgs ∅ trace assertion sampleResults
                "default-provider" "Are these outputs consistent?"
                (rubricVars "identical wording" ∅ (contribution <$> sampleResults))
                (failedOutput "HTTP 500") Hcreate)
      as (rs & Hrs & Hlen & Hall).
    + injection Hcreate as _ <-. reflexivity.
    + reflexivity.
    + left. reflexivity.
    + exists assertion, rs. split; [reflexivity|]. split; [exact Hrs|].
      split; [exact Hlen|exact Hall].
  - destruct (createConsistencyAssertion (rubricWorld ramblingRubric) sampleArgs ∅)
      as [trace [assertion|]] eqn:Hcreate; [|discriminate Hcreate].
    destruct (unusable_rubric_output_fails_every_position
                (rubricWorld ramblingRubric) sampleArgs ∅ trace assertion sampleResults
                "default-provider" "Are these outputs consistent?"
                (rubricVars "identical wording" ∅ (contribution <$> sampleResults))
                (textOutput "verdict") Hcreate)
      as (rs & Hrs & Hlen & Hall).
    + injection Hcreate as _ <-. reflexivity.
    + reflexivity.
    + right. exists "verdict". split; reflexivity.
    + exists assertion, rs. split; [reflexivity|]. split; [exact Hrs|].
      split; [exact Hlen|exact Hall].
Defined.

(** C5 as the specification states it fails on an empty string: an output
    that is the empty string is a plain string, and it contributes the
    empty list, not a one-element list. *)
Lemma empty_string_output_is_not_wrapped : ¬ wraps_plain_string (textOutput "").
Proof. intros H. specialize (H "" eq_refl). discriminate H. Qed.

(** C5, amended.  Let [createConsistencyAssertion] return an assertion.
    Its [run] hands the rubric one entry per result: the empty list for a
    result whose output is absent or the empty string, the one-element list
    of the string for a non-empty plain string, and the parts themselves for
    a multi-part output.  The rubric is called with that vector whatever
    outputs are missing, and the vector is the value of the variable
    [output] unless the test's own variables define one. *)
Theorem outputs_contributed_to_the_rubric
    (w : World) (args : Value) (testVars : gmap string Value)
    (trace : list (Event (Model w))) (assertion : RowAssertionProvider w)
    (results : list TestOutput) :
  createConsistencyAssertion w args testVars = (trace, Ok assertion) →
  ∃ model template vars contributed,
    fst (run assertion results) = [RubricRun model template vars]
    ∧ (testVars !! "output" = None → vars !! "output" = Some (var_outputs contributed))
    ∧ length contributed = length results
    ∧ ∀ i r, results !! i = Some r →
        ∃ c, contributed !! i = Some c
             ∧ ((output r = None ∨ output r = Some (output_string "")) → c = [])
             ∧ (∀ s, output r = Some (output_string s) → s ≠ "" → c = [part_string s])
             ∧ (∀ parts, output r = Some (output_parts parts) → c = parts).
Proof.
  intros Hcreate.
  destruct (createConsistencyAssertion_run _ _ _ _ _ Hcreate)
    as (parsedArgs & model & template & _ & Hrun).
  exists model, template,
    (rubricVars (criteria parsedArgs) testVars (contribution <$> results)),
    (contribution <$> results).
  rewrite Hrun. split; [apply run_results_trace|]. split; [|split].
  - intros Hfree. unfold rubricVars.
    rewrite lookup_union_r; [|by rewrite lookup_fmap, Hfree].
    by rewrite lookup_insert_eq.
  - apply length_fmap.
  - intros i r Hr. exists (contribution r). rewrite list_lookup_fmap, Hr.
    split; [done|]. unfold contribution. repeat split.
    + by intros [-> | ->].
    + intros s -> Hs. by rewrite bool_decide_eq_false_2.
    + by intros parts ->.
Qed.

Lemma outputs_contributed_to_the_rubric_witness :
  ∃ assertion vars,
    snd (createConsistencyAssertion (rubricWorld silentRubric) sampleArgs ∅) = Ok assertion
    ∧ fst (run assertion sampleResults)
      = [RubricRun "default-provider" "Are these outputs consistent?" vars]
    ∧ vars !! "output"
      = Some (var_outputs [[part_string "same"]; []; [part_string "sa"; part_string "me"]]).
Proof.
  destruct (createConsistencyAssertion (rubricWorld silentRubric) sampleArgs ∅)
    as [trace [assertion|]] eqn:Hcreate; [|discriminate Hcreate].
  destruct (outputs_contributed_to_the_rubric _ _ _ _ _ sampleResults Hcreate)
    as (model & template & vars & contributed & Hcall & Hvars & _ & _).
  exists assertion, vars. split; [reflexivity|].
  assert (fst (run assertion sampleResults)
          = [RubricRun (Model:=Model (rubricWorld silentRubric))
               "default-provider" "Are these outputs consistent?"
               (rubricVars "identical wording" ∅ (contribution <$> sampleResults))]) as Hcall'.
  { injection Hcreate as _ <-. reflexivity. }
  rewrite Hcall in Hcall'. injection Hcall' as -> -> ->.
  split; [exact Hcall|]. reflexivity.
Defined.

Lemma createConsistencyAssertion_invalid w args testVars :
  argsSchema_safeParse w args = None →
  createConsistencyAssertion w args testVars = ([], Throw "Invalid LLM Rubric arguments").
Proof. unfold createConsistencyAssertion. by intros ->. Qed.

(** Arguments that are no object, or whose [criteria] is no string, fail the
    schema. *)
Lemma argsSchema_rejects w args :
  (∀ props, args = VObj props → ∀ s, field props "criteria" ≠ VStr s) →
  argsSchema_safeParse w args = None.
Proof.
  intros H. destruct args as [| | | | |items|props]; try done.
  simpl. specialize (H props eq_refl).
  destruct (field props "criteria"); try done. by destruct (H s).
Qed.

End ConsistencyFacts.

(** ** The run orchestrator: one unit of work *)

Module UnitFacts.
Import Js Types Actions ActionsSpec.

Section Unit.
Context (w : World) (t e : nat).

Lemma continue_stamped r o k todo acc :
  Forall (λ ev, unitOf ev = Some (t, e)) (continue (w:=w) t e r o k todo acc).2.
Proof. destruct todo; simpl; by repeat constructor. Qed.

Lemma stepCell_stamped c :
  Forall (λ ev, unitOf ev = Some (t, e)) (stepCell w t e c).2.
Proof.
  unfold stepCell. destruct (unit c) as [env vars assertions|o k a rest acc|].
  - destruct (environment_run _ _ _ _ _ _) as [o|]; [|by repeat constructor].
    destruct (truthy _); [by repeat constructor|].
    pose proof (continue_stamped {| pass := pass (result c);
      assertionResults := assertionResults (result c); out := o |} o 0 assertions []) as H.
    destruct (continue _ _ _ _ _ _ _) as [c' evs]. by constructor.
  - apply continue_stamped.
  - constructor.
Qed.

Lemma steps_add n m c :
  steps w t e (n + m) c
  = ((steps w t e m (steps w t e n c).1).1,
     (steps w t e n c).2 ++ (steps w t e m (steps w t e n c).1).2).
Proof.
  revert c. induction n as [|n IH]; intros c; simpl.
  - by destruct (steps w t e m c).
  - destruct (stepCell w t e c) as [c1 evs1]. rewrite IH.
    destruct (steps w t e n c1) as [c2 evs2]. simpl.
    destruct (steps w t e m c2) as [c3 evs3]. simpl. by rewrite (assoc_L (++)).
Qed.

Lemma steps_settled n c : unit c = unit_settled → steps w t e n c = (c, []).
Proof.
  intros Hc. induction n as [|n IH]; simpl; [done|].
  unfold stepCell. rewrite Hc. by rewrite IH.
Qed.

Lemma pending_settled (c : Cell w) : pending c = 0 → unit c = unit_settled.
Proof. unfold pending. by destruct (unit c). Qed.

Lemma pending_continue r o k todo acc :
  pending (continue (w:=w) t e r o k todo acc).1 = length todo.
Proof. by destruct todo. Qed.

Lemma pending_stepCell c : pending (stepCell w t e c).1 ≤ pred (pending c).
Proof.
  unfold stepCell, pending at 2.
  destruct (unit c) as [env vars assertions|o k a rest acc|] eqn:Hc; simpl.
  - destruct (environment_run _ _ _ _ _ _) as [o|]; simpl; [|unfold pending; simpl; lia].
    destruct (truthy _); simpl; [unfold pending; simpl; lia|].
    pose proof (pending_continue {| pass := pass (result c);
      assertionResults := assertionResults (result c); out := o |} o 0 assertions []) as H.
    destruct (continue _ _ _ _ _ _ _) as [c' evs]. simpl in *. lia.
  - rewrite pending_continue. lia.
  - unfold pending. rewrite Hc. lia.
Qed.

(** A unit settles within [pending] resumptions. *)
Lemma steps_pending n c : pending c ≤ n → unit (steps w t e n c).1 = unit_settled.
Proof.
  revert c. induction n as [|n IH]; intros c Hn; simpl.
  - apply pending_settled. lia.
  - pose proof (pending_stepCell c) as Hstep.
    destruct (stepCell w t e c) as [c1 evs1]. simpl in Hstep.
    specialize (IH c1). destruct (steps w t e n c1) as [c2 evs2]. simpl in *.
    apply IH. lia.
Qed.

(** Resumptions beyond the end change nothing: all runs of a unit to its
    end agree. *)
Lemma steps_settled_unique n m c :
  unit (steps w t e n c).1 = unit_settled →
  unit (steps w t e m c).1 = unit_settled →
  steps w t e n c = steps w t e m c.
Proof.
  assert (Hle : ∀ n m, n ≤ m → unit (steps w t e n c).1 = unit_settled →
            steps w t e m c = steps w t e n c).
  { clear n m. intros n m Hnm Hn. replace m with (n + (m - n)) by lia.
    rewrite steps_add, (steps_settled _ _ Hn). simpl.
    rewrite (right_id_L [] (++)). by destruct (steps w t e n c). }
  intros Hn Hm. destruct (decide (n ≤ m)).
  - symmetry. by apply Hle.
  - apply Hle; [lia|done].
Qed.

Lemma continue_steps todo : ∀ r o k acc n,
  length todo ≤ n →
  let '(c, evs) := continue (w:=w) t e r o k todo acc in
  let '(c', evs') := steps w t e n c in
  c' = {| result := {| pass := every_pass (acc ++ ((λ a, run a (output o)) <$> todo));
                       assertionResults := acc ++ ((λ a, run a (output o)) <$> todo);
                       out := out r |};
          unit := unit_settled |}
  ∧ evs ++ evs' = imap (λ i _, AssertionRun t e (k + i) (output o)) todo.
Proof.
  induction todo as [|a rest IH]; intros r o k acc n Hn.
  - simpl. rewrite steps_settled by done. by rewrite (right_id_L [] (++)).
  - simpl in Hn. destruct n as [|n]; [lia|]. simpl.
    unfold stepCell at 1. simpl.
    specialize (IH r o (S k) (acc ++ [run a (output o)]) n ltac:(lia)).
    destruct (continue t e r o (S k) rest _) as [c1 evs1].
    destruct (steps w t e n c1) as [c2 evs2].
    destruct IH as [-> Hevs]. rewrite <- !(assoc_L (++)). simpl.
    split; [done|]. rewrite Hevs, Nat.add_0_r. f_equal.
    apply imap_ext. intros i x _. simpl. f_equal. lia.
Qed.

(** A unit run from its start to its end. *)
Lemma steps_from_start env vars assertions n :
  S (length assertions) ≤ n →
  steps w t e n {| result := initialResult; unit := unit_start env vars assertions |}
  = ({| result := (settledUnit w t e env vars assertions).1; unit := unit_settled |},
     (settledUnit w t e env vars assertions).2).
Proof.
  intros Hn. destruct n as [|n]; [lia|]. simpl.
  unfold stepCell, settledUnit. simpl.
  destruct (environment_run _ _ _ _ _ _) as [o|reason].
  - destruct (truthy (error o)).
    + by rewrite steps_settled.
    + pose proof (continue_steps assertions
        {| pass := false; assertionResults := []; out := o |} o 0 [] n ltac:(lia)) as H.
      destruct (continue _ _ _ _ _ _ _) as [c1 evs1].
      destruct (steps w t e n c1) as [c2 evs2].
      destruct H as [-> Hevs]. simpl. by rewrite Hevs.
  - by rewrite steps_settled.
Qed.
End Unit.

End UnitFacts.

(** ** The run orchestrator: the queue *)

Module QueueFacts.
Import Js Types Actions ActionsSpec UnitFacts.

Lemma filter_all {A} (P : A → Prop) `{!∀ x, Decision (P x)} (l : list A) :
  Forall P l → filter P l = l.
Proof.
  induction 1 as [|x l Hx _ IH]; [done|]. by rewrite filter_cons_True, IH.
Qed.

Lemma filter_none {A} (P : A → Prop) `{!∀ x, Decision (P x)} (l : list A) :
  Forall (λ x, ¬ P x) l → filter P l = [].
Proof.
  induction 1 as [|x l Hx _ IH]; [done|]. by rewrite filter_cons_False.
Qed.

(** Filtering the concatenation of indexed blocks of which one only holds
    elements that pass the filter. *)
Lemma filter_mjoin_imap_none {A B} (P : B → Prop) `{!∀ x, Decision (P x)}
    (l : list A) : ∀ (f : nat → A → list B),
  (∀ j y, l !! j = Some y → filter P (f j y) = []) →
  filter P (mjoin (imap f l)) = [].
Proof.
  induction l as [|y l IH]; intros f Hf; [done|].
  rewrite imap_cons. simpl. rewrite filter_app, (Hf 0 y eq_refl), IH; [done|].
  intros j z Hj. apply (Hf (S j) z Hj).
Qed.

Lemma filter_mjoin_imap {A B} (P : B → Prop) `{!∀ x, Decision (P x)}
    (l : list A) : ∀ (f : nat → A → list B) (i : nat) (x : A),
  l !! i = Some x →
  (∀ j y, l !! j = Some y → j ≠ i → filter P (f j y) = []) →
  filter P (mjoin (imap f l)) = filter P (f i x).
Proof.
  induction l as [|y l IH]; intros f i x Hi Hf; [done|].
  rewrite imap_cons. simpl. rewrite filter_app. destruct i as [|i].
  - injection Hi as ->. rewrite filter_mjoin_imap_none, (right_id_L [] (++)); [done|].
    intros j z Hj. by apply (Hf (S j) z Hj).
  - rewrite (Hf 0 y eq_refl), (IH (f ∘ S) i x Hi); [done| |done].
    intros j z Hj Hne. apply (Hf (S j) z Hj). lia.
Qed.

Section Queue.
Context (w : World).

Lemma cellAt_alter (f : Cell w → Cell w) (cells : Matrix w) t0 e0 t e :
  cellAt (alter (alter f e0) t0 cells) t e
  = if decide ((t, e) = (t0, e0)) then f <$> cellAt cells t e else cellAt cells t e.
Proof.
  unfold cellAt. destruct (decide (t = t0)) as [->|Ht].
  - rewrite list_lookup_alter_eq. destruct (cells !! t0) as [row|]; simpl.
    + destruct (decide (e = e0)) as [->|He].
      * rewrite list_lookup_alter_eq, decide_True; done.
      * rewrite list_lookup_alter_ne, decide_False; [done|congruence|done].
    + by destruct (decide _).
  - rewrite list_lookup_alter_ne, decide_False; [done|congruence|done].
Qed.

Lemma shape_alter (f : Cell w → Cell w) (cells : Matrix w) t0 e0 :
  length <$> alter (alter f e0) t0 cells = length <$> cells.
Proof.
  rewrite (list_fmap_alter length (alter f e0) (λ n, n)).
  - by apply list_alter_id.
  - apply Forall_forall. intros row _. apply length_alter.
Qed.

Lemma unitTrace_app t e tr1 tr2 :
  unitTrace t e (tr1 ++ tr2) = unitTrace t e tr1 ++ unitTrace t e tr2.
Proof. apply filter_app. Qed.

Lemma unitTrace_stamped t e t0 e0 evs :
  Forall (λ ev, unitOf ev = Some (t0, e0)) evs →
  unitTrace t e evs = if decide ((t, e) = (t0, e0)) then evs else [].
Proof.
  intros Hevs. unfold unitTrace. destruct (decide _) as [[= -> ->]|Hne].
  - by apply filter_all.
  - apply filter_none. eapply Forall_impl; [exact Hevs|]. simpl. congruence.
Qed.

Lemma unitTrace_foreign t e evs :
  Forall (λ ev, unitOf ev = None) evs → unitTrace t e evs = [].
Proof.
  intros Hevs. apply filter_none. eapply Forall_impl; [exact Hevs|]. simpl. congruence.
Qed.

Lemma times_cons te te0 schedule :
  times te (te0 :: schedule)
  = if decide (te = te0) then S (times te schedule) else times te schedule.
Proof.
  unfold times. rewrite filter_cons.
  destruct (decide (te0 = te)) as [->|Hne].
  - by rewrite decide_True.
  - rewrite decide_False; [done|congruence].
Qed.

(** Resuming the units as a schedule says: each cell is its unit run as
    often as the schedule names it, and the events of a cell in the trace
    are those of that run. *)
Lemma foldl_resume schedule : ∀ (cells : Matrix w) (tr : list Event),
  let st := foldl (resume w) (cells, tr) schedule in
  length <$> st.1 = length <$> cells
  ∧ (∃ evs, st.2 = tr ++ evs ∧ Forall (λ ev, is_Some (unitOf ev)) evs)
  ∧ ∀ t e,
      cellAt st.1 t e
      = (λ c, (steps w t e (times (t, e) schedule) c).1) <$> cellAt cells t e
      ∧ unitTrace t e st.2
        = unitTrace t e tr
          ++ from_option (λ c, (steps w t e (times (t, e) schedule) c).2) []
               (cellAt cells t e).
Proof.
  induction schedule as [|[t0 e0] schedule IH]; intros cells tr; simpl.
  - split; [done|]. split; [exists []; by rewrite (right_id_L [] (++))|].
    intros t e. split.
    + by destruct (cellAt cells t e).
    + destruct (cellAt cells t e); simpl; by rewrite (right_id_L [] (++)).
  - destruct (cellAt cells t0 e0) as [c0|] eqn:Hc0.
    + pose proof (stepCell_stamped w t0 e0 c0) as Hstamp.
      destruct (stepCell w t0 e0 c0) as [c1 evs1] eqn:Hstep. simpl in Hstamp.
      destruct (IH (alter (alter (λ _, c1) e0) t0 cells) (tr ++ evs1))
        as (Hshape & (evs & Hevs & Hunit) & Hcells).
      split; [by rewrite Hshape, shape_alter|]. split.
      * exists (evs1 ++ evs). rewrite Hevs, (assoc_L (++)). split; [done|].
        apply Forall_app. split; [|done].
        eapply Forall_impl; [exact Hstamp|]. simpl. by intros ev ->.
      * intros t e. destruct (Hcells t e) as [Hcell Htrace].
        rewrite Hcell, Htrace, cellAt_alter, times_cons, unitTrace_app,
          (unitTrace_stamped _ _ _ _ _ Hstamp).
        destruct (decide ((t, e) = (t0, e0))) as [[= -> ->]|Hne].
        -- rewrite Hc0. simpl. rewrite Hstep.
           destruct (steps w t0 e0 _ c1) as [c2 evs2]. simpl.
           by rewrite (assoc_L (++)).
        -- by rewrite (right_id_L [] (++)).
    + destruct (IH cells tr) as (Hshape & Hevs & Hcells).
      split; [done|]. split; [done|].
      intros t e. destruct (Hcells t e) as [Hcell Htrace].
      rewrite Hcell, Htrace, times_cons.
      destruct (decide ((t, e) = (t0, e0))) as [[= -> ->]|Hne]; [|done].
      by rewrite Hc0.
Qed.

Lemma filter_replicate_eq (te te' : nat * nat) n :
  filter (λ x, x = te) (replicate n te') = if decide (te' = te) then replicate n te' else [].
Proof.
  induction n as [|n IH]; simpl; [by destruct (decide _)|].
  rewrite filter_cons, IH. by destruct (decide (te' = te)).
Qed.

(** The backlog names every cell as often as its unit may still need. *)
Lemma times_backlog (cells : Matrix w) t e c :
  cellAt cells t e = Some c → times (t, e) (backlog cells) = pending c.
Proof.
  unfold cellAt, times, backlog. intros Hc.
  destruct (cells !! t) as [row|] eqn:Hrow; [simpl in Hc|done].
  rewrite (filter_mjoin_imap _ cells rowBacklog t row Hrow).
  - unfold rowBacklog.
    rewrite (filter_mjoin_imap _ row (λ e c, replicate (pending c) (t, e)) e c Hc).
    + rewrite filter_replicate_eq, decide_True by done. apply length_replicate.
    + intros j y _ Hj. rewrite filter_replicate_eq, decide_False; [done|congruence].
  - intros j row' _ Hj. unfold rowBacklog. apply filter_mjoin_imap_none.
    intros j' y _. rewrite filter_replicate_eq, decide_False; [done|congruence].
Qed.

(** [completed()]: whatever the schedule, every unit has run to its end,
    the events of a cell are those of its unit, and nothing else
    happened. *)
Lemma completed_settles schedule (cells : Matrix w) :
  let st := completed w schedule cells in
  length <$> st.1 = length <$> cells
  ∧ Forall (λ ev, is_Some (unitOf ev)) st.2
  ∧ ∀ t e c, cellAt cells t e = Some c →
      ∃ n, unit (steps w t e n c).1 = unit_settled
           ∧ cellAt st.1 t e = Some (steps w t e n c).1
           ∧ unitTrace t e st.2 = (steps w t e n c).2.
Proof.
  unfold completed.
  destruct (foldl_resume schedule cells []) as (Hshape1 & (evs1 & Hevs1 & Hunit1) & H1).
  destruct (foldl (resume w) (cells, []) schedule) as [cells1 tr1]. simpl in *.
  destruct (foldl_resume (backlog cells1) cells1 tr1)
    as (Hshape2 & (evs2 & Hevs2 & Hunit2) & H2).
  split; [by rewrite Hshape2|]. split.
  { rewrite Hevs2, Hevs1. by apply Forall_app. }
  intros t e c Hc. destruct (H1 t e) as [Hcell1 Htrace1], (H2 t e) as [Hcell2 Htrace2].
  rewrite Hc in Hcell1, Htrace1. simpl in Hcell1, Htrace1.
  rewrite Hcell1 in Hcell2, Htrace2. simpl in Hcell2, Htrace2.
  rewrite (times_backlog _ _ _ _ Hcell1) in Hcell2, Htrace2.
  set (n1 := times (t, e) schedule) in *.
  set (c1 := (steps w t e n1 c).1) in *.
  exists (n1 + pending c1). rewrite steps_add. simpl. fold c1.
  split; [by apply steps_pending|]. split; [done|].
  by rewrite Htrace2, Htrace1.
Qed.

(** No event is stamped with a cell that is not in the matrix. *)
Lemma completed_foreign schedule (cells : Matrix w) t e :
  cellAt cells t e = None → unitTrace t e (completed w schedule cells).2 = [].
Proof.
  intros Hnone. unfold completed.
  destruct (foldl_resume schedule cells []) as (_ & _ & H1).
  destruct (foldl (resume w) (cells, []) schedule) as [cells1 tr1]. simpl in *.
  destruct (foldl_resume (backlog cells1) cells1 tr1) as (_ & _ & H2).
  destruct (H1 t e) as [Hcell1 Htrace1], (H2 t e) as [_ Htrace2].
  rewrite Hnone in Hcell1, Htrace1. simpl in Hcell1, Htrace1.
  rewrite Hcell1 in Htrace2. simpl in Htrace2.
  by rewrite Htrace2, Htrace1.
Qed.

(** The cells that were enqueued at their start end as [settledUnit]
    says. *)
Lemma completed_from_start schedule (cells : Matrix w) t e env vars assertions :
  cellAt cells t e
    = Some {| result := initialResult; unit := unit_start env vars assertions |} →
  let st := completed w schedule cells in
  result <$> cellAt st.1 t e = Some (settledUnit w t e env vars assertions).1
  ∧ unitTrace t e st.2 = (settledUnit w t e env vars assertions).2.
Proof.
  intros Hc. destruct (completed_settles schedule cells) as (_ & _ & Hcells).
  destruct (Hcells t e _ Hc) as (n & Hsettled & Hcell & Htrace).
  simpl. rewrite Hcell, Htrace.
  rewrite (steps_settled_unique w t e n (S (length assertions))) by
    (first [exact Hsettled | by apply steps_pending]).
  by rewrite steps_from_start.
Qed.

(** The matrix [completed()] leaves does not depend on the schedule: the
    units write to their own cells only. *)
Lemma completed_matrix schedule (cells : Matrix w) :
  (completed w schedule cells).1
  = imap (λ t row, imap (λ e c, (steps w t e (pending c) c).1) row) cells.
Proof.
  destruct (completed_settles schedule cells) as (Hshape & _ & Hcells).
  apply list_eq. intros t. rewrite list_lookup_imap.
  assert (length <$> (completed w schedule cells).1 !! t = length <$> cells !! t) as Hrow
    by (by rewrite <- !list_lookup_fmap, Hshape).
  destruct (cells !! t) as [row|] eqn:Hcellsrow;
    destruct ((completed w schedule cells).1 !! t) as [row'|] eqn:Hrow'; try done.
  simpl in *. f_equal. injection Hrow as Hlen.
  apply list_eq. intros e. rewrite list_lookup_imap.
  destruct (row !! e) as [c|] eqn:Hc; simpl.
  - destruct (Hcells t e c) as (n & Hsettled & Hcell & _).
    { unfold cellAt. by rewrite Hcellsrow. }
    unfold cellAt in Hcell. rewrite Hrow' in Hcell. simpl in Hcell. rewrite Hcell.
    do 2 f_equal. apply steps_settled_unique; [done|]. by apply steps_pending.
  - apply lookup_ge_None. rewrite Hlen. by apply lookup_ge_None.
Qed.
End Queue.

End QueueFacts.

(** ** The run orchestrator: [runTests] *)

Module RunFacts.
Import Js Types Actions ActionsSpec RunInvariants OrchestratorSpec UnitFacts QueueFacts.

Lemma forEach_trace {E A S} (body : S → A → Eff E S) (P : E → Prop) xs :
  (∀ s x, Forall P (body s x).1) → ∀ s, Forall P (forEach body xs s).1.
Proof.
  intros Hbody. induction xs as [|x xs IH]; intros s; simpl; [constructor|].
  specialize (Hbody s x). destruct (body s x) as [tr [s'|err]]; simpl in *; [|done].
  specialize (IH s'). destruct (forEach body xs s') as [tr' r]. simpl in *.
  by apply Forall_app.
Qed.

(** [bind m f = (trace, Ok b)]: split into what [m] and [f] did. *)
Tactic Notation "eff_inv" hyp(H) "as" ident(tr) ident(tr') ident(x) ident(Hx) :=
  apply bind_ok_inv in H as (tr & tr' & x & Hx & H & ->).

Section Run.
Context (w : World).

(** *** The loop over the providers *)

Lemma addProvider_paired globalPrompts provider envs runEnvs envs' runEnvs' :
  paired w envs runEnvs →
  snd (addProvider w globalPrompts (envs, runEnvs) provider) = Ok (envs', runEnvs') →
  paired w envs' runEnvs'.
Proof.
  intros Hpaired. unfold addProvider. rewrite bind_outcome_ok. intros ([] & _ & H).
  apply bind_outcome_ok in H as (model & Hmodel & H). simpl in Hmodel.
  revert H. generalize (match provider with
                        | provider_object _ (Some prompts) => prompts
                        | _ => globalPrompts
                        end). intros prompts H.
  revert H. apply (forEach_invariant _ (λ _ acc, paired w acc.1 acc.2)); [done|].
  intros _ prompt [envs1 runEnvs1] [envs2 runEnvs2] Hacc [= <- <-]. simpl in *.
  apply Forall2_app; [done|]. by repeat constructor.
Qed.

Lemma addProvider_trace globalPrompts acc provider :
  Forall preludeEvent (addProvider w globalPrompts acc provider).1.
Proof.
  unfold addProvider. simpl. destruct (getProvider w _) as [model|]; simpl;
    [|by repeat constructor].
  match goal with
  | |- context [forEach ?body ?xs ?s] =>
      pose proof (forEach_trace body preludeEvent xs) as H; specialize (H ltac:(by intros [] ?) s);
      destruct (forEach body xs s) as [tr r]
  end.
  simpl in *. by constructor.
Qed.

Lemma providers_paired globalPrompts globalProviders envs runEnvs :
  snd (forEach (addProvider w globalPrompts) globalProviders ([], []))
    = Ok (envs, runEnvs) →
  paired w envs runEnvs.
Proof.
  apply (forEach_invariant _ (λ _ acc, paired w acc.1 acc.2) globalProviders ([], [])
           ltac:(constructor)).
  intros _ provider [envs1 runEnvs1] [envs2 runEnvs2] Hacc Hstep.
  by eapply addProvider_paired.
Qed.

(** *** The loops over the tests and the environments *)

Lemma getAssertions_length t e vars specs assertions :
  snd (forEach (λ acc a,
                  bind (emit (GetAssertion t e (length acc)))
                    (λ _, bind (lift (getAssertion w t e a vars))
                            (λ assertion, ret (acc ++ [assertion]))))
               specs []) = Ok assertions →
  length assertions = length specs.
Proof.
  apply (forEach_invariant _ (λ done acc, length acc = length done)); [done|].
  intros done a acc acc' Hacc. rewrite bind_outcome_ok. intros ([] & _ & H).
  apply bind_outcome_ok in H as (assertion & _ & [= <-]).
  rewrite !length_app, Hacc. done.
Qed.

Lemma enqueueCell_row t test done row env row' :
  rowEnqueued w test done row →
  snd (enqueueCell w t test row env) = Ok row' →
  rowEnqueued w test (done ++ [env]) row'.
Proof.
  intros [Hlen Hrow]. unfold enqueueCell. rewrite bind_outcome_ok.
  intros (assertions & Hassertions & H).
  apply bind_outcome_ok in H as ([] & _ & [= <-]).
  apply getAssertions_length in Hassertions.
  split; [by rewrite !length_app, Hlen|].
  intros e c [[He Hc]|[-> <-]]%lookup_snoc_Some.
  - destruct (Hrow e c Hc) as (env' & assertions' & Henv & -> & Hl).
    exists env', assertions'. by rewrite lookup_app_l by (by eapply lookup_lt_Some).
  - exists env, assertions. split; [|done].
    by rewrite Hlen, list_lookup_middle.
Qed.

Lemma enqueueTest_matrix envs done cells test cells' :
  matrixEnqueued w done envs cells →
  snd (enqueueTest w envs cells test) = Ok cells' →
  matrixEnqueued w (done ++ [test]) envs cells'.
Proof.
  intros [Hlen Hcells]. unfold enqueueTest. rewrite bind_outcome_ok.
  intros (row & Hrow & [= <-]).
  assert (rowEnqueued w test envs row) as Hnew.
  { revert Hrow. apply (forEach_invariant _ (rowEnqueued w test)).
    - split; [done|]. by intros e c Hc.
    - intros done' env row1 row2. apply enqueueCell_row. }
  split; [by rewrite !length_app, Hlen|].
  intros t row' [[Ht Hrow']|[-> <-]]%lookup_snoc_Some.
  - destruct (Hcells t row' Hrow') as (test' & Htest & Hok).
    exists test'. by rewrite lookup_app_l by (by eapply lookup_lt_Some).
  - exists test. by rewrite Hlen, list_lookup_middle.
Qed.

Lemma tests_enqueued envs globalTests cells :
  snd (forEach (enqueueTest w envs) globalTests []) = Ok cells →
  matrixEnqueued w globalTests envs cells.
Proof.
  apply (forEach_invariant _ (λ done cells, matrixEnqueued w done envs cells)).
  - split; [done|]. by intros t row Hrow.
  - intros done test cells1 cells2. apply enqueueTest_matrix.
Qed.

Lemma enqueueCell_trace t test row env :
  Forall preludeEvent (enqueueCell w t test row env).1.
Proof.
  unfold enqueueCell.
  match goal with
  | |- context [forEach ?body ?xs ?s] =>
      pose proof (forEach_trace body preludeEvent xs) as H;
      destruct (forEach body xs s) as [tr [assertions|]] eqn:Hloop; simpl
  end.
  - specialize (H ltac:(intros s x; simpl; destruct (getAssertion w _ _ _ _);
                        by repeat constructor) []).
    rewrite Hloop in H. simpl in H. apply Forall_app. split; [done|].
    by repeat constructor.
  - specialize (H ltac:(intros s x; simpl; destruct (getAssertion w _ _ _ _);
                        by repeat constructor) []).
    by rewrite Hloop in H.
Qed.

Lemma enqueueTest_trace envs cells test :
  Forall preludeEvent (enqueueTest w envs cells test).1.
Proof.
  unfold enqueueTest.
  pose proof (forEach_trace (enqueueCell w (length cells) test) preludeEvent envs
                (enqueueCell_trace _ _) []) as H.
  destruct (forEach _ envs []) as [tr [row|]]; simpl in *; [|done].
  by rewrite (right_id_L [] (++)).
Qed.

(** *** The assertions of the cells *)

Lemma getAssertions_made t e vars specs assertions :
  snd (forEach (λ acc a,
                  bind (emit (GetAssertion t e (length acc)))
                    (λ _, bind (lift (getAssertion w t e a vars))
                            (λ assertion, ret (acc ++ [assertion]))))
               specs []) = Ok assertions →
  Forall2 (λ spec a, getAssertion w t e spec vars = Ok a) specs assertions.
Proof.
  apply (forEach_invariant _ (λ done acc,
           Forall2 (λ spec a, getAssertion w t e spec vars = Ok a) done acc));
    [constructor|].
  intros done a acc acc' Hacc. rewrite bind_outcome_ok. intros ([] & _ & H).
  apply bind_outcome_ok in H as (assertion & Hmade & [= <-]).
  apply Forall2_app; [done|]. by repeat constructor.
Qed.

Lemma enqueueCell_made t test row env row' :
  snd (enqueueCell w t test row env) = Ok row' →
  ∃ assertions,
    row' = row ++ [ {| result := initialResult;
                       unit := unit_start env (default ∅ (vars test)) assertions |} ]
    ∧ assertionsOf w t (length row) test assertions.
Proof.
  unfold enqueueCell. rewrite bind_outcome_ok. intros (assertions & Hassertions & H).
  apply bind_outcome_ok in H as ([] & _ & [= <-]).
  exists assertions. split; [done|]. by apply getAssertions_made.
Qed.

Lemma enqueueTest_made tests0 envs cells test cells' :
  length cells = length tests0 →
  madeFor w tests0 cells →
  snd (enqueueTest w envs cells test) = Ok cells' →
  madeFor w (tests0 ++ [test]) cells'.
Proof.
  intros Hlen Hcells. unfold enqueueTest. rewrite bind_outcome_ok.
  intros (row & Hrow & [= <-]).
  assert (∀ e c env vars assertions,
            row !! e = Some c → unit c = unit_start env vars assertions →
            assertionsOf w (length cells) e test assertions) as Hnew.
  { revert Hrow.
    apply (forEach_invariant _ (λ (_ : list (Environment w)) (row : list (Cell w)),
             ∀ e c env vars assertions,
               row !! e = Some c → unit c = unit_start env vars assertions →
               assertionsOf w (length cells) e test assertions)).
    - by intros e c env vars assertions ?.
    - intros _ env row1 row2 Hrow1 (assertions & -> & Hmade)%enqueueCell_made.
      intros e c env' vars' assertions' [[He Hc]|[-> <-]]%lookup_snoc_Some Hunit.
      + by eapply Hrow1.
      + simpl in Hunit. by injection Hunit as _ _ <-. }
  intros t e row' c env vars assertions [[Ht Hrow']|[-> <-]]%lookup_snoc_Some Hc Hunit.
  - destruct (Hcells _ _ _ _ _ _ _ Hrow' Hc Hunit) as (test' & Htest & Hmade).
    exists test'. split; [|done]. by apply lookup_app_l_Some.
  - exists test. split; [by rewrite Hlen, list_lookup_middle|]. by eapply Hnew.
Qed.

Lemma tests_made envs tests0 cells :
  snd (forEach (enqueueTest w envs) tests0 []) = Ok cells →
  madeFor w tests0 cells.
Proof.
  intros H.
  cut (length cells = length tests0 ∧ madeFor w tests0 cells); [by intros []|].
  revert H.
  apply (forEach_invariant _ (λ done cells,
           length cells = length done ∧ madeFor w done cells)).
  - split; [done|]. by intros t e row c env vars assertions ?.
  - intros done test cells1 cells2 [Hlen Hmade] Hstep. split.
    + unfold enqueueTest in Hstep. apply bind_outcome_ok in Hstep as (row & _ & [= <-]).
      by rewrite !length_app, Hlen.
    + by eapply enqueueTest_made.
Qed.

(** *** The notification statements *)

Lemma askPermission_trace : (askPermission w).1 = [].
Proof.
  unfold askPermission. destruct (grantedAtStart w) as [[]|]; simpl; [done| |done].
  by destruct (requestPermission w).
Qed.

Lemma notifyCompletion_trace : (notifyCompletion w).1 = [].
Proof.
  unfold notifyCompletion. destruct (visibleAtEnd w); simpl; [done|].
  destruct (grantedAtEnd w) as [[]|]; simpl; [|done|done].
  by destruct (newNotification w).
Qed.

(** The final notification throws only when the page is hidden: for want
    of a [Notification] to ask for the permission, or in the constructor
    once the permission is found granted. *)
Lemma notifyCompletion_throw e :
  (notifyCompletion w).2 = Throw e →
  visibleAtEnd w = false
  ∧ (grantedAtEnd w = Throw e
     ∨ grantedAtEnd w = Ok true ∧ newNotification w = Throw e).
Proof.
  unfold notifyCompletion. destruct (visibleAtEnd w); simpl; [done|].
  destruct (grantedAtEnd w) as [[]|e']; simpl; [|done|].
  - destruct (newNotification w) as [|e']; simpl; [done|]. intros [= ->]. auto.
  - intros [= ->]. auto.
Qed.

(** *** What a run that went through is made of *)

Lemma runTests_ok configStore storageStore schedule trace run :
  runTests w configStore storageStore schedule = (trace, Ok run) →
  ∃ config envs cells prelude,
    (configStore = Some config
     ∨ ∃ storage, storageStore = Some storage ∧ getConfig storage = Ok config)
    ∧ run_tests run = globalTests config
    ∧ paired w envs (Actions.envs run)
    ∧ matrixEnqueued w (run_tests run) envs cells
    ∧ madeFor w (run_tests run) cells
    ∧ results run = (λ row : list (Cell w), result <$> row) <$> (completed w schedule cells).1
    ∧ Forall preludeEvent prelude
    ∧ trace = prelude ++ (completed w schedule cells).2 ++ epilogue run.
Proof.
  unfold runTests. destruct configStore as [config0|]; [|done].
  destruct storageStore as [storage|]; [|done]. intros H.
  eff_inv H as tr0 rest0 u0 H0. injection H0 as <-.
  eff_inv H as tr1 rest1 latestConfig Hlatest.
  eff_inv H as tr2 rest2 same Hsame.
  eff_inv H as tr3 rest3 config Hconfig.
  assert ((config = config0 ∨ config = latestConfig) ∧ Forall preludeEvent tr3)
    as [Hwhich Htr3].
  { destruct same.
    - injection Hconfig as <- <-. by split; [left|constructor].
    - destruct (showPrompt w); simpl in Hconfig; injection Hconfig as <- <-;
        (split; [by auto|by repeat constructor]). }
  eff_inv H as trA restA uA HA. injection HA as <-.
  eff_inv H as trB restB uB HB. injection HB as <-.
  eff_inv H as tr4 rest4 acc Hproviders. destruct acc as [envs runEnvs].
  eff_inv H as trP restP uP HP.
  assert (trP = []) as -> by (by rewrite <- askPermission_trace, HP).
  eff_inv H as trC restC uC HC. injection HC as <-.
  eff_inv H as tr5 rest5 cells Hcells.
  destruct (completed w schedule cells) as [settled unitEvents] eqn:Hcompleted.
  eff_inv H as tr6 rest6 u6 H6. injection H6 as <-.
  eff_inv H as tr7 rest7 u7 H7. injection H7 as <-.
  eff_inv H as tr8 rest8 u8 H8. injection H8 as <-.
  eff_inv H as tr9 rest9 u9 H9. injection H9 as <-.
  eff_inv H as tr10 rest10 u10 H10. injection H10 as <-.
  eff_inv H as tr11 rest11 u11 H11. injection H11 as <-.
  eff_inv H as trN restN uN HN.
  assert (trN = []) as -> by (by rewrite <- notifyCompletion_trace, HN).
  injection H as <- <-. simpl.
  unfold lift in Hlatest, Hsame. injection Hlatest as <- Hlatest. injection Hsame as <- _.
  exists config, envs, cells,
    (StorageGetConfig :: tr3 ++ [NewProviderManager; NewParallelTaskQueue 5] ++ tr4
       ++ [NewAssertionManager] ++ tr5).
  rewrite Hcompleted. simpl.
  split; [destruct Hwhich as [-> | ->]; eauto|]. split; [done|].
  split; [eapply providers_paired; by rewrite Hproviders|].
  split; [apply tests_enqueued; by rewrite Hcells|].
  split; [apply tests_made with envs; by rewrite Hcells|].
  split; [done|]. split.
  - assert (Forall preludeEvent tr4) as Htr4.
    { pose proof (forEach_trace (addProvider w (default [] (prompts config)))
                    preludeEvent (default [] (providers config))
                    (λ s x, addProvider_trace _ s x) ([], [])) as Hp.
      by rewrite Hproviders in Hp. }
    assert (Forall preludeEvent tr5) as Htr5.
    { pose proof (forEach_trace (enqueueTest w envs) preludeEvent (globalTests config)
                    (enqueueTest_trace envs) []) as Hp.
      by rewrite Hcells in Hp. }
    repeat (first [ apply Forall_cons_2; [exact I|]
                  | apply Forall_app_2; [assumption|]
                  | assumption ]).
  - simpl. repeat (rewrite <- !(assoc_L (++)); simpl). done.
Qed.

(** The run that [runTests] returns does not depend on the order in which
    the queue resumed the units. *)
Lemma runTests_schedule_irrelevant configStore storageStore schedule schedule' :
  snd (runTests w configStore storageStore schedule)
  = snd (runTests w configStore storageStore schedule').
Proof.
  unfold runTests. destruct configStore as [config0|]; [|done].
  destruct storageStore as [storage|]; [|done].
  do 6 (apply bind_outcome_ext; intros ? _).
  apply bind_outcome_ext. intros [envs runEnvs] _.
  do 2 (apply bind_outcome_ext; intros _ _).
  apply bind_outcome_ext. intros cells _.
  rewrite (surjective_pairing (completed w schedule cells)),
    (surjective_pairing (completed w schedule' cells)), !completed_matrix.
  by rewrite !bind_outcome.
Qed.
End Run.

End RunFacts.

(** ** The run orchestrator: the properties of the specification *)

Module RunProperties.
Import Js Types Actions ActionsSpec SampleRuns RunInvariants OrchestratorSpec.
Import UnitFacts QueueFacts RunFacts.

Lemma preludeEvent_foreign t e evs :
  Forall preludeEvent evs → unitTrace t e evs = [].
Proof.
  intros H. apply unitTrace_foreign. eapply Forall_impl; [exact H|].
  by intros [].
Qed.

Lemma imap_index {A B} (f : nat → B) (l : list A) :
  imap (λ k _, f k) l = f <$> seq 0 (length l).
Proof.
  revert f. induction l as [|x l IH]; intros f; [done|].
  rewrite imap_cons. simpl. f_equal. rewrite <- fmap_S_seq, <- list_fmap_compose.
  apply (IH (f ∘ S)).
Qed.

(** Every cell of a run that went through is the settled unit of its test
    and its environment, with the assertions made from the assert list of
    the test, and its events in the trace are that unit's. *)
Lemma run_cell w configStore storageStore schedule trace run t e test provider prompt :
  runTests w configStore storageStore schedule = (trace, Ok run) →
  run_tests run !! t = Some test →
  envs run !! e = Some (provider, prompt) →
  ∃ env assertions,
    getProvider w (providerId provider) = Ok (env_model env)
    ∧ env_prompt env = prompt
    ∧ assertionsOf w t e test assertions
    ∧ results run !! t ≫= (λ row, row !! e)
      = Some (settledUnit w t e env (default ∅ (vars test)) assertions).1
    ∧ unitTrace t e trace
      = (settledUnit w t e env (default ∅ (vars test)) assertions).2.
Proof.
  intros Hrun Htest Henv.
  destruct (runTests_ok w _ _ _ _ _ Hrun)
    as (config & envs & cells & prelude & _ & _ & Hpaired & [Hlen Hcells] & Hmade
        & Hresults & Hprelude & ->).
  destruct (Forall2_lookup_r _ _ _ _ _ Hpaired Henv) as (env & Henv' & Hprompt & Hmodel).
  destruct (lookup_lt_is_Some_2 cells t) as [row Hrow].
  { rewrite Hlen. by eapply lookup_lt_Some. }
  destruct (Hcells t row Hrow) as (test' & Htest' & Hrowlen & Hrowcells).
  assert (test' = test) as -> by congruence.
  destruct (lookup_lt_is_Some_2 row e) as [c Hc].
  { rewrite Hrowlen. by eapply lookup_lt_Some. }
  destruct (Hrowcells e c Hc) as (env' & assertions & Henv'' & -> & _).
  assert (env' = env) as -> by congruence.
  destruct (Hmade _ _ _ _ _ _ _ Hrow Hc eq_refl) as (test' & Htest'' & Hassertions).
  assert (test' = test) as -> by congruence.
  exists env, assertions. split; [done|]. split; [done|]. split; [done|].
  destruct (completed_from_start w schedule cells t e env (default ∅ (vars test)) assertions)
    as [Hcell Htrace].
  { unfold cellAt. by rewrite Hrow. }
  split.
  - rewrite Hresults, list_lookup_fmap. unfold cellAt in Hcell.
    destruct ((completed w schedule cells).1 !! t) as [row'|]; [|done]. simpl in *.
    by rewrite list_lookup_fmap.
  - rewrite !unitTrace_app, Htrace, (preludeEvent_foreign _ _ _ Hprelude).
    assert (unitTrace t e (epilogue run) = []) as -> by reflexivity.
    by rewrite (right_id_L [] (++)).
Qed.

Lemma sampleRun_outcome : sampleRun = (sampleTrace, Ok sampleReturned).
Proof. vm_compute. reflexivity. Qed.

Lemma brokenRun_outcome : brokenRun = (brokenTrace, Ok brokenReturned).
Proof. vm_compute. reflexivity. Qed.

(** The matrix is tests by environments. *)
Lemma run_shape w configStore storageStore schedule trace run :
  runTests w configStore storageStore schedule = (trace, Ok run) →
  length (results run) = length (run_tests run)
  ∧ Forall (λ row, length row = length (envs run)) (results run).
Proof.
  intros Hrun.
  destruct (runTests_ok w _ _ _ _ _ Hrun)
    as (config & envs & cells & prelude & _ & _ & Hpaired & [Hlen Hcells] & _ & Hresults
        & _ & ->).
  destruct (completed_settles w schedule cells) as (Hshape & _ & _).
  assert (length <$> results run = length <$> cells) as Hrows.
  { rewrite Hresults, <- Hshape, <- list_fmap_compose. apply list_fmap_ext.
    intros i row _. simpl. apply length_fmap. }
  split.
  - rewrite <- Hlen, <- (length_fmap length (results run)), Hrows. apply length_fmap.
  - apply Forall_lookup. intros t row Hrow.
    assert ((length <$> results run) !! t = Some (length row)) as Hl
      by (by rewrite list_lookup_fmap, Hrow).
    rewrite Hrows, list_lookup_fmap in Hl.
    destruct (cells !! t) as [row0|] eqn:Hrow0; [|done]. injection Hl as <-.
    destruct (Hcells t row0 Hrow0) as (test & _ & -> & _).
    by eapply Forall2_length.
Qed.

Lemma run_ends_with_addRun w configStore storageStore schedule trace run :
  runTests w configStore storageStore schedule = (trace, Ok run) →
  last trace = Some (AddRun run).
Proof.
  intros Hrun.
  destruct (runTests_ok w _ _ _ _ _ Hrun)
    as (config & envs & cells & prelude & _ & _ & _ & _ & _ & _ & _ & ->).
  rewrite !(assoc_L (++)). unfold epilogue.
  change [Completed; Destroy; RunStoreUpdate; SelectedRunIdSet; AddRun run]
    with ([Completed; Destroy; RunStoreUpdate; SelectedRunIdSet] ++ [AddRun run]).
  rewrite (assoc_L (++)). apply last_snoc.
Qed.

(** C2.  The matrix of a run that went through has one row per test and,
    in every row, one cell per environment pair; that run is the one given
    to the storage, in the last call that the orchestrator makes to its
    collaborators (the notification statement alone follows). *)
Theorem results_matrix_is_tests_by_envs
    (w : World) (configStore : option Config) (storageStore : option Storage)
    (schedule : list (nat * nat)) (trace : list Event) (run : Run) :
  runTests w configStore storageStore schedule = (trace, Ok run) →
  length (results run) = length (run_tests run)
  ∧ Forall (λ row, length row = length (envs run)) (results run)
  ∧ last trace = Some (AddRun run).
Proof.
  intros Hrun. destruct (run_shape _ _ _ _ _ _ Hrun) as [Hrows Hcols].
  split; [exact Hrows|]. split; [exact Hcols|].
  by eapply run_ends_with_addRun.
Qed.

Lemma results_matrix_is_tests_by_envs_witness :
  length (results sampleReturned) = 1
  ∧ Forall (λ row, length row = 2) (results sampleReturned).
Proof.
  destruct (results_matrix_is_tests_by_envs _ _ _ _ _ _ sampleRun_outcome)
    as (Hrows & Hcols & _).
  split; [exact Hrows|exact Hcols].
Defined.



Lemma rowRun_outcome : rowRun = (rowTrace, Ok rowReturned).
Proof. vm_compute. reflexivity. Qed.

(** An element that occurs once splits a list in one way only. *)
Lemma split_at_unique {A} (x : A) (l1 l2 l1' l2' : list A) :
  x ∉ l1 → x ∉ l2 → l1 ++ x :: l2 = l1' ++ x :: l2' → l1' = l1 ∧ l2' = l2.
Proof.
  intros H1 H2. revert l1' H1.
  induction l1 as [|y l1 IH]; intros [|y' l1'] H1; simpl.
  - by intros [= <-].
  - intros [= <- ->]. exfalso. apply H2, elem_of_app. right. by left.
  - intros [= -> _]. exfalso. apply H1. by left.
  - intros [= <- Heq]. apply not_elem_of_cons in H1 as [_ H1].
    destruct (IH l1' H1 Heq) as [-> ->]. done.
Qed.

(** The events of a unit are stamped with a cell of the matrix, and an
    assertion is run on the output of that cell alone. *)
Lemma assertion_run_of_a_cell w configStore storageStore schedule trace run t e k input :
  runTests w configStore storageStore schedule = (trace, Ok run) →
  AssertionRun t e k input ∈ trace →
  ∃ test provider prompt model o,
    run_tests run !! t = Some test
    ∧ envs run !! e = Some (provider, prompt)
    ∧ getProvider w (providerId provider) = Ok model
    ∧ environment_run w t e model prompt (default ∅ (vars test)) = resolved o
    ∧ input = output o.
Proof.
  intros Hrun Hin.
  assert (AssertionRun t e k input ∈ unitTrace t e trace) as Hin'
    by (by apply list_elem_of_filter).
  destruct (runTests_ok w _ _ _ _ _ Hrun)
    as (config & envs & cells & prelude & _ & _ & Hpaired & [Hlen Hcells] & _ & _
        & Hprelude & Htrace).
  destruct (cellAt cells t e) as [c|] eqn:Hc.
  - unfold cellAt in Hc. destruct (cells !! t) as [row|] eqn:Hrow; [simpl in Hc|done].
    destruct (Hcells t row Hrow) as (test & Htest & Hrowlen & _).
    destruct (lookup_lt_is_Some_2 (Actions.envs run) e) as [[provider prompt] Henv].
    { rewrite <- (Forall2_length _ _ _ Hpaired), <- Hrowlen. by eapply lookup_lt_Some. }
    destruct (run_cell _ _ _ _ _ _ _ _ _ _ _ Hrun Htest Henv)
      as (env & assertions & Hmodel & <- & _ & _ & Hunit).
    exists test, provider, (env_prompt env), (env_model env).
    rewrite Hunit in Hin'. unfold settledUnit in Hin'.
    destruct (environment_run w t e (env_model env) (env_prompt env) (default ∅ (vars test)))
      as [o|reason]; [|by apply list_elem_of_singleton in Hin'].
    destruct (truthy (error o)); [by apply list_elem_of_singleton in Hin'|].
    exists o. repeat (split; [done|]).
    apply elem_of_cons in Hin' as [[=]|Hin'].
    apply elem_of_lookup_imap in Hin' as (i & a & [= _ ->] & _). done.
  - exfalso. rewrite Htrace, !unitTrace_app, (preludeEvent_foreign _ _ _ Hprelude),
      (completed_foreign w schedule cells t e Hc) in Hin'.
    by apply elem_of_nil in Hin'.
Qed.

(** A run that went through ends with its epilogue, and the queue has
    completed once. *)
Lemma run_completed_once w configStore storageStore schedule trace run :
  runTests w configStore storageStore schedule = (trace, Ok run) →
  ∃ before, trace = before ++ epilogue run ∧ Completed ∉ before.
Proof.
  intros Hrun.
  destruct (runTests_ok w _ _ _ _ _ Hrun)
    as (config & envs & cells & prelude & _ & _ & _ & _ & _ & _ & Hprelude & ->).
  destruct (completed_settles w schedule cells) as (_ & Hunits & _).
  exists (prelude ++ (completed w schedule cells).2).
  split; [by rewrite (assoc_L (++))|].
  intros [Hin|Hin]%elem_of_app.
  - by apply (proj1 (Forall_forall _ _) Hprelude) in Hin.
  - apply (proj1 (Forall_forall _ _) Hunits) in Hin. by destruct Hin.
Qed.

(** Of a list of parts the row assertion makes as many results without
    output. *)
Lemma contribution_of_parts (parts : list OutputPart) :
  Consistency.contribution <$> (RowCall.partAsResult <$> parts)
  = replicate (length parts) [].
Proof. induction parts as [|part parts IH]; [done|]. simpl. by rewrite <- IH. Qed.

(** C3.  [runTests] has no step for row assertions.  Once the queue has
    completed it invokes no assertion at all: it destroys the assertion
    manager, updates the stores and hands the run to the storage.  Every
    invocation of an assertion, of whatever type, is made in the unit of
    work of one cell, before the queue has completed and with the output of
    that cell alone.  So in no run with a row assertion is that assertion
    invoked once after [completed()], as the specification states.  And the
    row assertion of [createConsistencyAssertion] cannot do with what it is
    handed there: on a string, and on no output, it throws before the rubric
    is run; of a list of parts it makes as many results without output, and
    returns a vector of that length where the unit expects one Assertion
    Result. *)
Theorem row_assertions_are_handed_single_cells :
  (∀ (w : World) (configStore : option Config) (storageStore : option Storage)
     (schedule : list (nat * nat)) (trace : list Event) (run : Run),
     runTests w configStore storageStore schedule = (trace, Ok run) →
     (∃ before,
        trace = before ++ epilogue run
        ∧ (Completed ∉ before)
        ∧ (∀ t e k input, AssertionRun t e k input ∈ trace →
             AssertionRun t e k input ∈ before))
     ∧ (∀ t e k input, AssertionRun t e k input ∈ trace →
          ∃ test provider prompt model o,
            run_tests run !! t = Some test
            ∧ envs run !! e = Some (provider, prompt)
            ∧ getProvider w (providerId provider) = Ok model
            ∧ environment_run w t e model prompt (default ∅ (vars test)) = resolved o
            ∧ input = output o)
     ∧ (∀ t test k spec,
          run_tests run !! t = Some test →
          default [] (assert test) !! k = Some spec →
          rowAssertion spec →
          ¬ invoked_once_after_completed run trace))
  ∧ (∀ (cw : Consistency.World) (args : Value) (testVars : gmap string Value)
       (made : list (Consistency.Event (Consistency.Model cw)))
       (assertion : Consistency.RowAssertionProvider cw),
       Consistency.createConsistencyAssertion cw args testVars = (made, Ok assertion) →
       RowCall.runOnOutput assertion None
       = ([], Throw "TypeError: Cannot read properties of undefined (reading 'map')")
       ∧ (∀ s, RowCall.runOnOutput assertion (Some (output_string s))
               = ([], Throw "TypeError: results.map is not a function"))
       ∧ (∀ parts, ∃ model template criteria,
            (RowCall.runOnOutput assertion (Some (output_parts parts))).1
            = [Consistency.RubricRun model template
                 (Consistency.rubricVars criteria testVars (replicate (length parts) []))]
            ∧ ∀ rs, (RowCall.runOnOutput assertion (Some (output_parts parts))).2 = Ok rs →
                    length rs = length parts)).
Proof.
  split.
  - intros w configStore storageStore schedule trace run Hrun.
    destruct (run_completed_once _ _ _ _ _ _ Hrun) as (before & Htrace & Hbefore).
    split; [|split].
    + exists before. split; [done|]. split; [done|].
      intros t e k input. rewrite Htrace. intros [Hin|Hin]%elem_of_app; [done|].
      unfold epilogue in Hin.
      repeat (apply elem_of_cons in Hin as [[=]|Hin]). by apply elem_of_nil in Hin.
    + intros t e k input. by apply (assertion_run_of_a_cell _ _ _ _ _ _ _ _ _ _ Hrun).
    + intros t test k spec Htest Hspec Hrow Hstated.
      destruct (Hstated t test k spec Htest Hspec Hrow) as (b & a & Heq & _ & Hafter).
      rewrite Htrace in Heq. unfold epilogue in Heq.
      apply split_at_unique in Heq as [_ ->]; [|done|].
      * rewrite filter_none in Hafter by (repeat constructor; by intros []). done.
      * intros Hin. repeat (apply elem_of_cons in Hin as [[=]|Hin]).
        by apply elem_of_nil in Hin.
  - intros cw args testVars made assertion Hmade.
    destruct (ConsistencyFacts.createConsistencyAssertion_run _ _ _ _ _ Hmade)
      as (parsedArgs & model & template & _ & Hrun).
    split; [done|]. split; [done|].
    intros parts. exists model, template, (Consistency.criteria parsedArgs).
    unfold RowCall.runOnOutput. rewrite Hrun. split.
    + by rewrite ConsistencyFacts.run_results_trace, contribution_of_parts.
    + rewrite ConsistencyFacts.run_results_outcome.
      destruct (Consistency.drain _) as [result|]; [|done]. simpl.
      destruct (negb _); simpl.
      * intros rs [= <-]. by rewrite ConsistencyFacts.length_fill, length_fmap.
      * destruct (Consistency.assertionResultSchema cw _);
          intros rs [= <-]; by rewrite ConsistencyFacts.length_fill, length_fmap.
Qed.

Lemma row_assertions_are_handed_single_cells_witness :
  rowRun = (rowTrace, Ok rowReturned)
  ∧ default [] (assert rowTest) !! 0 = Some consistencyAssertion
  ∧ ¬ invoked_once_after_completed rowReturned rowTrace
  ∧ ∃ assertion,
      (Consistency.createConsistencyAssertion
         (ConsistencySpec.rubricWorld ConsistencySpec.silentRubric)
         ConsistencySpec.sampleArgs ∅).2 = Ok assertion
      ∧ RowCall.runOnOutput assertion (Some (output_string "same"))
        = ([], Throw "TypeError: results.map is not a function").
Proof.
  destruct row_assertions_are_handed_single_cells as [Hruns Hcalls].
  split; [exact rowRun_outcome|]. split; [reflexivity|]. split.
  - destruct (Hruns offlineWorld _ _ _ _ _ rowRun_outcome) as (_ & _ & Hnever).
    apply (Hnever 0 rowTest 0 consistencyAssertion); reflexivity.
  - destruct (Consistency.createConsistencyAssertion
                (ConsistencySpec.rubricWorld ConsistencySpec.silentRubric)
                ConsistencySpec.sampleArgs ∅) as [made [assertion|]] eqn:Hmade;
      [|discriminate Hmade].
    exists assertion. split; [reflexivity|].
    destruct (Hcalls _ _ _ _ _ Hmade) as (_ & Hstring & _). apply Hstring.
Defined.

(** C6.  With a [defaultTest], the test at each index of the run is the
    merge of the defaults into the configured test at that index: a
    variable has the value the test gives it, or else the value the
    defaults give it, and the assert list is the defaults' list followed by
    the test's.  Without a [defaultTest] the tests are the configured
    ones, unchanged.  The tests of a run are those of the configuration in
    the store or of the one just read from the storage. *)
Theorem defaults_are_merged_into_every_test (config : Config) :
  (∀ d, defaultTest config = Some d →
     length (globalTests config) = length (default [] (tests config))
     ∧ ∀ i test, default [] (tests config) !! i = Some test →
         ∃ merged mergedVars,
           globalTests config !! i = Some merged
           ∧ vars merged = Some mergedVars
           ∧ (∀ key, mergedVars !! key
                     = match default ∅ (vars test) !! key with
                       | Some v => Some v
                       | None => default ∅ (vars d) !! key
                       end)
           ∧ assert merged = Some (default [] (assert d) ++ default [] (assert test)))
  ∧ (defaultTest config = None → globalTests config = default [] (tests config))
  ∧ (∀ w storage schedule trace run,
       runTests w (Some config) (Some storage) schedule = (trace, Ok run) →
       run_tests run = globalTests config
       ∨ ∃ latest, getConfig storage = Ok latest ∧ run_tests run = globalTests latest).
Proof.
  split; [|split].
  - intros d Hd. unfold globalTests. rewrite Hd. split; [apply length_fmap|].
    intros i test Htest. exists (mergeTest d test), (default ∅ (vars test) ∪ default ∅ (vars d)).
    rewrite list_lookup_fmap, Htest. repeat split.
    intros key. rewrite lookup_union.
    destruct (default ∅ (vars test) !! key), (default ∅ (vars d) !! key); done.
  - intros Hd. unfold globalTests. by rewrite Hd.
  - intros w storage schedule trace run Hrun.
    destruct (runTests_ok w _ _ _ _ _ Hrun)
      as (config' & _ & _ & _ & [[= <-]|(storage' & [= <-] & Hlatest)] & Htests & _).
    + by left.
    + right. by exists config'.
Qed.

Lemma defaults_are_merged_into_every_test_witness :
  ∃ merged,
    globalTests brokenConfig = [merged]
    ∧ (∃ mergedVars, vars merged = Some mergedVars
                     ∧ mergedVars !! "topic" = Some (VStr "San Francisco")
                     ∧ mergedVars !! "tone" = Some (VStr "dry"))
    ∧ type <$> default [] (assert merged) = ["contains"; "equals"].
Proof.
  destruct (defaults_are_merged_into_every_test brokenConfig) as [Hmerge _].
  destruct (Hmerge sampleDefault eq_refl) as [Hlen Hat].
  destruct (Hat 0 sampleTest eq_refl) as (merged & mergedVars & Hmerged & Hvars & Hkeys & Hassert).
  exists merged. split.
  - destruct (globalTests brokenConfig) as [|m [|m' rest]]; try discriminate Hlen.
    injection Hmerged as ->. reflexivity.
  - split.
    + exists mergedVars. split; [exact Hvars|]. rewrite !Hkeys. split; reflexivity.
    + rewrite Hassert. reflexivity.
Defined.

(** C7.  [runTests] called without a configuration, or without a storage,
    throws at once: nothing has happened before, no provider was asked for
    and no unit was enqueued.  [createConsistencyAssertion] called with
    arguments that fail the schema throws at once: no provider was asked
    for and the rubric was not run. *)
Theorem configuration_errors_are_thrown_before_any_call :
  (∀ w storageStore schedule,
     runTests w None storageStore schedule
     = ([], Throw "Cannot call runTests without a config"))
  ∧ (∀ w config schedule,
       runTests w (Some config) None schedule
       = ([], Throw "Cannot call runTests without a storage"))
  ∧ (∀ w args testVars,
       Consistency.argsSchema_safeParse w args = None →
       Consistency.createConsistencyAssertion w args testVars
       = ([], Throw "Invalid LLM Rubric arguments")).
Proof.
  split; [done|]. split; [done|].
  intros w args testVars. apply ConsistencyFacts.createConsistencyAssertion_invalid.
Qed.

Lemma configuration_errors_are_thrown_before_any_call_witness :
  Consistency.createConsistencyAssertion
    (ConsistencySpec.rubricWorld ConsistencySpec.silentRubric)
    (VObj [("prompt", VStr "Compare {{output}}")]) ∅
  = ([], Throw "Invalid LLM Rubric arguments")
  ∧ runTests sampleWorld None (Some (storageOf sampleConfig)) []
    = ([], Throw "Cannot call runTests without a config")
  ∧ runTests sampleWorld (Some sampleConfig) None []
    = ([], Throw "Cannot call runTests without a storage").
Proof.
  destruct configuration_errors_are_thrown_before_any_call as (Hconfig & Hstorage & Hargs).
  split; [|split].
  - apply Hargs. reflexivity.
  - apply Hconfig.
  - apply Hstorage.
Defined.

(** C9.  [deepEquals] does not decide structural equality of plain data.
    It returns true on an empty sequence and an empty map, and on a sequence
    and the map of its indices, since it compares own keys only; it throws,
    instead of returning false, when a map or a sequence stands where the
    other value has [null].  So a configuration in which an empty sequence
    became an empty map is taken for unchanged: [runTests] does not ask and
    runs the tests of the configuration it had. *)
Theorem deepEquals_takes_a_sequence_for_a_map :
  JsSpec.plain (VArr []) ∧ JsSpec.plain (VObj [])
  ∧ deepEquals (VArr []) (VObj []) = Ok true
  ∧ ¬ JsSpec.structurallyEqual (VArr []) (VObj [])
  ∧ ¬ JsSpec.deepEquals_decides_equality (VArr []) (VObj [])
  ∧ deepEquals (VArr [VStr "p"]) (VObj [("0", VStr "p")]) = Ok true
  ∧ deepEquals (VObj [("vars", VObj [])]) (VObj [("vars", VNull)])
    = Throw "TypeError: Cannot convert undefined or null to object"
  ∧ deepEquals (configValue (itemsConfig (VArr []))) (configValue (itemsConfig (VObj [])))
    = Ok true
  ∧ existsb isShowPrompt staleRun.1 = false
  ∧ run_tests (returned staleRun.2) = [itemsTest (VArr [])].
Proof.
  split; [by repeat constructor|]. split; [by repeat constructor|].
  split; [reflexivity|]. split; [apply JsFacts.sequence_is_no_map|].
  split.
  { intros [[Htrue _] _]. by apply (JsFacts.sequence_is_no_map [] []), Htrue. }
  repeat split; vm_compute; reflexivity.
Qed.

End RunProperties.

(** * More properties of the code *)

(** ** [deepEquals]: what it computes, and when it throws *)

Module JsProperties.
Import Js JsSpec JsShape JsFacts.

Lemma keys_of_indexed (items : list Value) :
  (indexed items).*1 = pretty <$> seq 0 (length items).
Proof.
  unfold indexed. rewrite fmap_imap.
  rewrite <- (RunProperties.imap_index (A:=Value) pretty items).
  by apply imap_ext.
Qed.

Lemma NoDup_keys_indexed (items : list Value) : NoDup (indexed items).*1.
Proof.
  rewrite keys_of_indexed. apply (NoDup_fmap_2 _). apply NoDup_seq.
Qed.

Lemma elem_of_indexed key x (items : list Value) : (key, x) ∈ indexed items → x ∈ items.
Proof.
  unfold indexed. intros (i & y & [= _ ->] & Hy)%elem_of_lookup_imap.
  by eapply list_elem_of_lookup_2.
Qed.

Lemma assoc_is_Some key (ps : list (string * Value)) :
  key ∈ ps.*1 → is_Some (assoc key ps).
Proof.
  induction ps as [|[k v] ps IH]; [by intros ?%elem_of_nil|].
  rewrite fmap_cons. simpl. case_bool_decide; [by eauto|].
  intros [?|Hin]%elem_of_cons; [by subst|]. by apply IH.
Qed.

Lemma entries_typeof v ps : entries v = Some ps → typeof v = TObject.
Proof. by destruct v. Qed.

Lemma entries_keys v ps : entries v = Some ps → Object_keys v = Ok ps.*1.
Proof. destruct v; try done; by intros [= <-]. Qed.

Lemma entries_get v ps key : entries v = Some ps → get v key = default VUndefined (assoc key ps).
Proof. destruct v; try done; by intros [= <-]. Qed.

(** A value of type object whose keys can be listed has properties. *)
Lemma keys_entries v keys :
  typeof v = TObject → Object_keys v = Ok keys → ∃ ps, entries v = Some ps ∧ keys = ps.*1.
Proof. destruct v; try done; intros _ [= <-]; by eexists. Qed.

Lemma plain_entries v ps :
  plain v → entries v = Some ps → NoDup ps.*1 ∧ Forall (λ p, plain p.2) ps.
Proof.
  intros Hv. inversion Hv as [| | | |xs Hxs|qs Hnodup Hqs]; subst; try done.
  - intros [= <-]. split; [apply NoDup_keys_indexed|].
    apply Forall_forall. intros [key x] Hin%elem_of_indexed.
    by apply (proj1 (Forall_forall _ _) Hxs).
  - by intros [= <-].
Qed.

(** The loop over the indices of a sequence is the loop over its
    properties. *)
Lemma everyIndex_everyProp rec keysB b (items : list Value) : ∀ i,
  everyIndex rec keysB b i items
  = everyProp rec keysB b (imap (λ j x, (pretty (i + j), x)) items).
Proof.
  induction items as [|x items IH]; intros i; [done|].
  rewrite imap_cons. simpl. rewrite Nat.add_0_r. f_equal.
  rewrite IH. f_equal. apply imap_ext. intros j y _. simpl. do 2 f_equal. lia.
Qed.

(** [deepEquals(a, b)] when [a] is a sequence or a map. *)
Lemma deepEquals_entries a b ps :
  entries a = Some ps →
  deepEquals a b
  = if negb (bool_decide (typeof b = TObject)) then Ok false
    else match Object_keys b with
         | Throw e => Throw e
         | Ok keysB =>
             if negb (bool_decide (length ps = length keysB)) then Ok false
             else everyProp deepEquals keysB b ps
         end.
Proof.
  destruct a as [| | | | |items|props]; try done; intros [= <-].
  - destruct b; try reflexivity; simpl; rewrite ?length_indexed;
      destruct (negb _); try reflexivity; apply (everyIndex_everyProp _ _ _ _ 0).
  - destruct b; reflexivity.
Qed.

Section Loops.
Context (rec : Value → Value → Result bool) (keysB : list string) (b : Value).

Lemma everyProp_true_inv rest :
  everyProp rec keysB b rest = Ok true →
  ∀ key x, (key, x) ∈ rest → key ∈ keysB ∧ rec x (get b key) = Ok true.
Proof.
  induction rest as [|[k v] rest IH]; simpl; [by intros _ ? ? ?%elem_of_nil|].
  unfold compareKey, includes. case_bool_decide as Hk; simpl; [|done].
  destruct (rec v (get b k)) as [[]|] eqn:Hv; try done.
  intros Hrest key x [[= -> ->]|Hin]%elem_of_cons; [done|]. by apply IH.
Qed.

Lemma everyProp_ok rest :
  (∀ key x, (key, x) ∈ rest → ∃ r, rec x (get b key) = Ok r) →
  ∃ r, everyProp rec keysB b rest = Ok r.
Proof.
  induction rest as [|[k v] rest IH]; intros Hrest; simpl; [by eauto|].
  unfold compareKey. destruct (negb _); [by eauto|].
  destruct (Hrest k v) as [[] ->]; [by left| |by eauto].
  apply IH. intros key x Hin. apply Hrest. by right.
Qed.

Lemma everyProp_throw rest e :
  everyProp rec keysB b rest = Throw e →
  ∃ key x, (key, x) ∈ rest ∧ rec x (get b key) = Throw e.
Proof.
  induction rest as [|[k v] rest IH]; simpl; [done|].
  unfold compareKey. destruct (negb _); [done|].
  destruct (rec v (get b k)) as [[]|e'] eqn:Hv.
  - intros (key & x & Hin & Hx)%IH. exists key, x. split; [by right|done].
  - done.
  - intros [= ->]. exists k, v. split; [by left|done].
Qed.
End Loops.

(** With the same number of keys, keys that are all keys of the other side
    are all its keys. *)
Lemma same_keys (ks ks' : list string) :
  NoDup ks → (∀ key, key ∈ ks → key ∈ ks') → length ks = length ks' →
  ∀ key, key ∈ ks ↔ key ∈ ks'.
Proof.
  intros Hnodup Hsub Hlen key.
  assert (ks ≡ₚ ks') as ->; [|done].
  apply submseteq_length_Permutation; [by apply NoDup_submseteq|lia].
Qed.

(** One level of the comparison, given that the comparison of the values
    stored in [a] is as stated. *)
Lemma deepEquals_alike_entries a ps :
  entries a = Some ps → NoDup ps.*1 →
  Forall (λ p, ∀ b, plain b → deepEquals p.2 b = Ok true ↔ alike p.2 b) ps →
  ∀ b, plain b → deepEquals a b = Ok true ↔ alike a b.
Proof.
  intros Ha Hnodup IH b Hb. rewrite (deepEquals_entries _ _ _ Ha). split.
  - case_bool_decide as Htype; simpl; [|done].
    destruct (Object_keys b) as [keysB|] eqn:Hkeys; [|done].
    destruct (keys_entries _ _ Htype Hkeys) as (qs & Hqs & ->).
    case_bool_decide as Hlen; simpl; [|done]. intros Hloop.
    pose proof (everyProp_true_inv _ _ _ _ Hloop) as Hall.
    destruct (plain_entries _ _ Hb Hqs) as [_ Hplain].
    eapply alike_entries; [done|done| |].
    + apply same_keys; [done| |by rewrite length_fmap].
      intros key ([k x] & -> & Hin)%list_elem_of_fmap. by apply (Hall k x).
    + intros key x Hx%assoc_Some_elem.
      destruct (Hall key x Hx) as [Hkey Heq].
      destruct (assoc_is_Some _ _ Hkey) as [y Hy].
      rewrite (entries_get _ _ _ Hqs), Hy in Heq. simpl in Heq.
      exists y. split; [done|].
      apply (proj1 (Forall_forall _ _) IH (key, x) Hx); [|done].
      by apply (proj1 (Forall_forall _ _) Hplain (key, y)), assoc_Some_elem.
  - intros Halike. inversion Halike as [? Hnone|? ? ps' qs Hps Hqs Hsame Hvalues]; subst.
    { by rewrite Ha in Hnone. }
    assert (ps' = ps) as -> by congruence.
    destruct (plain_entries _ _ Hb Hqs) as [Hnodup' Hplain].
    rewrite (entries_typeof _ _ Hqs), (entries_keys _ _ Hqs).
    rewrite bool_decide_eq_true_2 by done. simpl.
    assert (length ps = length qs.*1) as ->.
    { rewrite <- (length_fmap fst ps). apply Permutation_length.
      by apply NoDup_Permutation. }
    rewrite bool_decide_eq_true_2 by done. simpl.
    apply JsFacts.everyProp_true. intros key x Hin.
    split; [apply Hsame, list_elem_of_fmap; by exists (key, x)|].
    destruct (Hvalues key x (assoc_NoDup _ _ _ Hnodup Hin)) as (y & Hy & Hxy).
    rewrite (entries_get _ _ _ Hqs), Hy. simpl.
    apply (proj1 (Forall_forall _ _) IH (key, x) Hin); [|done].
    by apply (proj1 (Forall_forall _ _) Hplain (key, y)), assoc_Some_elem.
Qed.

Lemma alike_scalar_inv a b : entries a = None → alike a b → b = a.
Proof. intros Ha H. inversion H; subst; [done|congruence]. Qed.

Lemma deepEquals_alike a :
  plain a → ∀ b, plain b → deepEquals a b = Ok true ↔ alike a b.
Proof.
  induction a as [| |x|n|s|items IH|props IH] using Value_nested_ind; intros Ha.
  - inversion Ha.
  - intros b _. split.
    + destruct b; try done. intros _. by constructor.
    + intros ->%alike_scalar_inv; done.
  - intros b _. split.
    + destruct b as [| |y| | | |]; try done. simpl. case_bool_decide; [|done].
      subst. intros _. by constructor.
    + intros ->%alike_scalar_inv; [|done]. simpl. by rewrite bool_decide_eq_true_2.
  - inversion Ha as [| |z| | |]; subst. intros b _. split.
    + destruct b as [| | |[z'|]| | |]; try done. simpl. case_bool_decide; [|done].
      subst. intros _. by constructor.
    + intros ->%alike_scalar_inv; [|done]. simpl. by rewrite bool_decide_eq_true_2.
  - intros b _. split.
    + destruct b as [| | | |s'| |]; try done. simpl. case_bool_decide; [|done].
      subst. intros _. by constructor.
    + intros ->%alike_scalar_inv; [|done]. simpl. by rewrite bool_decide_eq_true_2.
  - destruct (plain_entries _ _ Ha eq_refl) as [Hnodup Hplain].
    apply (deepEquals_alike_entries (VArr items) (indexed items) eq_refl Hnodup).
    apply Forall_forall. intros [key x] Hin. simpl.
    apply (proj1 (Forall_forall _ _) IH x (elem_of_indexed _ _ _ Hin)).
    by apply (proj1 (Forall_forall _ _) Hplain (key, x)).
  - destruct (plain_entries _ _ Ha eq_refl) as [Hnodup Hplain].
    apply (deepEquals_alike_entries (VObj props) props eq_refl Hnodup).
    apply Forall_forall. intros [key x] Hin. simpl.
    apply (proj1 (Forall_forall _ _) IH (key, x) Hin).
    by apply (proj1 (Forall_forall _ _) Hplain (key, x)).
Qed.


Lemma alike_sym a : ∀ b, alike a b → alike b a.
Proof.
  assert (∀ a ps, entries a = Some ps →
            Forall (λ p, ∀ b, alike p.2 b → alike b p.2) ps →
            ∀ b, alike a b → alike b a) as Hstep.
  { intros a0 ps Ha IH b H. inversion H as [? Hnone|? ? ps' qs Hps Hqs Hsame Hvalues]; subst.
    { by constructor. }
    assert (ps' = ps) as -> by congruence.
    eapply alike_entries; [done|done|by intros key; rewrite Hsame|].
    intros key y Hy.
    assert (key ∈ ps.*1) as [x Hx]%assoc_is_Some.
    { apply Hsame, list_elem_of_fmap. exists (key, y). by split; [|apply assoc_Some_elem]. }
    destruct (Hvalues key x Hx) as (y' & Hy' & Hxy).
    assert (y' = y) as -> by congruence.
    exists x. split; [done|].
    by apply (proj1 (Forall_forall _ _) IH (key, x) (assoc_Some_elem _ _ _ Hx)). }
  induction a as [| |x|n|s|items IH|props IH] using Value_nested_ind;
    try (intros b ->%alike_scalar_inv; [by constructor|done]).
  - apply (Hstep (VArr items) (indexed items) eq_refl).
    apply Forall_forall. intros [key x] Hin. simpl.
    apply (proj1 (Forall_forall _ _) IH x (elem_of_indexed _ _ _ Hin)).
  - by apply (Hstep (VObj props) props eq_refl).
Qed.

Lemma nullFree_get b key : nullFree b = true → nullFree (get b key) = true.
Proof.
  destruct b as [| | | | |items|props]; try done; simpl.
  - rewrite forallb_forall. intros Hitems.
    destruct (assoc key (indexed items)) as [x|] eqn:Hx; [|done]. simpl.
    apply Hitems, list_elem_of_In. eapply elem_of_indexed. by apply assoc_Some_elem.
  - rewrite forallb_forall. intros Hprops.
    destruct (assoc key props) as [x|] eqn:Hx; [|done]. simpl.
    apply (Hprops (key, x)), list_elem_of_In. by apply assoc_Some_elem.
Qed.

Lemma deepEquals_scalar a b : entries a = None → ∃ r, deepEquals a b = Ok r.
Proof.
  destruct a; try done; intros _; destruct b; simpl; try (by eauto);
    first [case_bool_decide | destruct (numberEquals _ _)]; by eauto.
Qed.

Lemma deepEquals_ok a : ∀ b, nullFree b = true → ∃ r, deepEquals a b = Ok r.
Proof.
  assert (∀ a ps, entries a = Some ps →
            Forall (λ p, ∀ b, nullFree b = true → ∃ r, deepEquals p.2 b = Ok r) ps →
            ∀ b, nullFree b = true → ∃ r, deepEquals a b = Ok r) as Hstep.
  { intros a0 ps Ha IH b Hb. rewrite (deepEquals_entries _ _ _ Ha).
    case_bool_decide as Htype; simpl; [|by eauto].
    destruct (Object_keys b) as [keysB|] eqn:Hkeys; [|by destruct b].
    destruct (negb _); [by eauto|].
    apply everyProp_ok. intros key x Hin.
    apply (proj1 (Forall_forall _ _) IH (key, x) Hin). by apply nullFree_get. }
  induction a as [| |x|n|s|items IH|props IH] using Value_nested_ind;
    try (intros b _; by apply deepEquals_scalar).
  - apply (Hstep (VArr items) (indexed items) eq_refl).
    apply Forall_forall. intros [key x] Hin. simpl.
    apply (proj1 (Forall_forall _ _) IH x (elem_of_indexed _ _ _ Hin)).
  - by apply (Hstep (VObj props) props eq_refl).
Qed.

Lemma deepEquals_throw a : ∀ b e, deepEquals a b = Throw e → e = typeError.
Proof.
  assert (∀ a ps, entries a = Some ps →
            Forall (λ p, ∀ b e, deepEquals p.2 b = Throw e → e = typeError) ps →
            ∀ b e, deepEquals a b = Throw e → e = typeError) as Hstep.
  { intros a0 ps Ha IH b e. rewrite (deepEquals_entries _ _ _ Ha).
    case_bool_decide as Htype; simpl; [|done].
    destruct (Object_keys b) as [keysB|e'] eqn:Hkeys.
    - destruct (negb _); [done|].
      intros (key & x & Hin & Hx)%everyProp_throw.
      by apply (proj1 (Forall_forall _ _) IH (key, x) Hin _ _ Hx).
    - intros [= ->]. destruct b; try done; by injection Hkeys as <-. }
  induction a as [| |x|n|s|items IH|props IH] using Value_nested_ind;
    [intros b e He; destruct (deepEquals_scalar VUndefined b eq_refl) as [r Hr]; congruence
    |intros b e He; destruct (deepEquals_scalar VNull b eq_refl) as [r Hr]; congruence
    |intros b e He; destruct (deepEquals_scalar (VBool x) b eq_refl) as [r Hr]; congruence
    |intros b e He; destruct (deepEquals_scalar (VNum n) b eq_refl) as [r Hr]; congruence
    |intros b e He; destruct (deepEquals_scalar (VStr s) b eq_refl) as [r Hr]; congruence
    | | ].
  - apply (Hstep (VArr items) (indexed items) eq_refl).
    apply Forall_forall. intros [key x] Hin. simpl.
    apply (proj1 (Forall_forall _ _) IH x (elem_of_indexed _ _ _ Hin)).
  - by apply (Hstep (VObj props) props eq_refl).
Qed.

(** Solves [plain v] for a value that is written out. *)
Ltac plain_value :=
  repeat first [ apply (bool_decide_unpack _); vm_compute; exact I
               | constructor; simpl ].

(** X1.  What [deepEquals] computes on plain data, which holds neither
    [undefined] nor [NaN]: it returns true on [a] and [b] exactly when the
    two are alike, that is, the same scalar, or two values with the same
    keys and alike values under every key, where a sequence has its indices
    as keys.  The order of the keys of a map plays no part, and neither does
    the difference between a sequence and a map with the same keys.  [NaN]
    is found different from every value, itself included. *)
Theorem deepEquals_is_true_on_alike_values (a b : Value) :
  (plain a → plain b → deepEquals a b = Ok true ↔ alike a b)
  ∧ deepEquals (VNum NaN) b = Ok false
  ∧ deepEquals a (VNum NaN) = Ok false.
Proof.
  split; [|split].
  - intros Ha Hb. revert b Hb. by apply deepEquals_alike.
  - by destruct b.
  - by destruct a as [| | |[]| | |].
Qed.

Lemma deepEquals_is_true_on_alike_values_witness :
  (deepEquals (VObj [("a", VArr [VNum 1]); ("b", VStr "x")])
              (VObj [("b", VStr "x"); ("a", VObj [("0", VNum 1)])]) = Ok true
   ↔ alike (VObj [("a", VArr [VNum 1]); ("b", VStr "x")])
           (VObj [("b", VStr "x"); ("a", VObj [("0", VNum 1)])]))
  ∧ deepEquals (VNum NaN) (VNum NaN) = Ok false.
Proof.
  destruct (deepEquals_is_true_on_alike_values
              (VObj [("a", VArr [VNum 1]); ("b", VStr "x")])
              (VObj [("b", VStr "x"); ("a", VObj [("0", VNum 1)])])) as [Halike _].
  destruct (deepEquals_is_true_on_alike_values (VNum NaN) (VNum NaN)) as (_ & Hnan & _).
  split; [|exact Hnan]. apply Halike.
  - plain_value.
  - plain_value.
Defined.

(** X2.  [deepEquals] throws only on [null]: when no [null] stands anywhere
    in [b], the comparison of any [a] with [b] returns a boolean; and
    whenever it throws, [b] holds a [null] and the exception is the
    [TypeError] of [Object.keys]. *)
Theorem deepEquals_throws_only_on_null (a b : Value) :
  (nullFree b = true → ∃ r, deepEquals a b = Ok r)
  ∧ (∀ e, deepEquals a b = Throw e → e = typeError ∧ nullFree b = false).
Proof.
  split; [apply deepEquals_ok|].
  intros e He. split; [by eapply deepEquals_throw|].
  destruct (nullFree b) eqn:Hb; [|done].
  destruct (deepEquals_ok a b Hb) as [r Hr]. by rewrite Hr in He.
Qed.

Lemma deepEquals_throws_only_on_null_witness :
  (∃ r, deepEquals (VObj [("vars", VObj [("a", VNull)])]) (VObj [("vars", VArr [])]) = Ok r)
  ∧ nullFree (VObj [("vars", VNull)]) = false.
Proof.
  split.
  - apply (deepEquals_throws_only_on_null
             (VObj [("vars", VObj [("a", VNull)])]) (VObj [("vars", VArr [])])).
    reflexivity.
  - destruct (deepEquals_throws_only_on_null
                (VObj [("vars", VObj [])]) (VObj [("vars", VNull)])) as [_ Hthrow].
    destruct (Hthrow typeError eq_refl) as [_ Hnull]. exact Hnull.
Defined.

(** X3.  On plain data the answer true does not depend on which of the two
    configurations is the one in the store and which the one on disk: if
    [deepEquals(a, b)] is true, so is [deepEquals(b, a)]. *)
Theorem deepEquals_true_is_symmetric (a b : Value) :
  plain a → plain b → deepEquals a b = Ok true → deepEquals b a = Ok true.
Proof.
  intros Ha Hb H. apply (deepEquals_alike b Hb a Ha), alike_sym.
  by apply (deepEquals_alike a Ha b Hb).
Qed.

Lemma deepEquals_true_is_symmetric_witness :
  deepEquals (VObj [("0", VStr "p")]) (VArr [VStr "p"]) = Ok true.
Proof.
  apply (deepEquals_true_is_symmetric (VArr [VStr "p"]) (VObj [("0", VStr "p")])).
  - plain_value.
  - plain_value.
  - reflexivity.
Defined.

End JsProperties.

(** ** More on the trace monad *)

Section EffTraces.
Context {E : Type}.

Lemma bind_trace {A B} (m : Eff E A) (f : A → Eff E B) :
  fst (bind m f) = match snd m with
                   | Ok a => fst m ++ fst (f a)
                   | Throw _ => fst m
                   end.
Proof. destruct m as [tr [a|e]]; simpl; [|done]. by destruct (f a). Qed.

Lemma bind_throw_inv {A B} (m : Eff E A) (f : A → Eff E B) tr e :
  bind m f = (tr, Throw e) →
  m = (tr, Throw e)
  ∨ ∃ tr1 tr2 a, m = (tr1, Ok a) ∧ f a = (tr2, Throw e) ∧ tr = tr1 ++ tr2.
Proof.
  destruct m as [tr1 [a|e1]]; simpl.
  - destruct (f a) as [tr2 r] eqn:Hf. intros [= <- ->]. right. by exists tr1, tr2, a.
  - intros [= <- <-]. by left.
Qed.
End EffTraces.

(** ** The openai-responses provider: the stream, the session and the output *)

Module ProviderProperties.
Import OpenAiResponses ProviderSpec StreamSpec ProviderFacts.

Lemma append_cons x (a b : string) : String x a +:+ b = String x (a +:+ b).
Proof. reflexivity. Qed.

Lemma append_empty_l (a : string) : "" +:+ a = a.
Proof. reflexivity. Qed.

Lemma append_assoc (a b c : string) : (a +:+ b) +:+ c = a +:+ (b +:+ c).
Proof.
  induction a as [|x a IH]; [by rewrite !append_empty_l|].
  by rewrite !append_cons, IH.
Qed.

Lemma append_empty_r (a : string) : a +:+ "" = a.
Proof. induction a as [|x a IH]; [done|]. by rewrite append_cons, IH. Qed.

(** The fragments that the loop yields. *)
Lemma loop_yields events : ∀ st,
  fst (forEach onEvent events st) = omap deltaOf (untilFault events).
Proof.
  induction events as [|value events IH]; intros st; [done|].
  simpl. rewrite bind_trace.
  destruct value; simpl; try done; by rewrite IH.
Qed.

(** The text that the loop has put together when it ends. *)
Lemma loop_fullText events : ∀ st tr st',
  forEach onEvent events st = (tr, Ok st') →
  fullText st' = fullText st +:+ concat tr.
Proof.
  induction events as [|value events IH]; intros st tr st'; simpl.
  - intros [= <- <-]. by rewrite append_empty_r.
  - intros (tr1 & tr2 & st1 & H1 & H2 & ->)%bind_ok_inv.
    rewrite (IH _ _ _ H2).
    destruct value; simpl in H1; try done; injection H1 as <- <-; simpl;
      by rewrite ?append_assoc.
Qed.

(** X4.  The generator yields the empty string first and then one fragment
    for every text or refusal delta of the stream, in the order of the
    stream, the empty string for a delta that is null or absent; events of
    other types yield nothing, and nothing is yielded for the events that
    follow the first one on which the generator throws. *)
Theorem generator_yields_the_deltas_in_order
    (messages : list ResponseMessage) (events : list SsePayload) :
  fst (runModel messages (Body events)) = "" :: omap deltaOf (untilFault events).
Proof.
  unfold runModel. rewrite !bind_trace. simpl. f_equal.
  rewrite <- (loop_yields events {| fullText := ""; finalResponseJson := None |}).
  destruct (forEach onEvent events _) as [tr [st|e]]; simpl; [|done].
  destruct (finalResponseJson st); simpl; by rewrite (right_id_L [] (++)).
Qed.

(** The fragments of a loop that went through: every delta of the stream. *)
Lemma loop_yields_all events : ∀ st tr st',
  forEach onEvent events st = (tr, Ok st') → tr = omap deltaOf events.
Proof.
  induction events as [|value events IH]; intros st tr st'; cbn [forEach].
  - by intros [= <- _].
  - intros (tr1 & tr2 & st1 & H1 & H2 & ->)%bind_ok_inv.
    apply IH in H2 as ->.
    destruct value; simpl in H1; try done; by injection H1 as <- _.
Qed.

(** What a run that returns is made of. *)
Lemma runModel_returned messages http yields res :
  runModel messages http = (yields, Ok res) →
  ∃ events,
    http = Body events
    ∧ yields = "" :: omap deltaOf events
    ∧ session res
      = messages ++ [reply (default (concat yields) (output_text (response res)))].
Proof.
  unfold runModel.
  intros (tr0 & rest0 & [] & [= <-] & H & ->)%bind_ok_inv.
  apply bind_ok_inv in H as (tr1 & rest1 & events & Hhttp & H & ->).
  assert (http = Body events ∧ tr1 = []) as [-> ->].
  { destruct http; try done. by injection Hhttp as <- <-. }
  apply bind_ok_inv in H as (tr2 & rest2 & st & Hloop & H & ->).
  pose proof (loop_yields_all _ _ _ _ Hloop) as ->.
  apply loop_fullText in Hloop. simpl in Hloop.
  destruct (finalResponseJson st) as [parsed|]; [|done].
  injection H as <- <-. exists events. split; [done|]. simpl.
  rewrite (right_id_L [] (++)). split; [done|]. by rewrite Hloop.
Qed.

(** X5.  A run that returns has yielded the empty string and then every
    delta of the stream, and it extends the messages of the request by
    exactly one assistant message.  The content of that message is the
    [output_text] of the completed payload when that field is present, even
    when it is the empty string, and otherwise the fragments the generator
    yielded, put together in order. *)
Theorem session_grows_by_the_reply
    (messages : list ResponseMessage) (http : Http)
    (yields : list string) (res : RunResult) :
  runModel messages http = (yields, Ok res) →
  (∃ events, http = Body events ∧ yields = "" :: omap deltaOf events)
  ∧ take (length messages) (session res) = messages
  ∧ drop (length messages) (session res)
    = [reply (default (concat yields) (output_text (response res)))].
Proof.
  intros (events & -> & -> & ->)%runModel_returned.
  split; [by exists events|].
  by rewrite take_app_length, drop_app_length.
Qed.

Lemma session_grows_by_the_reply_witness :
  ∃ yields res,
    runModel sampleSession (Body sampleStream) = (yields, Ok res)
    ∧ yields = [""; "par"; ""; "tial"]
    ∧ session res = sampleSession ++ [reply "final text"].
Proof.
  destruct (runModel sampleSession (Body sampleStream)) as [yields [res|]] eqn:Hrun;
    [|discriminate Hrun].
  exists yields, res. split; [reflexivity|].
  destruct (session_grows_by_the_reply _ _ _ _ Hrun) as (_ & Htake & Hdrop).
  rewrite <- (take_drop (length sampleSession) (session res)), Htake, Hdrop.
  injection Hrun as <- <-. split; reflexivity.
Defined.


(** What [run] returns: the request built from the merged messages, and the
    generator that closes over them. *)
Lemma run_inv {File} (fileToBase64 : File → Result string) model0 options0
    sessionState conversation request generator :
  run fileToBase64 model0 options0 sessionState conversation = Ok (request, generator) →
  ∃ newMessages,
    conversationToResponses fileToBase64 conversation = Ok newMessages
    ∧ input request
      = (λ m, {| role := role m; content := content m; type := Some message |})
          <$> mergeMessages (default [] sessionState) newMessages
    ∧ generator = runModel (mergeMessages (default [] sessionState) newMessages).
Proof.
  unfold run.
  destruct (conversationToResponses fileToBase64 conversation) as [newMessages|]; [|done].
  intros [= <- <-]. by exists newMessages.
Qed.

Lemma new_roles {File} (fileToBase64 : File → Result string) conversation newMessages :
  conversationToResponses fileToBase64 conversation = Ok newMessages →
  role <$> newMessages = turn_role <$> conversation.
Proof.
  intros H. eapply promiseAll_fmap; [|exact H]. intros x y. apply turnToResponse_role.
Qed.

(** X6.  A run that continues the session of an earlier run sends the
    earlier request again, message by message, then the assistant reply that
    the earlier run recorded, and then the turns of the new conversation
    that are no system turns. *)
Theorem continued_session_replays_the_request {File}
    (fileToBase64 : File → Result string) (model0 : string)
    (options0 : list (string * Js.Value)) (sessionState : option (list ResponseMessage))
    (first second : list (Turn (File:=File)))
    (request1 request2 : Request) (generator1 generator2 : Http → Eff string RunResult)
    (http : Http) (yields : list string) (res : RunResult) :
  run fileToBase64 model0 options0 sessionState first = Ok (request1, generator1) →
  generator1 http = (yields, Ok res) →
  run fileToBase64 model0 options0 (Some (session res)) second = Ok (request2, generator2) →
  ∃ new,
    input request2
    = input request1
      ++ reply (default (concat yields) (output_text (response res))) :: new
    ∧ role <$> new = filter (λ r, r ≠ system) (turn_role <$> second)
    ∧ Forall (λ m, type m = Some message) new.
Proof.
  intros (new1 & _ & Hinput1 & ->)%run_inv Hgen (new2 & Hconv2 & Hinput2 & _)%run_inv.
  apply runModel_returned in Hgen as (events & _ & _ & Hgen).
  set (retag := λ m : ResponseMessage, {| role := role m; content := content m;
                                          type := Some message |}) in *.
  exists (retag <$> filter (λ m, role m ≠ system) new2).
  rewrite Hinput2, Hinput1, Hgen. simpl. unfold mergeMessages at 1.
  rewrite <- (assoc_L (++)), !fmap_app. simpl. split; [done|]. split.
  - rewrite <- list_fmap_compose.
    change (role ∘ retag) with (role : ResponseMessage → Role).
    by rewrite filter_role_fmap, (new_roles _ _ _ Hconv2).
  - apply Forall_fmap, Forall_forall. by intros m _.
Qed.

Lemma continued_session_replays_the_request_witness :
  ∃ request1 generator1 yields res request2 generator2,
    run noFiles "gpt-test" [] None sampleConversation = Ok (request1, generator1)
    ∧ generator1 (Body sampleStream) = (yields, Ok res)
    ∧ run noFiles "gpt-test" [] (Some (session res)) sampleConversation
      = Ok (request2, generator2)
    ∧ role <$> input request1 = [user]
    ∧ role <$> input request2 = [user; assistant; user].
Proof.
  destruct (run noFiles "gpt-test" [] None sampleConversation)
    as [[request1 generator1]|] eqn:Hrun1; [|discriminate Hrun1].
  destruct (generator1 (Body sampleStream)) as [yields [res|]] eqn:Hgen;
    [|injection Hrun1 as _ <-; discriminate Hgen].
  destruct (run noFiles "gpt-test" [] (Some (session res)) sampleConversation)
    as [[request2 generator2]|] eqn:Hrun2;
    [|injection Hrun1 as _ <-; injection Hgen as _ <-; discriminate Hrun2].
  exists request1, generator1, yields, res, request2, generator2.
  split; [reflexivity|]. split; [exact Hgen|]. split; [exact Hrun2|].
  destruct (continued_session_replays_the_request _ _ _ _ _ _ _ _ _ _ _ _ _
              Hrun1 Hgen Hrun2) as (new & Hinput & Hroles & _).
  assert (role <$> input request1 = [user]) as Hfirst
    by (injection Hrun1 as <- _; reflexivity).
  split; [exact Hfirst|].
  rewrite Hinput, fmap_app, Hfirst, fmap_cons, Hroles. reflexivity.
Defined.

(** X7.  The provider never sends a system message of its own making: the
    messages of a request that are no system messages of the session state
    handed in are no system messages at all.  In particular a run without a
    session sends no system message, whatever system turns the conversation
    has, and the session state that such a run leaves holds none either. *)
Theorem system_turns_are_never_sent {File}
    (fileToBase64 : File → Result string) (model0 : string)
    (options0 : list (string * Js.Value)) (sessionState : option (list ResponseMessage))
    (conversation : list (Turn (File:=File)))
    (request : Request) (generator : Http → Eff string RunResult) :
  run fileToBase64 model0 options0 sessionState conversation = Ok (request, generator) →
  systemFree (default [] sessionState) →
  systemFree (input request)
  ∧ ∀ http yields res, generator http = (yields, Ok res) → systemFree (session res).
Proof.
  intros (new & _ & Hinput & ->)%run_inv Hsession.
  assert (systemFree (mergeMessages (default [] sessionState) new)) as Hmerged.
  { apply Forall_app. split; [done|].
    apply Forall_forall. by intros m [H _]%list_elem_of_filter. }
  split.
  - rewrite Hinput. apply Forall_fmap. eapply Forall_impl; [exact Hmerged|]. done.
  - intros http yields res (events & _ & _ & ->)%runModel_returned.
    apply Forall_app. split; [done|]. by repeat constructor.
Qed.

Lemma system_turns_are_never_sent_witness :
  ∃ request generator,
    run noFiles "gpt-test" [] None sampleConversation = Ok (request, generator)
    ∧ system ∈ turn_role <$> sampleConversation
    ∧ systemFree (input request).
Proof.
  destruct (run noFiles "gpt-test" [] None sampleConversation)
    as [[request generator]|] eqn:Hrun; [|discriminate Hrun].
  exists request, generator. split; [reflexivity|]. split; [by left|].
  apply (system_turns_are_never_sent _ _ _ _ _ _ _ Hrun). constructor.
Defined.

Lemma promiseAll_fails {A B} (f : A → Result B) (xs : list A) :
  is_ok (promiseAll f xs) = false ↔ ∃ x, x ∈ xs ∧ is_ok (f x) = false.
Proof.
  induction xs as [|x xs IH]; simpl.
  - split; [done|]. by intros (x & ?%elem_of_nil & _).
  - destruct (f x) as [y|e] eqn:Hx.
    + assert (is_ok match promiseAll f xs with Ok ys => Ok (y :: ys) | Throw e => Throw e end
              = is_ok (promiseAll f xs)) as -> by (by destruct (promiseAll f xs)).
      rewrite IH. split.
      * intros (x' & Hin & Hno). exists x'. split; [by right|done].
      * intros (x' & [->|Hin]%elem_of_cons & Hno); [by rewrite Hx in Hno|by eauto].
    + split; [|done]. intros _. exists x. split; [by left|by rewrite Hx].
Qed.

Lemma turnToResponse_is_ok {File} (fileToBase64 : File → Result string) part :
  is_ok (turnToResponse fileToBase64 part)
  = is_ok (promiseAll (multiPartPromptToResponse fileToBase64) (turn_content part)).
Proof.
  unfold turnToResponse.
  by destruct (promiseAll _ _) as [[|[text|? ?] [|? ?]]|].
Qed.

(** X8.  [run] throws, before a request is made, exactly when the
    conversation holds a part that cannot be converted: a part that is
    neither text nor a file, or a file whose conversion to base64 fails.
    The session state plays no part in it. *)
Theorem run_throws_exactly_on_unconvertible_parts {File}
    (fileToBase64 : File → Result string) (model0 : string)
    (options0 : list (string * Js.Value)) (sessionState : option (list ResponseMessage))
    (conversation : list (Turn (File:=File))) :
  is_ok (run fileToBase64 model0 options0 sessionState conversation) = false
  ↔ ∃ turn part,
      turn ∈ conversation ∧ part ∈ turn_content turn
      ∧ is_ok (multiPartPromptToResponse fileToBase64 part) = false.
Proof.
  assert (is_ok (run fileToBase64 model0 options0 sessionState conversation)
          = is_ok (conversationToResponses fileToBase64 conversation)) as ->.
  { unfold run. by destruct (conversationToResponses _ _). }
  unfold conversationToResponses. rewrite promiseAll_fails. split.
  - intros (turn & Hin & Hturn).
    rewrite turnToResponse_is_ok, promiseAll_fails in Hturn.
    destruct Hturn as (part & Hpart & Hno). by exists turn, part.
  - intros (turn & part & Hin & Hpart & Hno). exists turn. split; [done|].
    rewrite turnToResponse_is_ok, promiseAll_fails. by exists part.
Qed.

Lemma run_throws_exactly_on_unconvertible_parts_witness :
  is_ok (run noFiles "gpt-test" [] None
           [ {| turn_role := user; turn_content := [text_part "see"; other_part] |} ])
  = false.
Proof.
  apply run_throws_exactly_on_unconvertible_parts.
  exists {| turn_role := user; turn_content := [text_part "see"; other_part] |}, other_part.
  split; [by left|]. split; [by right; left|]. reflexivity.
Defined.


Lemma promiseAll_Forall2 {A B} (f : A → Result B) (xs : list A) (ys : list B) :
  promiseAll f xs = Ok ys → Forall2 (λ x y, f x = Ok y) xs ys.
Proof.
  revert ys. induction xs as [|x xs IH]; intros ys; simpl.
  - intros [= <-]. constructor.
  - destruct (f x) as [y|] eqn:Hx, (promiseAll f xs) as [ys'|]; try done.
    intros [= <-]. constructor; [done|]. by apply IH.
Qed.

(** X9.  A conversation is converted turn by turn and part by part: there
    is one message per turn, in order, with the role of the turn; a turn
    that consists of one text part is sent with that text as a plain string,
    and every other turn, also one that consists of one image or of no part
    at all, with the list of its converted parts, in order. *)
Theorem turns_become_messages {File}
    (fileToBase64 : File → Result string)
    (conversation : list (Turn (File:=File))) (messages : list ResponseMessage) :
  conversationToResponses fileToBase64 conversation = Ok messages →
  Forall2 (λ turn m,
             role m = turn_role turn
             ∧ type m = Some message
             ∧ ∃ parts,
                 Forall2 (λ part c, multiPartPromptToResponse fileToBase64 part = Ok c)
                         (turn_content turn) parts
                 ∧ content m = match turn_content turn with
                               | [text_part text] => text_content text
                               | _ => parts_content parts
                               end)
          conversation messages.
Proof.
  intros H%promiseAll_Forall2. eapply Forall2_impl; [exact H|].
  intros turn m. unfold turnToResponse.
  destruct (promiseAll _ (turn_content turn)) as [parts|] eqn:Hparts; [|done].
  apply promiseAll_Forall2 in Hparts. intros Hm.
  assert (role m = turn_role turn ∧ type m = Some message
          ∧ content m = match parts with
                        | [input_text text] => text_content text
                        | _ => parts_content parts
                        end) as (Hrole & Htype & Hcontent).
  { destruct parts as [|[text|? ?] [|? ?]]; by injection Hm as <-. }
  split; [done|]. split; [done|]. exists parts. split; [done|].
  rewrite Hcontent. clear Hm Hcontent.
  destruct Hparts as [|part c ? ? Hc Hrest]; [done|].
  destruct Hrest as [|part' c' ? ? Hc' Hrest].
  - destruct part as [text|file|]; simpl in Hc.
    + by injection Hc as <-.
    + destruct (fileToBase64 file); [by injection Hc as <-|done].
    + done.
  - by destruct c as [text|? ?], part as [text'|file|].
Qed.

Lemma turns_become_messages_witness :
  Forall2 (λ turn m, role m = turn_role turn ∧ type m = Some message
                     ∧ ∃ parts, Forall2 (λ part c, multiPartPromptToResponse noFiles part = Ok c)
                                        (turn_content turn) parts
                                ∧ content m = match turn_content turn with
                                              | [text_part text] => text_content text
                                              | _ => parts_content parts
                                              end)
          sampleConversation
          [msg system "be verbose"; msg user "and now?"].
Proof. apply (turns_become_messages noFiles). reflexivity. Defined.

Lemma firstOutputText_None item : ¬ carriesText item → firstOutputText item = None.
Proof.
  unfold carriesText, firstOutputText. intros Hno.
  case_bool_decide as Htype; [|done].
  destruct (item_content item) as [contents|]; [|done].
  destruct (list_find _ contents) as [[i c]|] eqn:Hfind; [|done].
  apply list_find_Some in Hfind as (Hc%list_elem_of_lookup_2 & Htext & _).
  destruct Hno. split; [done|]. exists contents. split; [done|].
  apply Exists_exists. by exists c.
Qed.

Lemma findOutputText_skip pre rest :
  Forall (λ item, ¬ carriesText item) pre →
  findOutputText (pre ++ rest) = findOutputText rest.
Proof.
  induction 1 as [|item pre Hitem _ IH]; [done|].
  simpl. by rewrite (firstOutputText_None _ Hitem).
Qed.

Lemma firstOutputText_Some item before c after text :
  item_type item = "message" →
  item_content item = Some (before ++ c :: after) →
  Forall (λ c, ¬ hasText c) before →
  content_type c = "output_text" → content_text c = Some text →
  firstOutputText item = Some text.
Proof.
  intros Htype Hcontent Hbefore Hc Htext. unfold firstOutputText.
  rewrite bool_decide_eq_true_2, Hcontent by done.
  rewrite list_find_app_r by (by apply list_find_None).
  simpl. rewrite decide_True by (by rewrite Htext). simpl. done.
Qed.

(** X10.  [extractOutput] returns a list of exactly one string: the
    [output_text] of the response when that is a string that is not empty;
    otherwise the text of the first [output_text] part with a text, in the
    first output item of type message that has such a part (items of other
    types and message items without such a part are passed over); and the
    empty string when there is no such item. *)
Theorem extractOutput_returns_one_text (json : Response) :
  length (extractOutput json) = 1
  ∧ (∀ text, output_text json = Some text → text ≠ "" → extractOutput json = [text])
  ∧ (output_text json = None ∨ output_text json = Some "" →
       (∀ pre item post before c after text,
          output json = Some (pre ++ item :: post) →
          Forall (λ item, ¬ carriesText item) pre →
          item_type item = "message" →
          item_content item = Some (before ++ c :: after) →
          Forall (λ c, ¬ hasText c) before →
          content_type c = "output_text" → content_text c = Some text →
          extractOutput json = [text])
       ∧ ((output json = None
           ∨ ∃ items, output json = Some items ∧ Forall (λ item, ¬ carriesText item) items) →
          extractOutput json = [""])).
Proof.
  unfold extractOutput. split; [|split].
  - case_bool_decide; [done|]. by destruct (output json ≫= findOutputText).
  - intros text -> Htext. simpl. rewrite bool_decide_eq_true_2; [done|].
    destruct text; [done|simpl; lia].
  - intros Hdirect.
    assert (bool_decide (0 < String.length (default "" (output_text json))) = false) as ->.
    { by destruct Hdirect as [-> | ->]. }
    split.
    + intros pre item post before c after text -> Hpre Htype Hcontent Hbefore Hc Htext.
      simpl. rewrite (findOutputText_skip _ _ Hpre). simpl.
      by rewrite (firstOutputText_Some _ _ _ _ _ Htype Hcontent Hbefore Hc Htext).
    + intros [-> | (items & -> & Hnone)]; [done|]. simpl.
      rewrite <- (right_id_L [] (++) items), (findOutputText_skip _ _ Hnone). done.
Qed.

Lemma extractOutput_returns_one_text_witness :
  extractOutput withReasoning = ["from content"].
Proof.
  destruct (extractOutput_returns_one_text withReasoning) as (_ & _ & Hsearch).
  destruct (Hsearch (or_intror eq_refl)) as [Hfound _].
  apply (Hfound [reasoningItem] answerItem [] [refusalPart] textPart [] "from content");
    try reflexivity.
  - constructor; [|constructor]. by intros [? _].
  - constructor; [|constructor]. by intros [? _].
Defined.

End ProviderProperties.

(** ** The openai-responses provider: responses that are not ok *)

Module FetchProperties.
Import Js OpenAiFetch FetchSpec.

(** X11.  A response that is not [ok] always makes the callback reject with
    an [HttpError] that carries the status of the response, which is what the
    retry policy reads, and a message that starts with the same words.  The
    message names the type of the error (or the words OpenAI error) and its
    message when the body is JSON of the expected shape, and the status text
    of the response when the body is no JSON or has another shape. *)
Theorem non_ok_response_becomes_an_HttpError (resp : FetchResponse) :
  ok resp = false →
  ∃ detail,
    attempt (Ok resp) = inl (HttpError ("Failed to run model: " +:+ detail) (status resp))
    ∧ (∀ body message type,
         json resp = Ok body → requestErrorSchema_parse body = Some (message, type) →
         detail = default "OpenAI error" type +:+ ": " +:+ message)
    ∧ ((∀ body, json resp = Ok body → requestErrorSchema_parse body = None) →
       detail = statusText resp).
Proof.
  intros Hok. unfold attempt. rewrite Hok. simpl.
  destruct (json resp) as [body|e] eqn:Hjson.
  - destruct (requestErrorSchema_parse body) as [[message type]|] eqn:Hparse.
    + eexists. split; [done|]. split.
      * intros ? ? ? [= <-] Hsome. rewrite Hsome in Hparse. by injection Hparse as <- <-.
      * intros Hnone. by rewrite (Hnone body eq_refl) in Hparse.
    + eexists. split; [done|]. split; [|done].
      intros ? ? ? [= <-] Hsome. by rewrite Hsome in Hparse.
  - eexists. split; [done|]. split; [by intros ? ? ? [=]|done].
Qed.

Lemma non_ok_response_becomes_an_HttpError_witness :
  attempt (Ok rateLimited)
    = inl (HttpError "Failed to run model: rate_limit_error: Rate limit reached" 429)
  ∧ attempt (Ok badGateway) = inl (HttpError "Failed to run model: Bad Gateway" 502).
Proof.
  split.
  - destruct (non_ok_response_becomes_an_HttpError rateLimited eq_refl)
      as (detail & -> & Hbody & _).
    by rewrite (Hbody _ "Rate limit reached" (Some "rate_limit_error") eq_refl eq_refl).
  - destruct (non_ok_response_becomes_an_HttpError badGateway eq_refl)
      as (detail & -> & _ & Hplain).
    rewrite Hplain; [reflexivity|]. intros body Hbody. discriminate Hbody.
Defined.

End FetchProperties.

(** ** The consistency row assertion: verdicts, variables and the provider *)

Module ConsistencyProperties.
Import Js Types Consistency ConsistencySpec RubricSpec ConsistencyFacts.

Lemma fill_replicate {A} n (x : A) : fill n x = replicate n x.
Proof. done. Qed.

(** X12.  Every position of the row gets one and the same verdict: the list
    that [run] returns has one entry per result, and all its entries are
    equal.  When the rubric run ends with a text in which the first JSON
    object found is an Assertion Result, that result is the verdict of every
    position, whatever else the text holds; and when the rubric run throws,
    [run] throws the same error instead of failing the row. *)
Theorem rubric_verdict_is_given_to_every_position
    (w : World) (args : Value) (testVars : gmap string Value)
    (trace : list (Event (Model w))) (assertion : RowAssertionProvider w)
    (results : list TestOutput) :
  createConsistencyAssertion w args testVars = (trace, Ok assertion) →
  (∀ rs, snd (run assertion results) = Ok rs →
     ∃ verdict, rs = replicate (length results) verdict)
  ∧ (∀ model template vars result text verdict,
       fst (run assertion results) = [RubricRun model template vars] →
       drain (environment_run w model template vars) = Ok result →
       extractOutputAsString (output result) = Some text → text ≠ "" →
       assertionResultSchema w (default VUndefined (extractAllJsonObjects w text !! 0))
         = Some verdict →
       snd (run assertion results) = Ok (replicate (length results) verdict))
  ∧ (∀ model template vars e,
       fst (run assertion results) = [RubricRun model template vars] →
       drain (environment_run w model template vars) = Throw e →
       snd (run assertion results) = Throw e).
Proof.
  intros Hcreate.
  destruct (createConsistencyAssertion_run _ _ _ _ _ Hcreate)
    as (parsedArgs & model' & template' & _ & Hrun).
  rewrite Hrun, run_results_trace, run_results_outcome. unfold rubricCall.
  split; [|split].
  - intros rs. destruct (drain _) as [result|e]; [|done]. simpl.
    destruct (negb _); [intros [= <-]; by eexists|].
    destruct (assertionResultSchema w _); intros [= <-]; by eexists.
  - intros model template vars result text verdict [= <- <- <-] -> Htext Hne Hverdict.
    simpl. rewrite Htext. simpl. rewrite bool_decide_eq_false_2 by done. simpl.
    by rewrite Hverdict.
  - by intros model template vars e [= <- <- <-] ->.
Qed.

Lemma rubric_verdict_is_given_to_every_position_witness :
  ∃ assertion,
    snd (createConsistencyAssertion (agreeingWorld agreeingRubric) sampleArgs ∅) = Ok assertion
    ∧ snd (run assertion sampleResults) = Ok [consistent; consistent; consistent].
Proof.
  destruct (createConsistencyAssertion (agreeingWorld agreeingRubric) sampleArgs ∅)
    as [trace [assertion|]] eqn:Hcreate; [|discriminate Hcreate].
  exists assertion. split; [reflexivity|].
  destruct (rubric_verdict_is_given_to_every_position _ _ _ _ _ sampleResults Hcreate)
    as (_ & Hverdict & _).
  apply (Hverdict "default-provider" "Are these outputs consistent?"
           (rubricVars "identical wording" ∅ (contribution <$> sampleResults))
           (textOutput "{...} and {...}") "{...} and {...}" consistent).
  - injection Hcreate as _ <-. reflexivity.
  - reflexivity.
  - reflexivity.
  - discriminate.
  - reflexivity.
Defined.

Lemma argsSchema_criteria w args parsedArgs :
  argsSchema_safeParse w args = Some parsedArgs →
  ∃ props, args = VObj props ∧ field props "criteria" = VStr (criteria parsedArgs).
Proof.
  destruct args as [| | | | |items|props]; try done. simpl.
  destruct (field props "criteria") as [| | | |c| |] eqn:Hc; try done.
  destruct (match field props "prompt" with
            | VUndefined => Some None | VStr p => Some (Some p) | _ => None end);
    [|done].
  destruct (match field props "provider" with
            | VUndefined => Some None | v => Some <$> providerSchema w v end); [|done].
  intros [= <-]. by exists props.
Qed.

(** X13.  The rubric prompt is filled from the variables of the test, each
    under its own name and unchanged, together with [output] and
    [criteria]; a variable of the test that is called [criteria] (or
    [output]) takes the place of the assertion's own, and no other variable
    is handed over. *)
Theorem test_variables_reach_the_rubric
    (w : World) (args : Value) (testVars : gmap string Value)
    (trace : list (Event (Model w))) (assertion : RowAssertionProvider w)
    (results : list TestOutput) :
  createConsistencyAssertion w args testVars = (trace, Ok assertion) →
  ∃ props criteria model template vars,
    args = VObj props
    ∧ field props "criteria" = VStr criteria
    ∧ fst (run assertion results) = [RubricRun model template vars]
    ∧ (∀ key v, testVars !! key = Some v → vars !! key = Some (var_value v))
    ∧ (testVars !! "criteria" = None →
       vars !! "criteria" = Some (var_value (VStr criteria)))
    ∧ (∀ key, testVars !! key = None → key ≠ "output" → key ≠ "criteria" →
       vars !! key = None).
Proof.
  intros Hcreate.
  destruct (createConsistencyAssertion_run _ _ _ _ _ Hcreate)
    as (parsedArgs & model & template & Hparse & Hrun).
  destruct (argsSchema_criteria _ _ _ Hparse) as (props & -> & Hcriteria).
  exists props, (criteria parsedArgs), model, template,
    (rubricVars (criteria parsedArgs) testVars (contribution <$> results)).
  split; [done|]. split; [done|]. rewrite Hrun.
  split; [apply run_results_trace|]. unfold rubricVars. repeat split.
  - intros key v Hkey. apply lookup_union_Some_l. by rewrite lookup_fmap, Hkey.
  - intros Hfree. rewrite lookup_union_r by (by rewrite lookup_fmap, Hfree).
    rewrite lookup_insert_ne by done. by rewrite lookup_singleton_eq.
  - intros key Hfree Houtput Hcrit.
    rewrite lookup_union_r by (by rewrite lookup_fmap, Hfree).
    rewrite lookup_insert_ne by done. by rewrite lookup_singleton_ne.
Qed.

Lemma test_variables_reach_the_rubric_witness :
  ∃ assertion vars,
    snd (createConsistencyAssertion (rubricWorld silentRubric) sampleArgs
           {[ "criteria" := VStr "from the test"; "topic" := VStr "fog" ]}) = Ok assertion
    ∧ fst (run assertion sampleResults)
      = [RubricRun "default-provider" "Are these outputs consistent?" vars]
    ∧ vars !! "criteria" = Some (var_value (VStr "from the test"))
    ∧ vars !! "topic" = Some (var_value (VStr "fog")).
Proof.
  destruct (createConsistencyAssertion (rubricWorld silentRubric) sampleArgs
              {[ "criteria" := VStr "from the test"; "topic" := VStr "fog" ]})
    as [trace [assertion|]] eqn:Hcreate; [|discriminate Hcreate].
  destruct (test_variables_reach_the_rubric _ _ _ _ _ sampleResults Hcreate)
    as (props & criteria & model & template & vars & _ & _ & Hcall & Hvars & _).
  exists assertion, vars. split; [reflexivity|].
  assert (model = "default-provider" ∧ template = "Are these outputs consistent?")
    as [-> ->].
  { assert (∃ vars', fst (run assertion sampleResults)
                     = [RubricRun (Model:=Model (rubricWorld silentRubric))
                          "default-provider" "Are these outputs consistent?" vars'])
      as [vars' Hcall'] by (injection Hcreate as _ <-; by eexists).
    rewrite Hcall in Hcall'. by injection Hcall' as -> -> _. }
  split; [exact Hcall|]. split; apply Hvars; reflexivity.
Defined.


(** X14.  The rubric model is looked up once, when the assertion is created,
    and the environment is built on it then; every run of the assertion is
    one rubric run on that model and template and asks the provider manager
    for nothing.  When the lookup throws, creation throws the same error and
    no environment is built.  Arguments without [provider] and without
    [prompt] select the default provider, with empty options, and the
    consistency prompt; a provider given as a string is looked up with
    empty options. *)
Theorem rubric_model_is_resolved_at_creation
    (w : World) (args : Value) (testVars : gmap string Value) :
  (∀ trace assertion,
     createConsistencyAssertion w args testVars = (trace, Ok assertion) →
     ∃ id config model template,
       trace = [GetProvider id config; NewEnvironment model template]
       ∧ getProvider w id config = Ok model
       ∧ ∀ results, ∃ vars, fst (run assertion results) = [RubricRun model template vars])
  ∧ (∀ trace e,
       createConsistencyAssertion w args testVars = (trace, Throw e) →
       (trace = [] ∧ argsSchema_safeParse w args = None)
       ∨ ∃ id config, trace = [GetProvider id config] ∧ getProvider w id config = Throw e)
  ∧ (∀ props criteria,
       args = VObj props → field props "criteria" = VStr criteria →
       field props "prompt" = VUndefined →
       (field props "provider" = VUndefined →
        ∃ rest, fst (createConsistencyAssertion w args testVars)
                = GetProvider (DEFAULT_LLM_ASSERTION_PROVIDER w) (VObj []) :: rest
                ∧ Forall (λ ev, ∃ model, ev = NewEnvironment model (CONSISTENCY_PROMPT w)) rest)
       ∧ (∀ id, field props "provider" = VStr id →
          providerSchema w (VStr id) = Some (provider_id id) →
          ∃ rest, fst (createConsistencyAssertion w args testVars)
                  = GetProvider id (VObj []) :: rest)).
Proof.
  unfold createConsistencyAssertion. split; [|split].
  - intros trace assertion.
    destruct (argsSchema_safeParse w args) as [parsedArgs|]; [|done].
    destruct (match provider parsedArgs with
              | Some (provider_id id) => _ | Some (provider_record id config) => _
              | None => _ end) as [id config].
    simpl. destruct (getProvider w id config) as [model|] eqn:Hmodel; simpl; [|done].
    intros [= <- <-]. exists id, config, model, (default (CONSISTENCY_PROMPT w) (prompt parsedArgs)).
    split; [done|]. split; [done|]. intros results. eexists. simpl. apply run_results_trace.
  - intros trace e.
    destruct (argsSchema_safeParse w args) as [parsedArgs|];
      [|intros [= <- _]; by left].
    destruct (match provider parsedArgs with
              | Some (provider_id id) => _ | Some (provider_record id config) => _
              | None => _ end) as [id config].
    simpl. destruct (getProvider w id config) as [model|e'] eqn:Hmodel; simpl; [done|].
    intros [= <- <-]. right. by exists id, config.
  - intros props criteria -> Hcriteria Hprompt. simpl. rewrite Hcriteria, Hprompt. split.
    + intros ->. simpl.
      destruct (getProvider w _ _) as [model|]; simpl; eexists; (split; [done|]).
      * repeat constructor. by eexists.
      * constructor.
    + intros id -> Hschema. simpl. rewrite Hschema. simpl.
      destruct (getProvider w _ _) as [model|]; simpl; by eexists.
Qed.

Lemma rubric_model_is_resolved_at_creation_witness :
  (∃ assertion,
     createConsistencyAssertion (agreeingWorld agreeingRubric) fullArgs ∅
     = ([GetProvider "gemini:pro" (VObj [("temperature", VNum 0)]);
         NewEnvironment "gemini:pro" "Compare {{output}}"], Ok assertion))
  ∧ createConsistencyAssertion (agreeingWorld agreeingRubric)
      (VObj [("criteria", VStr "same"); ("provider", VStr "unknown")]) ∅
    = ([GetProvider "unknown" (VObj [])], Throw "Unknown provider").
Proof.
  split.
  - destruct (createConsistencyAssertion (agreeingWorld agreeingRubric) fullArgs ∅)
      as [trace [assertion|]] eqn:Hcreate; [|discriminate Hcreate].
    exists assertion.
    destruct (rubric_model_is_resolved_at_creation (agreeingWorld agreeingRubric) fullArgs ∅)
      as [Hok _].
    destruct (Hok _ _ Hcreate) as (id & config & model & template & -> & _ & _).
    injection Hcreate; intros; subst; reflexivity.
  - destruct (createConsistencyAssertion (agreeingWorld agreeingRubric)
                (VObj [("criteria", VStr "same"); ("provider", VStr "unknown")]) ∅)
      as [trace [assertion|e]] eqn:Hcreate; [discriminate Hcreate|].
    destruct (rubric_model_is_resolved_at_creation (agreeingWorld agreeingRubric)
                (VObj [("criteria", VStr "same"); ("provider", VStr "unknown")]) ∅)
      as (_ & Hthrow & _).
    destruct (Hthrow _ _ Hcreate) as [[_ Hparse]|(id & config & -> & _)];
      [discriminate Hparse|].
    injection Hcreate; intros; subst; reflexivity.
Defined.

End ConsistencyProperties.

(** ** The run orchestrator: environments, configuration and failures *)

Module OrchestratorFacts.
Import Js Types Actions ActionsSpec RunInvariants OrchestratorSpec.
Import UnitFacts QueueFacts RunFacts.

Section Orchestrator.
Context (w : World).

(** *** The loop over the providers *)

Lemma prompts_loop (model : ModelProvider w) (provider : Provider) (prompts : list Prompt) :
  ∀ envs runEnvs,
    forEach (λ '(envs, runEnvs) prompt,
               ret (E:=Event)
                   (envs ++ [ {| env_model := model; env_prompt := prompt |} ],
                    runEnvs ++ [ (provider, prompt) ]))
            prompts (envs, runEnvs)
    = ([], Ok (envs ++ ((λ prompt, {| env_model := model; env_prompt := prompt |}) <$> prompts),
               runEnvs ++ ((λ prompt, (provider, prompt)) <$> prompts))).
Proof.
  induction prompts as [|prompt prompts IH]; intros envs runEnvs; simpl.
  - by rewrite !(right_id_L [] (++)).
  - rewrite IH. simpl. by rewrite <- !(assoc_L (++)).
Qed.

Lemma addProvider_outcome globalPrompts envs runEnvs provider :
  addProvider w globalPrompts (envs, runEnvs) provider
  = ([GetProvider (providerId provider)],
     match getProvider w (providerId provider) with
     | Ok model =>
         Ok (envs ++ ((λ prompt, {| env_model := model; env_prompt := prompt |})
                        <$> promptsOf globalPrompts provider),
             runEnvs ++ ((λ prompt, (provider, prompt)) <$> promptsOf globalPrompts provider))
     | Throw e => Throw e
     end).
Proof.
  unfold addProvider. simpl.
  destruct (getProvider w (providerId provider)) as [model|e]; simpl; [|done].
  fold (promptsOf globalPrompts provider). by rewrite prompts_loop.
Qed.

(** The loop that went through looked every provider up once, in order, and
    added the pairs of every provider, in order. *)
Lemma providers_loop globalPrompts providers0 : ∀ envs runEnvs tr envs' runEnvs',
  forEach (addProvider w globalPrompts) providers0 (envs, runEnvs)
    = (tr, Ok (envs', runEnvs')) →
  tr = GetProvider ∘ providerId <$> providers0
  ∧ runEnvs' = runEnvs ++ (providers0 ≫= λ provider,
                             (λ prompt, (provider, prompt))
                               <$> promptsOf globalPrompts provider)
  ∧ Forall (λ provider, is_ok (getProvider w (providerId provider)) = true) providers0.
Proof.
  induction providers0 as [|provider providers0 IH]; intros envs runEnvs tr envs' runEnvs'.
  - simpl. intros [= <- <- <-]. by rewrite (right_id_L [] (++)).
  - simpl. rewrite addProvider_outcome.
    destruct (getProvider w (providerId provider)) as [model|e] eqn:Hmodel; simpl; [|done].
    destruct (forEach _ providers0 _) as [tr' [[envs1 runEnvs1]|]] eqn:Hrest; [|done].
    intros [= <- <- <-]. destruct (IH _ _ _ _ _ Hrest) as (-> & -> & Hall).
    split; [done|]. split; [by rewrite <- (assoc_L (++))|].
    constructor; [by rewrite Hmodel|done].
Qed.

(** The loop stops at the first provider that the provider manager does not
    know. *)
Lemma providers_loop_throw globalPrompts before provider after e : ∀ envs runEnvs,
  Forall (λ provider, is_ok (getProvider w (providerId provider)) = true) before →
  getProvider w (providerId provider) = Throw e →
  forEach (addProvider w globalPrompts) (before ++ provider :: after) (envs, runEnvs)
  = (GetProvider ∘ providerId <$> (before ++ [provider]), Throw e).
Proof.
  induction before as [|p before IH]; intros envs runEnvs Hbefore Hthrow; simpl.
  - by rewrite addProvider_outcome, Hthrow.
  - apply Forall_cons in Hbefore as [Hp Hbefore].
    rewrite addProvider_outcome.
    destruct (getProvider w (providerId p)) as [model|]; [|done]. simpl.
    by rewrite (IH _ _ Hbefore Hthrow).
Qed.

(** *** The loops over the tests *)

Lemma enqueueCell_events t test row env :
  Forall testEvent (enqueueCell w t test row env).1.
Proof.
  unfold enqueueCell.
  match goal with
  | |- context [forEach ?body ?xs ?s] =>
      pose proof (forEach_trace body testEvent xs) as H;
      specialize (H ltac:(intros s' x; simpl; destruct (getAssertion w _ _ _ _);
                          by repeat constructor) s);
      destruct (forEach body xs s) as [tr [assertions|]]; simpl in *
  end.
  - apply Forall_app. split; [done|]. by repeat constructor.
  - done.
Qed.

Lemma enqueueTest_events envs cells test :
  Forall testEvent (enqueueTest w envs cells test).1.
Proof.
  unfold enqueueTest.
  pose proof (forEach_trace (enqueueCell w (length cells) test) testEvent envs
                (enqueueCell_events _ _) []) as H.
  destruct (forEach _ envs []) as [tr [row|]]; simpl in *; [|done].
  by rewrite (right_id_L [] (++)).
Qed.

Lemma tests_events envs tests0 cells :
  Forall testEvent (forEach (enqueueTest w envs) tests0 cells).1.
Proof. apply forEach_trace. intros s x. apply enqueueTest_events. Qed.

(** *** What [runTests] is made of *)

Lemma runTests_inv configStore storageStore schedule trace run :
  runTests w configStore storageStore schedule = (trace, Ok run) →
  ∃ config0 storage latest same envs runEnvs tr4 cells tr5,
    configStore = Some config0 ∧ storageStore = Some storage
    ∧ getConfig storage = Ok latest
    ∧ deepEquals (configValue config0) (configValue latest) = Ok same
    ∧ forEach (addProvider w (default [] (prompts (chosen w config0 latest same))))
              (default [] (providers (chosen w config0 latest same))) ([], [])
      = (tr4, Ok (envs, runEnvs))
    ∧ forEach (enqueueTest w envs) (globalTests (chosen w config0 latest same)) []
      = (tr5, Ok cells)
    ∧ run = {| version := 1; id := randomUUID w; timestamp := now w;
               run_description := config_description (chosen w config0 latest same);
               envs := runEnvs;
               run_tests := globalTests (chosen w config0 latest same);
               results := (λ row : list (Cell w), result <$> row)
                            <$> (completed w schedule cells).1 |}
    ∧ trace = StorageGetConfig :: asked w same
                ++ [NewProviderManager; NewParallelTaskQueue 5] ++ tr4
                ++ [NewAssertionManager] ++ tr5
                ++ (completed w schedule cells).2 ++ epilogue run.
Proof.
  unfold runTests. destruct configStore as [config0|]; [|done].
  destruct storageStore as [storage|]; [|done]. intros H.
  eff_inv H as tr0 rest0 u0 H0. injection H0 as <-.
  eff_inv H as tr1 rest1 latestConfig Hlatest.
  eff_inv H as tr2 rest2 same Hsame.
  eff_inv H as tr3 rest3 config Hconfig.
  assert (config = chosen w config0 latestConfig same ∧ tr3 = asked w same) as [-> ->].
  { unfold chosen, asked. destruct same.
    - by injection Hconfig as <- <-.
    - destruct (showPrompt w); simpl in Hconfig; by injection Hconfig as <- <-. }
  eff_inv H as trA restA uA HA. injection HA as <-.
  eff_inv H as trB restB uB HB. injection HB as <-.
  eff_inv H as tr4 rest4 acc Hproviders. destruct acc as [envs runEnvs].
  eff_inv H as trP restP uP HP.
  assert (trP = []) as -> by (by rewrite <- (askPermission_trace w), HP).
  eff_inv H as trC restC uC HC. injection HC as <-.
  eff_inv H as tr5 rest5 cells Hcells.
  destruct (completed w schedule cells) as [settled unitEvents] eqn:Hcompleted.
  eff_inv H as tr6 rest6 u6 H6. injection H6 as <-.
  eff_inv H as tr7 rest7 u7 H7. injection H7 as <-.
  eff_inv H as tr8 rest8 u8 H8. injection H8 as <-.
  eff_inv H as tr9 rest9 u9 H9. injection H9 as <-.
  eff_inv H as tr10 rest10 u10 H10. injection H10 as <-.
  eff_inv H as tr11 rest11 u11 H11. injection H11 as <-.
  eff_inv H as trN restN uN HN.
  assert (trN = []) as -> by (by rewrite <- (notifyCompletion_trace w), HN).
  injection H as <- <-. simpl.
  assert (getConfig storage = Ok latestConfig ∧ tr1 = []) as [Hread ->]
    by (unfold lift in Hlatest; split; congruence).
  assert (deepEquals (configValue config0) (configValue latestConfig) = Ok same ∧ tr2 = [])
    as [Hcmp ->] by (unfold lift in Hsame; split; congruence).
  exists config0, storage, latestConfig, same, envs, runEnvs, tr4, cells, tr5.
  split; [done|]. split; [done|]. split; [exact Hread|]. split; [exact Hcmp|].
  split; [exact Hproviders|]. split; [exact Hcells|]. rewrite Hcompleted. simpl.
  split; [done|].
  repeat (rewrite <- !(assoc_L (++)); simpl). done.
Qed.

(** A run that throws does so before the queue is awaited, or at the very
    end, in the notification, when the run is stored. *)
Lemma thrown_app e (tr1 tr2 : list Event) :
  Forall preludeEvent tr1 →
  (Forall preludeEvent tr2
   ∨ ∃ before run, tr2 = before ++ epilogue run
                   ∧ Forall (λ ev, ¬ closingEvent ev) before
                   ∧ (notifyCompletion w).2 = Throw e) →
  Forall preludeEvent (tr1 ++ tr2)
  ∨ ∃ before run, tr1 ++ tr2 = before ++ epilogue run
                  ∧ Forall (λ ev, ¬ closingEvent ev) before
                  ∧ (notifyCompletion w).2 = Throw e.
Proof.
  intros H1 [H2|(before & run & -> & Hbefore & Hthrow)].
  - left. by apply Forall_app_2.
  - right. exists (tr1 ++ before), run. split; [by rewrite (assoc_L (++))|].
    split; [|done]. apply Forall_app_2; [|done].
    eapply Forall_impl; [exact H1|]. intros ev Hprelude Hclosing. by destruct ev.
Qed.

Lemma runTests_throw configStore storageStore schedule trace e :
  runTests w configStore storageStore schedule = (trace, Throw e) →
  Forall preludeEvent trace
  ∨ ∃ before run, trace = before ++ epilogue run
                  ∧ Forall (λ ev, ¬ closingEvent ev) before
                  ∧ (notifyCompletion w).2 = Throw e.
Proof.
  unfold runTests. destruct configStore as [config0|]; [|intros [= <- _]; by left].
  destruct storageStore as [storage|]; [|intros [= <- _]; by left]. intros H.
  apply bind_throw_inv in H as [[=]|(tr0 & rest0 & [] & [= <-] & H & ->)].
  apply thrown_app; [by repeat constructor|].
  apply bind_throw_inv in H as [[= <- _]|(tr1 & rest1 & latest & [= <- _] & H & ->)];
    [by left|]. simpl.
  apply bind_throw_inv in H as [[= <- _]|(tr2 & rest2 & same & [= <- _] & H & ->)];
    [by left|]. simpl.
  apply bind_throw_inv in H as [H|(tr3 & rest3 & config & Hconfig & H & ->)].
  { destruct same; [done|]. simpl in H. by destruct (showPrompt w). }
  apply thrown_app.
  { destruct same; [injection Hconfig as <- _; constructor|].
    simpl in Hconfig. destruct (showPrompt w); simpl in Hconfig; injection Hconfig as <- _;
      by repeat constructor. }
  apply bind_throw_inv in H as [[=]|(trA & restA & [] & [= <-] & H & ->)].
  apply thrown_app; [by repeat constructor|].
  apply bind_throw_inv in H as [[=]|(trB & restB & [] & [= <-] & H & ->)].
  apply thrown_app; [by repeat constructor|].
  pose proof (forEach_trace (addProvider w (default [] (prompts config)))
                preludeEvent (default [] (providers config))
                (λ s x, addProvider_trace w _ s x) ([], [])) as Hp.
  apply bind_throw_inv in H as [H|(tr4 & rest4 & [envs runEnvs] & Hproviders & H & ->)].
  { left. by rewrite H in Hp. }
  rewrite Hproviders in Hp. apply thrown_app; [done|].
  pose proof (askPermission_trace w) as Hask.
  apply bind_throw_inv in H as [H|(trP & restP & [] & HP & H & ->)].
  { left. rewrite H in Hask. simpl in Hask. by subst. }
  rewrite HP in Hask. simpl in Hask. subst trP. simpl.
  apply bind_throw_inv in H as [[=]|(trC & restC & [] & [= <-] & H & ->)].
  apply thrown_app; [by repeat constructor|].
  pose proof (forEach_trace (enqueueTest w envs) preludeEvent (globalTests config)
                (enqueueTest_trace w envs) []) as Ht.
  apply bind_throw_inv in H as [H|(tr5 & rest5 & cells & Hcells & H & ->)].
  { left. by rewrite H in Ht. }
  rewrite Hcells in Ht. apply thrown_app; [done|].
  destruct (completed_settles w schedule cells) as (_ & Hunits & _).
  destruct (completed w schedule cells) as [settled unitEvents]. simpl in Hunits.
  apply bind_throw_inv in H as [[=]|(tr6 & rest6 & [] & [= <-] & H & ->)].
  apply bind_throw_inv in H as [[=]|(tr7 & rest7 & [] & [= <-] & H & ->)].
  apply bind_throw_inv in H as [[=]|(tr8 & rest8 & [] & [= <-] & H & ->)].
  apply bind_throw_inv in H as [[=]|(tr9 & rest9 & [] & [= <-] & H & ->)].
  apply bind_throw_inv in H as [[=]|(tr10 & rest10 & [] & [= <-] & H & ->)].
  apply bind_throw_inv in H as [[=]|(tr11 & rest11 & [] & [= <-] & H & ->)].
  pose proof (notifyCompletion_trace w) as Hnotify.
  apply bind_throw_inv in H as [H|(trN & restN & [] & _ & [=] & _)].
  rewrite H in Hnotify. simpl in Hnotify. subst rest11.
  right. eexists unitEvents, _. split; [reflexivity|]. split; [|by rewrite H].
  eapply Forall_impl; [exact Hunits|]. intros ev [te Hte] Hclosing. by destruct ev.
Qed.

(** *** The order in which the cells are prepared *)

Lemma getAssertions_events t e vars specs : ∀ acc tr assertions,
  forEach (λ acc a,
             bind (emit (GetAssertion t e (length acc)))
               (λ _, bind (lift (getAssertion w t e a vars))
                       (λ assertion, ret (acc ++ [assertion]))))
          specs acc = (tr, Ok assertions) →
  tr = GetAssertion t e <$> seq (length acc) (length specs).
Proof.
  induction specs as [|a specs IH]; intros acc tr assertions; cbn [forEach].
  - by intros [= <- _].
  - intros (tr1 & tr2 & acc1 & Hstep & Hrest & ->)%bind_ok_inv.
    apply bind_ok_inv in Hstep as (tr0 & tr0' & [] & [= <-] & Hstep & ->).
    apply bind_ok_inv in Hstep as (trl & trr & assertion & Hmade & [= <- <-] & ->).
    unfold lift in Hmade. injection Hmade as <- _.
    apply IH in Hrest as ->. rewrite length_app. simpl.
    by rewrite Nat.add_1_r.
Qed.

Lemma enqueueCell_order t test row env tr row' :
  enqueueCell w t test row env = (tr, Ok row') →
  tr = cellEvents t (length row) (length (default [] (assert test)))
  ∧ length row' = S (length row).
Proof.
  unfold enqueueCell.
  intros (tr1 & tr2 & assertions & Hassertions & H & ->)%bind_ok_inv.
  apply bind_ok_inv in H as (tr3 & tr4 & [] & [= <-] & [= <- <-] & ->).
  apply getAssertions_events in Hassertions as ->.
  split; [by rewrite (right_id_L [] (++))|]. rewrite length_app. simpl. lia.
Qed.

Lemma row_order t test envs : ∀ row tr row',
  forEach (enqueueCell w t test) envs row = (tr, Ok row') →
  tr = (seq (length row) (length envs)
          ≫= λ e, cellEvents t e (length (default [] (assert test)))).
Proof.
  induction envs as [|env envs IH]; intros row tr row'; cbn [forEach].
  - by intros [= <- _].
  - intros (tr1 & tr2 & row1 & Hcell & Hrest & ->)%bind_ok_inv.
    apply enqueueCell_order in Hcell as [-> Hlen].
    apply IH in Hrest as ->. by rewrite Hlen.
Qed.

Lemma enqueueTest_order envs cells test tr cells' :
  enqueueTest w envs cells test = (tr, Ok cells') →
  tr = rowEvents (length envs) (length cells) test
  ∧ length cells' = S (length cells).
Proof.
  unfold enqueueTest.
  intros (tr1 & tr2 & row & Hrow & [= <- <-] & ->)%bind_ok_inv.
  apply row_order in Hrow as ->.
  split; [by rewrite (right_id_L [] (++))|]. rewrite length_app. simpl. lia.
Qed.

Lemma tests_order envs tests0 : ∀ cells tr cells',
  forEach (enqueueTest w envs) tests0 cells = (tr, Ok cells') →
  tr = mjoin (imap (λ i, rowEvents (length envs) (length cells + i)) tests0).
Proof.
  induction tests0 as [|test tests0 IH]; intros cells tr cells'; cbn [forEach].
  - by intros [= <- _].
  - intros (tr1 & tr2 & cells1 & Htest & Hrest & ->)%bind_ok_inv.
    apply enqueueTest_order in Htest as [-> Hlen].
    apply IH in Hrest as ->. rewrite imap_cons, Nat.add_0_r.
    change (mjoin (?x :: ?l)) with (x ++ mjoin l). do 2 f_equal.
    apply imap_ext. intros i test' _. simpl. f_equal. lia.
Qed.

End Orchestrator.

End OrchestratorFacts.

Module OrchestratorProperties.
Import Js Types Actions ActionsSpec RunInvariants OrchestratorSpec.
Import UnitFacts QueueFacts RunFacts OrchestratorFacts.

Lemma mixedRun_outcome : mixedRun = (mixedTrace, Ok mixedReturned).
Proof. vm_compute. reflexivity. Qed.

Lemma unknownRun_outcome : unknownRun = (unknownTrace, Throw "Unknown provider: unknown").
Proof. vm_compute. reflexivity. Qed.

Lemma changedRun_outcome : changedRun = (changedTrace, Ok changedReturned).
Proof. vm_compute. reflexivity. Qed.

Lemma tunedRun_outcome : tunedRun = (tunedTrace, Ok tunedReturned).
Proof. vm_compute. reflexivity. Qed.

Lemma omap_nil {A B} (f : A → option B) (l : list A) :
  Forall (λ x, f x = None) l → omap f l = [].
Proof. induction 1 as [|x l Hx _ IH]; [done|]. simpl. by rewrite Hx. Qed.

Lemma filter_false {A} (f : A → bool) (l : list A) :
  Forall (λ x, f x = false) l → filter (λ x, f x = true) l = [].
Proof.
  induction 1 as [|x l Hx _ IH]; [done|].
  rewrite filter_cons_False by (by rewrite Hx). done.
Qed.

Lemma lookups_of_loop (l : list Provider) :
  omap lookedUp (GetProvider ∘ providerId <$> l) = providerId <$> l.
Proof. induction l as [|p l IH]; [done|]. rewrite !fmap_cons. csimpl. by rewrite IH. Qed.

Lemma chosen_cases w config latest same :
  chosen w config latest same = config ∨ chosen w config latest same = latest.
Proof. unfold chosen. destruct same, (showPrompt w); auto. Qed.

(** X15.  The environment pairs of a run are those of the configuration it
    ran: every provider of the configuration, in order, with each of its
    prompts, in order, where a provider that carries prompts of its own
    (also an empty list of them) is run with these instead of the global
    prompts.  The provider manager is asked for every provider exactly once,
    in that order, whether the provider has prompts or not. *)
Theorem environments_are_providers_by_prompts
    (w : World) (configStore : option Config) (storageStore : option Storage)
    (schedule : list (nat * nat)) (trace : list Event) (run : Run) :
  runTests w configStore storageStore schedule = (trace, Ok run) →
  ∃ config,
    (configStore = Some config
     ∨ ∃ storage, storageStore = Some storage ∧ getConfig storage = Ok config)
    ∧ run_tests run = globalTests config
    ∧ envs run = environmentsOf config
    ∧ omap lookedUp trace = providerId <$> default [] (providers config).
Proof.
  intros (config0 & storage & latest & same & envs & runEnvs & tr4 & cells & tr5
          & -> & -> & Hread & _ & Hproviders & Hcells & -> & ->)%runTests_inv.
  exists (chosen w config0 latest same). split.
  { destruct (chosen_cases w config0 latest same) as [-> | ->]; eauto. }
  destruct (providers_loop _ _ _ _ _ _ _ _ Hproviders) as (-> & -> & _).
  split; [done|]. split; [done|].
  pose proof (tests_events w envs (globalTests (chosen w config0 latest same)) []) as Htests.
  rewrite Hcells in Htests.
  destruct (completed_settles w schedule cells) as (_ & Hunits & _).
  change (StorageGetConfig :: ?l) with ([StorageGetConfig] ++ l).
  rewrite !omap_app.
  rewrite (omap_nil lookedUp (asked w same))
    by (unfold asked; destruct same, (showPrompt w); by repeat constructor).
  rewrite (omap_nil lookedUp tr5) by (eapply Forall_impl; [exact Htests|]; by intros []).
  rewrite (omap_nil lookedUp (completed w schedule cells).2)
    by (eapply Forall_impl; [exact Hunits|]; by intros [] []).
  rewrite lookups_of_loop. simpl. by rewrite (right_id_L [] (++)).
Qed.

Lemma environments_are_providers_by_prompts_witness :
  envs mixedReturned
  = [(provider_string "gemini", "Write a haiku about {{topic}}.");
     (provider_object "openai" (Some ["Sing about {{topic}}."; "Hum."]), "Sing about {{topic}}.");
     (provider_object "openai" (Some ["Sing about {{topic}}."; "Hum."]), "Hum.")]
  ∧ omap lookedUp mixedTrace = ["gemini"; "openai"; "silent"].
Proof.
  destruct (environments_are_providers_by_prompts _ _ _ _ _ _ mixedRun_outcome)
    as (config & [[= <-]|(storage & [= <-] & [= <-])] & _ & Henvs & Hlookups);
    (split; [exact Henvs|exact Hlookups]).
Defined.

Lemma hiddenRun_outcome : hiddenRun = (hiddenTrace, Throw "TypeError: Illegal constructor").
Proof. vm_compute. reflexivity. Qed.

(** X16.  A run that throws is not stored, unless it is the notification
    at the very end that throws.  When [runTests] throws, either the queue
    has not completed: the assertion manager has not been destroyed,
    neither the run store nor the selected run have been written and
    nothing has been handed to the storage.  Or the run has gone through to
    its end and has been handed to the storage, the page is hidden, and the
    error is that of reading the permission or, with the permission
    granted, that of [new Notification]: the caller then sees a stored run
    fail. *)
Theorem run_that_throws_is_stored_only_if_the_notification_throws
    (w : World) (configStore : option Config) (storageStore : option Storage)
    (schedule : list (nat * nat)) (trace : list Event) (e : string) :
  runTests w configStore storageStore schedule = (trace, Throw e) →
  Forall (λ ev, ¬ closingEvent ev) trace
  ∨ ∃ before run,
      trace = before ++ epilogue run
      ∧ Forall (λ ev, ¬ closingEvent ev) before
      ∧ visibleAtEnd w = false
      ∧ (grantedAtEnd w = Throw e
         ∨ grantedAtEnd w = Ok true ∧ newNotification w = Throw e).
Proof.
  intros [H|(before & run & -> & Hbefore & [Hhidden Hthrow]%notifyCompletion_throw)]%runTests_throw.
  - left. eapply Forall_impl; [exact H|]. intros ev Hprelude Hclosing. by destruct ev.
  - right. by exists before, run.
Qed.

Lemma run_that_throws_is_stored_only_if_the_notification_throws_witness :
  Forall (λ ev, ¬ closingEvent ev) unknownTrace
  ∧ ∃ before run,
      hiddenTrace = before ++ epilogue run
      ∧ newNotification hiddenWorld = Throw "TypeError: Illegal constructor".
Proof.
  split.
  - destruct (run_that_throws_is_stored_only_if_the_notification_throws
                _ _ _ _ _ _ unknownRun_outcome)
      as [Hnone|(_ & _ & _ & _ & Hhidden & _)]; [exact Hnone|discriminate Hhidden].
  - destruct (run_that_throws_is_stored_only_if_the_notification_throws
                _ _ _ _ _ _ hiddenRun_outcome)
      as [Hnone|(before & run & Htrace & _ & _ & [Hthrow|[_ Hthrow]])].
    + exfalso. unfold hiddenTrace in Hnone.
      repeat (apply Forall_cons in Hnone as [Hev Hnone];
              first [apply Hev; exact I | clear Hev]).
    + discriminate Hthrow.
    + exists before, run. split; [exact Htrace|exact Hthrow].
Defined.


(** X17.  A provider that the provider manager does not know stops the run
    before anything is done for a test: [runTests] throws the error of the
    lookup of the first such provider of the configuration it runs, having
    looked up the providers before it and that one; no assertion manager
    was made, no assertion was asked for and no unit of work was
    enqueued. *)
Theorem unknown_provider_stops_the_run_before_any_test
    (w : World) (config : Config) (storage : Storage) (schedule : list (nat * nat))
    (latest : Config) (same : bool)
    (before : list Provider) (provider : Provider) (after : list Provider) (e : string) :
  getConfig storage = Ok latest →
  deepEquals (configValue config) (configValue latest) = Ok same →
  providers (chosen w config latest same) = Some (before ++ provider :: after) →
  Forall (λ p, is_ok (getProvider w (providerId p)) = true) before →
  getProvider w (providerId provider) = Throw e →
  ∃ trace,
    runTests w (Some config) (Some storage) schedule = (trace, Throw e)
    ∧ Forall openingEvent trace
    ∧ omap lookedUp trace = providerId <$> (before ++ [provider]).
Proof.
  intros Hread Hcmp Hproviders Hbefore Hthrow.
  exists (StorageGetConfig :: asked w same ++ [NewProviderManager; NewParallelTaskQueue 5]
            ++ (GetProvider ∘ providerId <$> (before ++ [provider]))).
  split; [|split].
  - unfold runTests. rewrite Hread. cbn [bind lift emit ret]. rewrite Hcmp.
    unfold chosen, asked in *.
    destruct same; [|destruct (showPrompt w)]; cbn [bind lift emit ret];
      rewrite Hproviders;
      change (default [] (Some (before ++ provider :: after)))
        with (before ++ provider :: after);
      rewrite (providers_loop_throw w _ _ _ _ _ _ _ Hbefore Hthrow);
      cbn [bind]; repeat (rewrite <- ?(assoc_L (++)); cbn [app]); reflexivity.
  - constructor; [done|]. apply Forall_app_2.
    { unfold asked. destruct same, (showPrompt w); by repeat constructor. }
    apply Forall_app_2; [by repeat constructor|].
    apply Forall_fmap, Forall_forall. by intros p _.
  - change (StorageGetConfig :: ?l) with ([StorageGetConfig] ++ l).
    rewrite !omap_app, lookups_of_loop.
    rewrite (omap_nil lookedUp (asked w same))
      by (unfold asked; destruct same, (showPrompt w); by repeat constructor).
    done.
Qed.

Lemma unknown_provider_stops_the_run_before_any_test_witness :
  unknownRun.2 = Throw "Unknown provider: unknown"
  ∧ omap lookedUp unknownRun.1 = ["gemini"; "unknown"].
Proof.
  destruct (unknown_provider_stops_the_run_before_any_test
              strictWorld unknownConfig (storageOf unknownConfig) [] unknownConfig true
              [provider_string "gemini"] (provider_string "unknown")
              [provider_string "openai"] "Unknown provider: unknown")
    as (trace & Hrun & _ & Hlookups).
  - reflexivity.
  - vm_compute. reflexivity.
  - reflexivity.
  - by repeat constructor.
  - reflexivity.
  - unfold unknownRun. rewrite Hrun. split; [reflexivity|exact Hlookups].
Defined.

(** X18.  The user is asked about the configuration exactly when
    [deepEquals] finds the configuration in the store and the one on disk
    different, and once; the configuration store is written exactly when the
    user then chooses to update.  The two are compared as the objects that
    were loaded, so a difference in a property that [runTests] does not
    read, such as the options of a provider, is put to the user as well.
    The run is made of the configuration on disk when the user chooses to
    update, and of the configuration in the store in the two other cases (no
    difference found, or the user chose to ignore it): its tests, its
    description and its environment pairs are those of that
    configuration. *)
Theorem changed_configuration_is_put_to_the_user
    (w : World) (config : Config) (storage : Storage)
    (schedule : list (nat * nat)) (trace : list Event) (run : Run) :
  runTests w (Some config) (Some storage) schedule = (trace, Ok run) →
  ∃ latest same,
    getConfig storage = Ok latest
    ∧ deepEquals (configValue config) (configValue latest) = Ok same
    ∧ filter (λ ev, asking ev = true) trace
      = (if same then []
         else if showPrompt w then [ShowPrompt; ConfigStoreSet] else [ShowPrompt])
    ∧ let used := if same then config else if showPrompt w then latest else config in
      run_tests run = globalTests used
      ∧ run_description run = config_description used
      ∧ envs run = environmentsOf used.
Proof.
  intros (config0 & storage0 & latest & same & envs & runEnvs & tr4 & cells & tr5
          & [= <-] & [= <-] & Hread & Hcmp & Hproviders & Hcells & -> & ->)%runTests_inv.
  exists latest, same. split; [done|]. split; [done|].
  destruct (providers_loop _ _ _ _ _ _ _ _ Hproviders) as (-> & -> & _).
  split; [|done].
  pose proof (tests_events w envs (globalTests (chosen w config latest same)) []) as Htests.
  rewrite Hcells in Htests.
  destruct (completed_settles w schedule cells) as (_ & Hunits & _).
  change (StorageGetConfig :: ?l) with ([StorageGetConfig] ++ l).
  rewrite !filter_app.
  rewrite (filter_false asking (GetProvider ∘ providerId <$> _))
    by (apply Forall_fmap, Forall_forall; by intros p _).
  rewrite (filter_false asking tr5) by (eapply Forall_impl; [exact Htests|]; by intros []).
  rewrite (filter_false asking (completed w schedule cells).2)
    by (eapply Forall_impl; [exact Hunits|]; by intros [] []).
  unfold asked. by destruct same, (showPrompt w).
Qed.

Lemma changed_configuration_is_put_to_the_user_witness :
  filter (λ ev, asking ev = true) changedTrace = [ShowPrompt]
  ∧ run_tests changedReturned = globalTests mixedConfig
  ∧ run_description changedReturned = Some "mixed"
  ∧ filter (λ ev, asking ev = true) tunedTrace = [ShowPrompt].
Proof.
  destruct (changed_configuration_is_put_to_the_user
              strictWorld mixedConfig (storageOf sampleConfig) [] changedTrace changedReturned
              changedRun_outcome)
    as (latest & same & [= <-] & Hcmp & Hasked & Htests & Hdescription & _).
  assert (same = false) as ->.
  { assert (deepEquals (configValue mixedConfig) (configValue sampleConfig) = Ok false)
      as Hfalse by (vm_compute; reflexivity).
    rewrite Hfalse in Hcmp. by injection Hcmp as <-. }
  split; [exact Hasked|]. split; [exact Htests|]. split; [exact Hdescription|].
  destruct (changed_configuration_is_put_to_the_user
              strictWorld (tunedConfig 0) (storageOf (tunedConfig 1)) [] tunedTrace
              tunedReturned tunedRun_outcome)
    as (latest & tuned & [= <-] & Htuned & Hasked' & _).
  assert (tuned = false) as ->.
  { assert (deepEquals (configValue (tunedConfig 0)) (configValue (tunedConfig 1)) = Ok false)
      as Hfalse by (vm_compute; reflexivity).
    rewrite Hfalse in Htuned. by injection Htuned as <-. }
  exact Hasked'.
Defined.





(** X20.  A configuration of plain data (no [undefined], no [NaN], distinct
    keys) that has not changed on disk is not put to the user: when the
    storage returns the configuration that is in the store, the run shows
    no prompt, does not write the configuration store, and is made of that
    configuration. *)
Theorem unchanged_configuration_is_not_put_to_the_user
    (w : World) (config : Config) (storage : Storage)
    (schedule : list (nat * nat)) (trace : list Event) (run : Run) :
  JsSpec.plain (configValue config) →
  getConfig storage = Ok config →
  runTests w (Some config) (Some storage) schedule = (trace, Ok run) →
  filter (λ ev, asking ev = true) trace = []
  ∧ run_tests run = globalTests config
  ∧ envs run = environmentsOf config.
Proof.
  intros Hplain Hread
    (config0 & storage0 & latest & same & envs & runEnvs & tr4 & cells & tr5
     & [= <-] & [= <-] & Hread' & Hcmp & Hproviders & Hcells & -> & ->)%runTests_inv.
  assert (latest = config) as -> by congruence.
  rewrite (JsFacts.deepEquals_refl _ Hplain) in Hcmp. injection Hcmp as <-.
  destruct (providers_loop _ _ _ _ _ _ _ _ Hproviders) as (-> & -> & _).
  split; [|done].
  pose proof (tests_events w envs (globalTests (chosen w config config true)) []) as Htests.
  rewrite Hcells in Htests.
  destruct (completed_settles w schedule cells) as (_ & Hunits & _).
  change (StorageGetConfig :: ?l) with ([StorageGetConfig] ++ l).
  rewrite !filter_app.
  rewrite (filter_false asking (GetProvider ∘ providerId <$> _))
    by (apply Forall_fmap, Forall_forall; by intros p _).
  rewrite (filter_false asking tr5) by (eapply Forall_impl; [exact Htests|]; by intros []).
  rewrite (filter_false asking (completed w schedule cells).2)
    by (eapply Forall_impl; [exact Hunits|]; by intros [] []).
  done.
Qed.

Lemma unchanged_configuration_is_not_put_to_the_user_witness :
  filter (λ ev, asking ev = true) mixedTrace = []
  ∧ run_tests mixedReturned = globalTests mixedConfig.
Proof.
  destruct (unchanged_configuration_is_not_put_to_the_user
              strictWorld mixedConfig (storageOf mixedConfig) [] mixedTrace mixedReturned)
    as (Hquiet & Htests & _).
  - vm_compute. JsProperties.plain_value.
  - reflexivity.
  - exact mixedRun_outcome.
  - split; [exact Hquiet|exact Htests].
Defined.


Lemma filter_true {A} (f : A → bool) (l : list A) :
  Forall (λ x, f x = true) l → filter (λ x, f x = true) l = l.
Proof. apply QueueFacts.filter_all. Qed.

(** X25.  Before the queue is awaited the orchestrator goes through the
    matrix test by test and, within a test, environment by environment; for
    every cell it has the assertion manager make one assertion per entry of
    the test's assert list, in order, and then enqueues the unit of work of
    the cell.  So an assertion is made for every cell of a test anew, and
    every cell is enqueued exactly once. *)
Theorem cells_are_prepared_in_row_major_order
    (w : World) (configStore : option Config) (storageStore : option Storage)
    (schedule : list (nat * nat)) (trace : list Event) (run : Run) :
  runTests w configStore storageStore schedule = (trace, Ok run) →
  filter (λ ev, isTestEvent ev = true) trace
  = matrixEvents (length (envs run)) (run_tests run).
Proof.
  intros (config0 & storage & latest & same & envs & runEnvs & tr4 & cells & tr5
          & _ & _ & _ & _ & Hproviders & Hcells & -> & ->)%runTests_inv.
  assert (length envs = length runEnvs) as Hlen.
  { eapply Forall2_length, providers_paired. by rewrite Hproviders. }
  destruct (providers_loop _ _ _ _ _ _ _ _ Hproviders) as (-> & _ & _).
  pose proof (tests_events w envs (globalTests (chosen w config0 latest same)) []) as Htests.
  rewrite Hcells in Htests.
  apply tests_order in Hcells.
  destruct (completed_settles w schedule cells) as (_ & Hunits & _).
  change (StorageGetConfig :: ?l) with ([StorageGetConfig] ++ l).
  rewrite !filter_app.
  rewrite (filter_false isTestEvent (asked w same))
    by (unfold asked; destruct same, (showPrompt w); by repeat constructor).
  rewrite (filter_false isTestEvent (GetProvider ∘ providerId <$> _))
    by (apply Forall_fmap, Forall_forall; by intros p _).
  rewrite (filter_false isTestEvent (completed w schedule cells).2)
    by (eapply Forall_impl; [exact Hunits|]; by intros [] []).
  rewrite (filter_true isTestEvent tr5)
    by (eapply Forall_impl; [exact Htests|]; by intros []).
  assert (∀ r, filter (λ ev, isTestEvent ev = true) (epilogue r) = []) as -> by done.
  simpl. rewrite (right_id_L [] (++)), Hcells, Hlen. done.
Qed.

Lemma cells_are_prepared_in_row_major_order_witness :
  filter (λ ev, isTestEvent ev = true) SampleRuns.brokenTrace
  = [GetAssertion 0 0 0; GetAssertion 0 0 1; Enqueue 0 0;
     GetAssertion 0 1 0; GetAssertion 0 1 1; Enqueue 0 1].
Proof.
  rewrite (cells_are_prepared_in_row_major_order _ _ _ _ _ _ RunProperties.brokenRun_outcome).
  reflexivity.
Defined.


(** X26.  A run goes through its phases in order.  First the storage is
    read, the user is asked if need be, and every provider is looked up;
    only then is the assertion manager made.  Then the cells are prepared:
    every assertion is made and every unit of work is enqueued before the
    environment run of any cell has settled.  The events of the units
    follow, and after the last of them the run is closed. *)
Theorem run_goes_through_its_phases_in_order
    (w : World) (configStore : option Config) (storageStore : option Storage)
    (schedule : list (nat * nat)) (trace : list Event) (run : Run) :
  runTests w configStore storageStore schedule = (trace, Ok run) →
  ∃ opening preparing running,
    trace = opening ++ [NewAssertionManager] ++ preparing ++ running ++ epilogue run
    ∧ Forall openingEvent opening
    ∧ Forall testEvent preparing
    ∧ Forall (λ ev, is_Some (unitOf ev)) running.
Proof.
  intros (config0 & storage & latest & same & envs & runEnvs & tr4 & cells & tr5
          & _ & _ & _ & _ & Hproviders & Hcells & -> & ->)%runTests_inv.
  destruct (providers_loop _ _ _ _ _ _ _ _ Hproviders) as (-> & _ & _).
  pose proof (tests_events w envs (globalTests (chosen w config0 latest same)) []) as Htests.
  rewrite Hcells in Htests.
  destruct (completed_settles w schedule cells) as (_ & Hunits & _).
  exists (StorageGetConfig :: asked w same ++ [NewProviderManager; NewParallelTaskQueue 5]
            ++ (GetProvider ∘ providerId
                  <$> default [] (providers (chosen w config0 latest same)))),
    tr5, (completed w schedule cells).2.
  split; [|split; [|split; [done|done]]].
  - simpl. by rewrite <- !(assoc_L (++)).
  - constructor; [done|]. apply Forall_app_2.
    { unfold asked. destruct same, (showPrompt w); by repeat constructor. }
    apply Forall_app_2; [by repeat constructor|].
    apply Forall_fmap, Forall_forall. by intros p _.
Qed.

Lemma run_goes_through_its_phases_in_order_witness :
  ∃ opening preparing running,
    mixedTrace = opening ++ [NewAssertionManager] ++ preparing ++ running
                   ++ epilogue mixedReturned
    ∧ Forall openingEvent opening
    ∧ Forall testEvent preparing
    ∧ Forall (λ ev, is_Some (unitOf ev)) running.
Proof.
  exact (run_goes_through_its_phases_in_order _ _ _ _ _ _ mixedRun_outcome).
Defined.

End OrchestratorProperties.

(** ** The cell of the results table, on the cells of a run *)

Module ViewProperties.
Import Js Types Actions ActionsSpec TestResultView.

(** What the unit of work leaves in a cell. *)
Lemma settled_cell w t e env vars assertions :
  let cell := (settledUnit w t e env vars assertions).1 in
  (pass cell = every_pass (assertionResults cell)
   ∨ pass cell = false ∧ assertionResults cell = [])
  ∧ (truthy (error (out cell)) = true → pass cell = false ∧ assertionResults cell = []).
Proof.
  unfold settledUnit. destruct (environment_run _ _ _ _ _ _) as [o|reason]; simpl.
  - destruct (truthy (error o)) eqn:Herror; simpl; [by auto|].
    split; [by left|]. by rewrite Herror.
  - split; [by right|done].
Qed.

Lemma firstFailed_None (cell : TestResult) :
  every_pass (assertionResults cell) = true → firstFailedAssertionMessage cell = None.
Proof.
  unfold firstFailedAssertionMessage, every_pass. rewrite forallb_forall. intros Hall.
  assert (filter (λ a, Types.pass a = false ∧ truthy (message a) = true)
                 (assertionResults cell) = []) as ->; [|done].
  apply QueueFacts.filter_none, Forall_forall.
  intros r Hr%list_elem_of_In%Hall [Hfail _]. congruence.
Qed.

(** X21.  The badge of a cell agrees with what the run recorded in it.  A
    cell that passed shows PASS, and no failure message goes with it.  A
    failure message that is shown is not empty, belongs to a cell that did
    not pass, and is the message of the first Assertion Result of the cell
    that failed with a message.  A cell whose environment run returned an
    error shows FAIL without a message, since no assertion ran, and the
    error in place of the output. *)
Theorem badge_agrees_with_the_cell
    (w : World) (configStore : option Config) (storageStore : option Storage)
    (schedule : list (nat * nat)) (trace : list Event) (run : Run)
    (t e : nat) (cell : TestResult) :
  runTests w configStore storageStore schedule = (trace, Ok run) →
  results run !! t ≫= (λ row, row !! e) = Some cell →
  (pass cell = true → badge cell = PASS ∧ firstFailedAssertionMessage cell = None)
  ∧ (∀ m, firstFailedAssertionMessage cell = Some m →
       m ≠ "" ∧ pass cell = false ∧ badge cell = FAIL (" - " +:+ m)
       ∧ ∃ before r after,
           assertionResults cell = before ++ r :: after
           ∧ Types.pass r = false ∧ message r = Some m
           ∧ Forall (λ r', Types.pass r' = true ∨ truthy (message r') = false) before)
  ∧ (∀ err, error (out cell) = Some err → err ≠ "" →
       badge cell = FAIL "" ∧ shown cell = shown_error err).
Proof.
  intros Hrun Hcell.
  assert (∃ env vars assertions, cell = (settledUnit w t e env vars assertions).1)
    as (env & vars & assertions & ->).
  { destruct (RunProperties.run_shape _ _ _ _ _ _ Hrun) as [Hrows Hcols].
    destruct (results run !! t) as [row|] eqn:Hrow; [simpl in Hcell|done].
    destruct (lookup_lt_is_Some_2 (run_tests run) t) as [test Htest].
    { rewrite <- Hrows. by eapply lookup_lt_Some. }
    destruct (lookup_lt_is_Some_2 (envs run) e) as [[provider prompt] Henv].
    { rewrite <- (proj1 (Forall_lookup _ _) Hcols t row Hrow). by eapply lookup_lt_Some. }
    destruct (RunProperties.run_cell _ _ _ _ _ _ _ _ _ _ _ Hrun Htest Henv)
      as (env & assertions & _ & _ & _ & Hcell' & _).
    rewrite Hrow in Hcell'. simpl in Hcell'. rewrite Hcell in Hcell'.
    injection Hcell' as ->. by eexists _, _, _. }
  destruct (settled_cell w t e env vars assertions) as [Hpass Herror].
  set (cell := (settledUnit w t e env vars assertions).1) in *. clearbody cell.
  simpl in Hpass, Herror.
  assert (pass cell = true → firstFailedAssertionMessage cell = None) as Hnone.
  { intros Htrue. destruct Hpass as [Hpass|[Hpass _]]; [|congruence].
    apply firstFailed_None. congruence. }
  split; [|split].
  - intros Htrue. unfold badge. by rewrite Htrue, (Hnone Htrue).
  - intros m Hm.
    assert (pass cell = false) as Hfalse.
    { destruct (pass cell) eqn:Hp; [|done]. by rewrite Hnone in Hm. }
    unfold firstFailedAssertionMessage in Hm.
    destruct (head (filter _ (assertionResults cell))) as [r|] eqn:Hhead; [|done].
    simpl in Hm.
    assert (r ∈ filter (λ a, Types.pass a = false ∧ truthy (message a) = true)
                       (assertionResults cell)) as [[Hfail Htruthy] _]%list_elem_of_filter
      by (by apply head_Some_elem_of).
    apply head_filter_Some in Hhead as (before & after & Hsplit & Hbefore).
    rewrite Hm in Htruthy. simpl in Htruthy.
    split; [by intros ->|]. split; [done|]. split.
    + unfold badge, firstFailedAssertionMessage. rewrite Hfalse, Hsplit.
      rewrite filter_app, (QueueFacts.filter_none _ _ Hbefore). simpl.
      rewrite filter_cons_True by (by rewrite Hm). simpl. rewrite Hm. simpl.
      by rewrite Htruthy.
    + exists before, r, after. split; [done|]. split; [done|]. split; [done|].
      eapply Forall_impl; [exact Hbefore|]. intros r' Hr'. simpl in Hr'.
      destruct (Types.pass r'); [by left|]. right.
      destruct (truthy (message r')); [|done]. by destruct Hr'.
  - intros err Herr Hne.
    destruct Herror as [Hfalse Hnil].
    { rewrite Herr. simpl. by rewrite bool_decide_eq_false_2. }
    unfold badge, shown, firstFailedAssertionMessage. by rewrite Hfalse, Hnil, Herr.
Qed.

Lemma badge_agrees_with_the_cell_witness :
  ∃ good bad,
    results SampleRuns.brokenReturned = [[good; bad]]
    ∧ badge good = PASS
    ∧ badge bad = FAIL "" ∧ shown bad = shown_error "HTTP 401".
Proof.
  destruct (results SampleRuns.brokenReturned) as [|[|good [|bad [|? ?]]] [|? ?]] eqn:Hresults;
    try discriminate Hresults.
  exists good, bad. split; [reflexivity|].
  destruct (badge_agrees_with_the_cell sampleWorld _ _ _ _ _ 0 0 good
              RunProperties.brokenRun_outcome) as (Hgood & _ & _).
  { rewrite Hresults. reflexivity. }
  destruct (badge_agrees_with_the_cell sampleWorld _ _ _ _ _ 0 1 bad
              RunProperties.brokenRun_outcome) as (_ & _ & Hbad).
  { rewrite Hresults. reflexivity. }
  injection Hresults as <- <-.
  split; [by apply Hgood|]. by apply Hbad.
Defined.

End ViewProperties.

(** ** Choosing a folder and loading its state *)

Module LoadingProperties.
Import Actions Loading LoadingSpec.

Lemma fromEntries_snoc {A} (entries : list (string * A)) key (x : A) :
  fromEntries (entries ++ [(key, x)]) = <[key := x]> (fromEntries entries).
Proof. unfold fromEntries. by rewrite foldl_app. Qed.

(** The object built from the runs holds, under every id, the last run with
    that id. *)
Lemma fromEntries_runs (runs : list Run) (key : string) :
  fromEntries ((λ run, (id run, run)) <$> runs) !! key = lastWithId runs key.
Proof.
  unfold lastWithId. induction runs as [|run runs IH] using rev_ind; [done|].
  rewrite fmap_app, filter_app.
  change ((λ run, (id run, run)) <$> [run]) with [(id run, run)].
  rewrite fromEntries_snoc.
  destruct (decide (id run = key)) as [<-|Hne].
  - rewrite lookup_insert_eq, filter_cons_True, filter_nil by done. by rewrite last_snoc.
  - rewrite lookup_insert_ne, filter_cons_False, filter_nil by done.
    by rewrite (right_id_L [] (++)).
Qed.

(** X22.  A load that goes through makes the stores mirror the storage: the
    configuration store holds the configuration read, the run store holds
    exactly the runs read, each under its id (under an id that several runs
    carry, the last of them), and nothing of what it held before; the
    selected run is the last run read, which the run store holds under the
    selected id, or none when no run was read. *)
Theorem loaded_state_mirrors_the_storage
    (during : Stores → Stores) (stores : Stores)
    (storage : FileSystemStorage) (config : Config) (runs : list Run) :
  storageStore stores = Some storage →
  reads storage = Ok (config, runs) →
  sameStorage (storageStore (during stores)) (Some storage) = true →
  let after := (loadStateFromStorage during stores).1 in
  (loadStateFromStorage during stores).2 = Ok tt
  ∧ storageStore after = storageStore (during stores)
  ∧ configStore after = Some config
  ∧ (∀ key, runStore after !! key = lastWithId runs key)
  ∧ selectedRunIdStore after = id <$> last runs
  ∧ (∀ run, last runs = Some run →
       selectedRunIdStore after = Some (id run) ∧ runStore after !! id run = Some run).
Proof.
  intros Hstorage Hreads Hsame. unfold loadStateFromStorage.
  rewrite Hstorage, Hreads, Hsame. simpl.
  split; [done|]. split; [done|]. split; [done|].
  split; [apply fromEntries_runs|]. split; [done|].
  intros run Hlast. rewrite Hlast. split; [done|].
  rewrite fromEntries_runs. unfold lastWithId.
  destruct runs as [|r runs _] using rev_ind; [done|].
  rewrite last_snoc in Hlast. injection Hlast as ->.
  rewrite filter_app, filter_cons_True, filter_nil by done. by rewrite last_snoc.
Qed.

Lemma loaded_state_mirrors_the_storage_witness :
  let after := (loadStateFromStorage undisturbed
                  {| storageStore := Some sampleFolder; configStore := None;
                     runStore := {[ "old" := SampleRuns.noRun ]};
                     selectedRunIdStore := Some "old" |}).1 in
  selectedRunIdStore after = Some "2f1c"
  ∧ runStore after !! "2f1c" = Some SampleRuns.brokenReturned
  ∧ runStore after !! "7b2e" = Some OrchestratorSpec.mixedReturned
  ∧ runStore after !! "old" = None.
Proof.
  destruct (loaded_state_mirrors_the_storage undisturbed
              {| storageStore := Some sampleFolder; configStore := None;
                 runStore := {[ "old" := SampleRuns.noRun ]};
                 selectedRunIdStore := Some "old" |}
              sampleFolder ActionsSpec.sampleConfig
              [SampleRuns.sampleReturned; OrchestratorSpec.mixedReturned;
               SampleRuns.brokenReturned] eq_refl eq_refl eq_refl)
    as (_ & _ & _ & Hruns & _ & Hlast).
  destruct (Hlast SampleRuns.brokenReturned eq_refl) as [Hselected Hstored].
  split; [exact Hselected|]. split; [exact Hstored|].
  split; rewrite Hruns; reflexivity.
Defined.

(** X23.  [chooseFolder] writes the stores only as far as it got.  A picker
    that is dismissed leaves every store as it is, and the call returns
    without an error.  Once a folder is picked the storage store holds it;
    when its reads fail the call throws, and the configuration, the runs
    and the selection are still those of the folder before; when another
    storage has taken its place by the time the reads resolve, what was
    read is dropped and nothing more is written.  Otherwise the stores
    mirror the folder picked. *)
Theorem chooseFolder_writes_as_far_as_it_got
    (picked : Result FileSystemStorage) (picking during : Stores → Stores)
    (stores : Stores) :
  (∀ err, picked = Throw err →
     chooseFolder picked picking during stores = (picking stores, Ok tt))
  ∧ (∀ storage e, picked = Ok storage → reads storage = Throw e →
       chooseFolder picked picking during stores = (during (withStorage (picking stores) storage), Throw e))
  ∧ (∀ storage config runs, picked = Ok storage → reads storage = Ok (config, runs) →
       sameStorage (storageStore (during (withStorage (picking stores) storage))) (Some storage) = false →
       chooseFolder picked picking during stores = (during (withStorage (picking stores) storage), Ok tt))
  ∧ (∀ storage config runs, picked = Ok storage → reads storage = Ok (config, runs) →
       sameStorage (storageStore (during (withStorage (picking stores) storage))) (Some storage) = true →
       ∃ after,
         chooseFolder picked picking during stores = (after, Ok tt)
         ∧ ref <$> storageStore after = Some (ref storage)
         ∧ configStore after = Some config
         ∧ (∀ key, runStore after !! key = lastWithId runs key)
         ∧ selectedRunIdStore after = id <$> last runs).
Proof.
  unfold chooseFolder, loadStateFromStorage, withStorage. simpl. repeat split.
  - by intros err ->.
  - intros storage e -> Hreads. simpl. by rewrite Hreads.
  - intros storage config runs -> Hreads Hsame. simpl. by rewrite Hreads, Hsame.
  - intros storage config runs -> Hreads Hsame. simpl. rewrite Hreads, Hsame. simpl.
    eexists. split; [done|]. simpl. split.
    + unfold sameStorage in Hsame. by apply bool_decide_eq_true in Hsame.
    + split; [done|]. split; [apply fromEntries_runs|done].
Qed.

Lemma chooseFolder_writes_as_far_as_it_got_witness :
  chooseFolder (Throw "AbortError: The user aborted a request") undisturbed undisturbed
    emptyStores = (emptyStores, Ok tt)
  ∧ (∃ after,
       chooseFolder (Ok unreadableFolder) undisturbed undisturbed emptyStores
       = (after, Throw "NotFoundError: config.yaml")
       ∧ ref <$> storageStore after = Some 2 ∧ configStore after = None)
  ∧ (∃ after,
       chooseFolder (Ok sampleFolder) undisturbed switching emptyStores = (after, Ok tt)
       ∧ ref <$> storageStore after = Some 2 ∧ configStore after = None)
  ∧ (∃ after,
       chooseFolder (Ok sampleFolder) undisturbed undisturbed emptyStores = (after, Ok tt)
       ∧ selectedRunIdStore after = Some "2f1c").
Proof.
  split; [|split; [|split]].
  - destruct (chooseFolder_writes_as_far_as_it_got
                (Throw "AbortError: The user aborted a request") undisturbed undisturbed
                emptyStores) as (Hcancel & _).
    exact (Hcancel _ eq_refl).
  - destruct (chooseFolder_writes_as_far_as_it_got
                (Ok unreadableFolder) undisturbed undisturbed emptyStores)
      as (_ & Hfail & _).
    eexists. split; [exact (Hfail _ _ eq_refl eq_refl)|]. split; reflexivity.
  - destruct (chooseFolder_writes_as_far_as_it_got
                (Ok sampleFolder) undisturbed switching emptyStores)
      as (_ & _ & Hstale & _).
    eexists. split; [exact (Hstale _ _ _ eq_refl eq_refl eq_refl)|]. split; reflexivity.
  - destruct (chooseFolder_writes_as_far_as_it_got
                (Ok sampleFolder) undisturbed undisturbed emptyStores)
      as (_ & _ & _ & Hloaded).
    destruct (Hloaded sampleFolder _ _ eq_refl eq_refl eq_refl)
      as (after & Hrun & _ & _ & _ & Hselected).
    exists after. split; [exact Hrun|exact Hselected].
Defined.

End LoadingProperties.
(** ** The settings dialog: saving the environment *)

Module SettingsProperties.
Import Settings SettingsSpec.





(** *** Lookup by key and the order of the properties *)




#[local] Instance indexLe_total {A} : Total (indexLe (A:=A)).
Proof. intros p q. unfold indexLe. lia. Qed.

#[local] Instance indexLe_trans {A} : Transitive (indexLe (A:=A)).
Proof. intros p q r. unfold indexLe. lia. Qed.





(** *** The assignments of [saveEnv] *)




End SettingsProperties.
